(** * Production Studio: resilient fetch, job polling, URL building and the
      six-stage wizard

    A shallow embedding of the request helper and wizard logic of
    [frontend-react/src/components/ProductionStudio.tsx] and of the URL
    construction of [frontend-react/src/services/api.ts].

    Conventions of the embedding:
    - JavaScript values are the inductive [JsValue]; numbers are restricted to
      integers ([Z]), strings to 8-bit code units ([string]).
    - A JavaScript object that is read by key and merged by spread is a
      [gmap string JsValue]; an absent key stands for [undefined].
    - Asynchronous code is explicit state passing over a [World]: the clock,
      the number of [fetch] and [Math.random] calls issued so far, the log of
      [sleep] durations and the component state the code writes.  What the
      platform answers is an [Env] of oracles indexed by call number.
    - Loops carry a fuel argument and keep the source's loop test; every
      result below is of the form "this fuel gives this result". *)

From Stdlib Require Import ZArith String Ascii List Lia Bool.
From stdpp Require Import base option gmap strings list fin_maps pretty.

Set Warnings "-register-all".

Local Open Scope string_scope.
Local Open Scope Z_scope.

(* ===================================================================== *)
(** ** JavaScript values and strings                                      *)
(* ===================================================================== *)

Inductive JsValue : Type :=
| JUndefined
| JNull
| JBool (b : bool)
| JNum (n : Z)
| JStr (s : string)
| JArr (items : list JsValue)
| JObj (fields : list (string * JsValue)).

(** Truthiness, as used by [if], [&&], [||] and [!!]. *)
Definition truthy (v : JsValue) : bool :=
  match v with
  | JUndefined => false
  | JNull => false
  | JBool b => b
  | JNum n => negb (n =? 0)
  | JStr s => negb (String.eqb s "")
  | JArr _ => true
  | JObj _ => true
  end.

(** [o.k] on a settings object: an absent key reads as [undefined]. *)
Definition prop (o : gmap string JsValue) (k : string) : JsValue :=
  default JUndefined (o !! k).

(** [v?.k] on an arbitrary value: only plain objects carry the keys read
    here; the last binding of a repeated key wins, as in [JSON.parse]. *)
Fixpoint assoc_last (k : string) (fs : list (string * JsValue)) : option JsValue :=
  match fs with
  | [] => None
  | (k', v) :: rest =>
      match assoc_last k rest with
      | Some v' => Some v'
      | None => if String.eqb k k' then Some v else None
      end
  end.

Definition field (v : JsValue) (k : string) : JsValue :=
  match v with
  | JObj fs => default JUndefined (assoc_last k fs)
  | _ => JUndefined
  end.

(** [a[i]] for an integer index: out of range (or negative) reads
    [undefined]. *)
Definition arrayGet (a : list JsValue) (i : Z) : JsValue :=
  if i <? 0 then JUndefined else default JUndefined (a !! Z.to_nat i).

(** [a[i] = v]: in range replaces, past the end extends the array (the holes
    read [undefined]); a negative index sets a property and leaves the
    elements alone. *)
Definition arraySet (a : list JsValue) (i : Z) (v : JsValue) : list JsValue :=
  if i <? 0 then a
  else
    let n := Z.to_nat i in
    if (n <? length a)%nat then <[n := v]> a
    else (a ++ replicate (n - length a)%nat JUndefined ++ [v])%list.

Definition startsWith (s p : string) : bool := String.prefix p s.

Definition endsWith (s p : string) : bool :=
  if (String.length p <=? String.length s)%nat
  then String.eqb
         (String.substring (String.length s - String.length p) (String.length p) s) p
  else false.

(** [s.slice(0, -1)]. *)
Definition dropLast (s : string) : string :=
  String.substring 0 (String.length s - 1) s.

Definition isWhiteSpace (c : ascii) : bool :=
  let n := nat_of_ascii c in
  ((9 <=? n) && (n <=? 13) || (n =? 32) || (n =? 160))%nat.

Fixpoint trimStart (s : string) : string :=
  match s with
  | EmptyString => EmptyString
  | String c rest => if isWhiteSpace c then trimStart rest else s
  end.

Definition trimEnd (s : string) : string :=
  String.rev (trimStart (String.rev s)).

Definition trim (s : string) : string := trimEnd (trimStart s).

(** Number of (possibly overlapping) occurrences of [p] in [s]. *)
Fixpoint occurrences (p s : string) : nat :=
  match s with
  | EmptyString => if String.eqb p "" then 1%nat else 0%nat
  | String _ rest =>
      ((if String.prefix p s then 1 else 0) + occurrences p rest)%nat
  end.

(* ===================================================================== *)
(** ** URL builder                                                        *)
(* ===================================================================== *)

(** [API_BASE_URL] is read once from the build configuration
    ([process.env.REACT_APP_API_URL], with a default); it is a parameter. *)
Definition DEFAULT_API_BASE_URL : string := "https://topatudoeletrofacil.com.br/api".

Definition buildApiUrl (API_BASE_URL endpoint : string) : string :=
  let finalEndpoint :=
    if startsWith endpoint "/" then endpoint else "/" +:+ endpoint in
  if endsWith API_BASE_URL "/api"
  then API_BASE_URL +:+ finalEndpoint
  else API_BASE_URL +:+ "/api" +:+ finalEndpoint.

(** [ApiService]: the constructor strips one trailing separator, [request]
    then builds the URL the same way. *)
Record ApiService := { baseUrl : string }.

Definition newApiService (API_BASE_URL : string) : ApiService :=
  {| baseUrl := if endsWith API_BASE_URL "/" then dropLast API_BASE_URL
                else API_BASE_URL |}.

Definition requestUrl (svc : ApiService) (endpoint : string) : string :=
  let finalEndpoint :=
    if startsWith endpoint "/" then endpoint else "/" +:+ endpoint in
  if endsWith (baseUrl svc) "/api"
  then baseUrl svc +:+ finalEndpoint
  else baseUrl svc +:+ "/api" +:+ finalEndpoint.

(** The part of a URL after the scheme separator, where a doubled slash is
    a defect. *)
Fixpoint afterScheme (s : string) : string :=
  match s with
  | EmptyString => EmptyString
  | String c rest =>
      if String.prefix "://" s then String.substring 3 (String.length s - 3) s
      else afterScheme rest
  end.

Definition hasDoubledSlash (url : string) : bool :=
  negb (occurrences "//" (afterScheme url) =? 0)%nat.

(* ===================================================================== *)
(** ** Media URLs                                                         *)
(* ===================================================================== *)

(** The letter a case-insensitive pattern compares with: only the ASCII
    capitals are folded, as by the [i] flag on ASCII patterns. *)
Definition lowerAscii (c : ascii) : ascii :=
  let n := nat_of_ascii c in
  if ((65 <=? n) && (n <=? 90))%nat then ascii_of_nat (n + 32) else c.

(** [p] (in lower case) is a prefix of [s] up to the case of [s]. *)
Fixpoint prefixCI (p s : string) : bool :=
  match p with
  | EmptyString => true
  | String a p' =>
      match s with
      | EmptyString => false
      | String b s' => Ascii.eqb a (lowerAscii b) && prefixCI p' s'
      end
  end.

(** [/^https?:\/\//i.test(s)]. *)
Definition isAbsoluteUrl (s : string) : bool :=
  prefixCI "http://" s || prefixCI "https://" s.

(** [s.replace(/^\/+/, '')]. *)
Fixpoint dropLeadingSlashes (s : string) : string :=
  match s with
  | EmptyString => EmptyString
  | String c rest => if Ascii.eqb c "/" then dropLeadingSlashes rest else s
  end.

(** [s.replace(/^media\//i, '')]. *)
Definition dropMediaPrefix (s : string) : string :=
  if prefixCI "media/" s then String.substring 6 (String.length s - 6) s else s.

(** [s.replace(/^\/+media\//i, '')]: at least one slash, then the prefix. *)
Definition dropSlashedMediaPrefix (s : string) : string :=
  if startsWith s "/" && prefixCI "media/" (dropLeadingSlashes s)
  then dropMediaPrefix (dropLeadingSlashes s)
  else s.

Definition cleanMediaPath (mediaPath : string) : string :=
  dropLeadingSlashes
    (dropSlashedMediaPrefix (dropMediaPrefix (dropLeadingSlashes mediaPath))).

(** [s.includes(p)]. *)
Fixpoint includes (s p : string) : bool :=
  match s with
  | EmptyString => String.prefix p EmptyString
  | String _ rest => String.prefix p s || includes rest p
  end.

Definition PRODUCTION_MEDIA_ROOT : string := "https://topatudoeletrofacil.com.br/media/".

(** Where media is served from for a given API base. *)
Definition mediaRoot (API_BASE_URL : string) : string :=
  if includes API_BASE_URL "/api" then PRODUCTION_MEDIA_ROOT
  else API_BASE_URL +:+ "/media/".

Definition buildMediaUrl (API_BASE_URL mediaPath : string) : string :=
  if String.eqb mediaPath "" then ""
  else if isAbsoluteUrl mediaPath then mediaPath
  else
    let cleanPath := cleanMediaPath mediaPath in
    if includes API_BASE_URL "/api"
    then "https://topatudoeletrofacil.com.br/media/" +:+ cleanPath
    else API_BASE_URL +:+ "/media/" +:+ cleanPath.

(* ===================================================================== *)
(** ** Script text for speech                                             *)
(* ===================================================================== *)

(** [s.replace(/\[([^\]]+)\]/g, '')], scanning left to right.  [pending]
    is [Some b] after an opening bracket whose content so far is [b]: a
    closing bracket then drops the tag when [b] is not empty, and
    otherwise leaves both brackets in place; an opening bracket that is
    never closed stays with what follows it. *)
Fixpoint stripTagsFrom (pending : option string) (s : string) : string :=
  match s with
  | EmptyString =>
      match pending with
      | None => EmptyString
      | Some b => String "[" b
      end
  | String c rest =>
      match pending with
      | None =>
          if Ascii.eqb c "[" then stripTagsFrom (Some EmptyString) rest
          else String c (stripTagsFrom None rest)
      | Some b =>
          if Ascii.eqb c "]" then
            match b with
            | EmptyString => String "[" (String "]" (stripTagsFrom None rest))
            | _ => stripTagsFrom None rest
            end
          else stripTagsFrom (Some (b +:+ String c EmptyString)) rest
      end
  end.

Definition stripTags (s : string) : string := stripTagsFrom None s.

(** [s.replace(/\s+/g, ' ')]; [inRun] tells that the previous character was
    white space already replaced. *)
Fixpoint collapseFrom (inRun : bool) (s : string) : string :=
  match s with
  | EmptyString => EmptyString
  | String c rest =>
      if isWhiteSpace c then
        if inRun then collapseFrom true rest
        else String " " (collapseFrom true rest)
      else String c (collapseFrom false rest)
  end.

Definition collapseSpaces (s : string) : string := collapseFrom false s.

Definition cleanScriptForTTS (script : string) : string :=
  trim (collapseSpaces (stripTags script)).

(** [s.lastIndexOf(c)] for a one-character [c]: -1 when absent. *)
Fixpoint lastIndexOf (c : ascii) (s : string) : Z :=
  match s with
  | EmptyString => -1
  | String d rest =>
      let later := lastIndexOf c rest in
      if 0 <=? later then later + 1
      else if Ascii.eqb d c then 0 else -1
  end.

(** [getPreviewText] of the audio step: the first 70 characters of the
    cleaned script, cut after the last sentence end past position 20, or
    else at the last space past position 20 with an ellipsis. *)
Definition getPreviewText (full : string) : string :=
  let clean := cleanScriptForTTS full in
  let maxChars := 70%nat in
  let text := String.substring 0 maxChars clean in
  let lastEnd := Z.max (Z.max (lastIndexOf "." text) (lastIndexOf "!" text))
                       (lastIndexOf "?" text) in
  if 20 <? lastEnd then String.substring 0 (Z.to_nat (lastEnd + 1)) text
  else
    let lastSpace := lastIndexOf " " text in
    if 20 <? lastSpace then String.substring 0 (Z.to_nat lastSpace) text +:+ "..."
    else text.

(** Shape of a text: where it has white space. *)
Definition startsWithSpace (s : string) : bool :=
  match s with
  | EmptyString => false
  | String c _ => isWhiteSpace c
  end.

Fixpoint endsWithSpace (s : string) : bool :=
  match s with
  | EmptyString => false
  | String c EmptyString => isWhiteSpace c
  | String _ rest => endsWithSpace rest
  end.

(** Every white-space character is a plain space that is not followed by
    white space. *)
Fixpoint spacesTidy (s : string) : bool :=
  match s with
  | EmptyString => true
  | String c rest =>
      (if isWhiteSpace c then Ascii.eqb c " " && negb (startsWithSpace rest) else true)
      && spacesTidy rest
  end.

Fixpoint hasChar (c : ascii) (s : string) : bool :=
  match s with
  | EmptyString => false
  | String d rest => Ascii.eqb d c || hasChar c rest
  end.

(** No bracket tag is left: every opening bracket is followed at once by a
    closing one or by no closing one at all. *)
Fixpoint tagFree (s : string) : bool :=
  match s with
  | EmptyString => true
  | String c rest =>
      (if Ascii.eqb c "[" then startsWith rest "]" || negb (hasChar "]" rest) else true)
      && tagFree rest
  end.

(* ===================================================================== *)
(** ** Component state and platform                                       *)
(* ===================================================================== *)

(** The state of the [ProductionStudio] component that the modelled code
    reads or writes, with [contentSettings], the aggregate owned by the
    parent and replaced wholesale by [onSettingsChange]. *)
Record Studio := mkStudio {
  currentStep : Z;
  stepCompleted : list JsValue;
  generationProgress : Z;
  generatedImages : list JsValue;
  videoPreview : JsValue;
  contentSettings : gmap string JsValue
}.

Definition setCurrentStep (n : Z) (st : Studio) : Studio :=
  mkStudio n (stepCompleted st) (generationProgress st) (generatedImages st)
           (videoPreview st) (contentSettings st).

Definition setStepCompleted (l : list JsValue) (st : Studio) : Studio :=
  mkStudio (currentStep st) l (generationProgress st) (generatedImages st)
           (videoPreview st) (contentSettings st).

Definition setGenerationProgress (p : Z) (st : Studio) : Studio :=
  mkStudio (currentStep st) (stepCompleted st) p (generatedImages st)
           (videoPreview st) (contentSettings st).

Definition setGeneratedImages (l : list JsValue) (st : Studio) : Studio :=
  mkStudio (currentStep st) (stepCompleted st) (generationProgress st) l
           (videoPreview st) (contentSettings st).

Definition setVideoPreview (v : JsValue) (st : Studio) : Studio :=
  mkStudio (currentStep st) (stepCompleted st) (generationProgress st)
           (generatedImages st) v (contentSettings st).

Definition onSettingsChange (cs : gmap string JsValue) (st : Studio) : Studio :=
  mkStudio (currentStep st) (stepCompleted st) (generationProgress st)
           (generatedImages st) (videoPreview st) cs.

(** The component as first mounted. *)
Definition initialStudio (cs : gmap string JsValue) : Studio :=
  mkStudio 1 (replicate 6 (JBool false)) 0 [] JNull cs.

(** What [fetch] resolves with, once the headers are in.  [body] is what
    [resp.json()] settles with when the body has arrived: [None] when the
    payload is not JSON (the call rejects).  Whether and when the body
    arrives is the platform's [bodyTime]. *)
Record Response := mkResponse { status : Z; body : option JsValue }.

(** [resp.ok]. *)
Definition ok (r : Response) : bool := (200 <=? status r) && (status r <=? 299).

(** A thrown value: an [Error]-like object with [name] and [message], or
    anything else ([err?.name] then reads [undefined]). *)
Inductive Thrown : Type :=
| ThrownError (name message : string)
| ThrownOther (v : JsValue).

Inductive Settled : Type :=
| Resolved (r : Response)
| Rejected (e : Thrown).

(** The environment answers the k-th call of each kind. *)
Record Env := mkEnv {
  net : nat -> string -> Settled;      (* outcome of the k-th [fetch], by URL *)
  latency : nat -> Z;                  (* time the k-th [fetch] needs to settle *)
  randomBits : nat -> Z;               (* 53-bit draw of the k-th [Math.random()] *)
  toNumber : JsValue -> option Z;      (* [Number(v)] of a non-number; [None] is NaN *)
  toMessage : JsValue -> string;       (* [String(v)] of a non-string *)
  encodeURIComponent : string -> string;
  bodyTime : nat -> option Z;          (* time the body of the k-th [fetch]'s response
                                          needs to arrive after its headers;
                                          [None]: it never arrives *)
  dialogTime : nat -> option Z         (* time the k-th [alert] box stays open;
                                          [None]: it is never dismissed *)
}.

Record World := mkWorld {
  now : Z;                             (* [Date.now()] *)
  fetches : nat;                       (* [fetch] calls issued so far *)
  randoms : nat;                       (* [Math.random()] calls issued so far *)
  sleeps : list Z;                     (* arguments of [sleep], oldest first *)
  studio : Studio
}.

(** State-passing computations and their notation. *)
Definition M (A : Type) : Type := World -> A * World.

Definition ret {A} (a : A) : M A := fun w => (a, w).

Definition bind {A B} (c : M A) (k : A -> M B) : M B :=
  fun w => let (a, w') := c w in k a w'.

Declare Scope m_scope.
Delimit Scope m_scope with M.
Notation "x <- c ;; k" := (bind c (fun x => k))
  (at level 100, c at next level, right associativity) : m_scope.
Notation "c ;;; k" := (bind c (fun _ => k))
  (at level 100, right associativity) : m_scope.

(** [await sleep(ms)]: the timer fires after [ms] (at once when [ms <= 0]). *)
Definition sleep (ms : Z) : M unit :=
  fun w =>
    (tt, mkWorld (now w + Z.max 0 ms) (fetches w) (randoms w)
                 (sleeps w ++ [ms])%list (studio w)).

Definition dateNow : M Z := fun w => (now w, w).

(** A state setter of the component, run as an effect. *)
Definition setState (f : Studio -> Studio) : M unit :=
  fun w => (tt, mkWorld (now w) (fetches w) (randoms w) (sleeps w) (f (studio w))).

Definition abortError : Thrown :=
  ThrownError "AbortError" "The user aborted a request.".

(** One [fetch(url, {signal})] raced against
    [setTimeout(() => controller.abort(), timeoutMs)]: when the timer fires
    first the call rejects with an [AbortError] at that moment. *)
Definition settle (env : Env) (url : string) (timeoutMs : Z) (k : nat)
  : Settled * Z :=
  let d := Z.max 0 (latency env k) in
  if timeoutMs <? d then (Rejected abortError, timeoutMs)
  else (net env k url, d).

(** The world once a [fetch] that took [d] has settled. *)
Definition afterFetch (d : Z) (w : World) : World :=
  mkWorld (now w + Z.max 0 d) (S (fetches w)) (randoms w) (sleeps w) (studio w).

Definition fetch (env : Env) (url : string) (timeoutMs : Z) : M Settled :=
  fun w =>
    let (s, d) := settle env url timeoutMs (fetches w) in
    (s, afterFetch d w).

(** The world once something awaited for [d] ms is over. *)
Definition afterWait (d : Z) (w : World) : World :=
  mkWorld (now w + Z.max 0 d) (fetches w) (randoms w) (sleeps w) (studio w).

(** [await resp.json()] on the response of the [fetch] issued last.  The
    abort timer of that [fetch] is cleared as soon as the headers are in,
    so nothing bounds the read: it lasts as long as the body takes, and
    [None] is a body that never arrives, which leaves the caller suspended
    there.  Otherwise the result is what parsing gives, [body resp]. *)
Definition readJson (env : Env) (resp : Response) : M (option (option JsValue)) :=
  fun w =>
    match bodyTime env (pred (fetches w)) with
    | Some d => (Some (body resp), afterWait d w)
    | None => (None, w)
    end.

(** [Math.floor(Math.random() * 250)], with [Math.random()] the draw
    divided by 2^53. *)
Definition jitterOf (bits : Z) : Z := (250 * (bits mod 2 ^ 53)) / 2 ^ 53.

Definition randomJitter (env : Env) : M Z :=
  fun w =>
    (jitterOf (randomBits env (randoms w)),
     mkWorld (now w) (fetches w) (S (randoms w)) (sleeps w)
             (studio w)).

(* ===================================================================== *)
(** ** Resilient fetch                                                    *)
(* ===================================================================== *)

Definition DEFAULT_TIMEOUT_MS : Z := 110000.
Definition DEFAULT_RETRIES : Z := 2.
Definition DEFAULT_RETRY_DELAY_BASE_MS : Z := 800.

(** [[429, 502, 503, 504].includes(status)]. *)
Definition isRetryStatus (s : Z) : bool :=
  existsb (Z.eqb s) [429; 502; 503; 504].

(** [retryDelayBaseMs * Math.pow(2, attempt)], the wait without its jitter. *)
Definition backoffBase (retryDelayBaseMs attempt : Z) : Z :=
  retryDelayBaseMs * 2 ^ attempt.

(** [retryDelayBaseMs * Math.pow(2, attempt) + Math.floor(Math.random() * 250)]. *)
Definition retryWait (env : Env) (retryDelayBaseMs attempt : Z) : M Z :=
  (j <- randomJitter env ;; ret (backoffBase retryDelayBaseMs attempt + j))%M.

(** The world once the wait before the next attempt is over. *)
Definition afterBackoff (env : Env) (retryDelayBaseMs attempt : Z) (w : World)
  : World :=
  snd ((wait <- retryWait env retryDelayBaseMs attempt ;; sleep wait)%M w).

(** [err?.name]: the name of an [Error]-like object, the [name] property
    of any other thrown object, [undefined] for everything else. *)
Definition errName (e : Thrown) : JsValue :=
  match e with
  | ThrownError name _ => JStr name
  | ThrownOther v => field v "name"
  end.

(** [err?.name === 'AbortError']. *)
Definition isAbort (e : Thrown) : bool :=
  match errName e with
  | JStr name => String.eqb name "AbortError"
  | _ => false
  end.

Definition timeoutError : Thrown :=
  ThrownError "Error" "Tempo limite atingido. Tente novamente.".

Definition unexpectedError : Thrown :=
  ThrownError "Error" "Falha de rede inesperada".

(** The three ways out of [safeFetch]: [return resp], the [throw] of the
    [catch] branch, and the [throw] after the loop. *)
Inductive Exit : Type :=
| ReturnResp (r : Response)
| CatchThrow (e : Thrown)
| FallThrough.

(** [for (let attempt = 0; attempt <= retries; attempt++) { ... }], started
    at [attempt]; [None] when the fuel runs out. *)
Fixpoint safeFetchLoop (env : Env) (url : string)
    (timeoutMs retries retryDelayBaseMs : Z) (fuel : nat) (attempt : Z)
  : M (option Exit) :=
  match fuel with
  | O => ret None
  | S fuel' =>
      if attempt <=? retries then
        (settled <- fetch env url timeoutMs ;;
         match settled with
         | Resolved resp =>
             if isRetryStatus (status resp) && (attempt <? retries) then
               wait <- retryWait env retryDelayBaseMs attempt ;;
               sleep wait ;;;
               safeFetchLoop env url timeoutMs retries retryDelayBaseMs
                             fuel' (attempt + 1)
             else ret (Some (ReturnResp resp))
         | Rejected err =>
             if attempt <? retries then
               wait <- retryWait env retryDelayBaseMs attempt ;;
               sleep wait ;;;
               safeFetchLoop env url timeoutMs retries retryDelayBaseMs
                             fuel' (attempt + 1)
             else ret (Some (CatchThrow (if isAbort err then timeoutError else err)))
         end)%M
      else ret (Some FallThrough)
  end.

(** Fuel that covers every iteration and the final loop test. *)
Definition safeFetchFuel (retries : Z) : nat := S (Z.to_nat (retries + 1)).

Definition safeFetch (env : Env) (url : string)
    (timeoutMs retries retryDelayBaseMs : Z) : M (option Exit) :=
  safeFetchLoop env url timeoutMs retries retryDelayBaseMs
                (safeFetchFuel retries) 0.

(** What the caller of [safeFetch] observes. *)
Inductive Outcome (A : Type) : Type :=
| Returns (a : A)
| Throws (e : Thrown).
Arguments Returns {A} a.
Arguments Throws {A} e.

Definition observe (x : Exit) : Outcome Response :=
  match x with
  | ReturnResp r => Returns r
  | CatchThrow e => Throws e
  | FallThrough => Throws unexpectedError
  end.

(* ===================================================================== *)
(** ** Job polling loop                                                   *)
(* ===================================================================== *)

Definition POLL_CEILING_MS : Z := 20 * 60 * 1000.
Definition POLL_INTERVAL_MS : Z := 1500.

(** [Number(v)]. *)
Definition jsNumber (env : Env) (v : JsValue) : option Z :=
  match v with
  | JNum n => Some n
  | _ => toNumber env v
  end.

(** The message of [new Error(v)]. *)
Definition jsMessage (env : Env) (v : JsValue) : string :=
  match v with
  | JStr s => s
  | _ => toMessage env v
  end.

(** The ways out of the [while (!finished)] loop, one per exit of the
    source: [finished = true], the ceiling [throw], the [throw] on a failed
    job, [safeFetch] throwing, and [statusResp.json()] rejecting. *)
Inductive PollExit : Type :=
| PollCompleted
| PollCeiling
| PollJobFailed (message : string)
| PollRequestThrew (e : Thrown)
| PollBodyThrew.

Inductive PollStep : Type :=
| KeepPolling
| Leave (x : PollExit).

Definition ceilingError : Thrown :=
  ThrownError "Error" "Tempo máximo de renderização excedido. Tente novamente.".

Definition syntaxError : Thrown :=
  ThrownError "SyntaxError" "Unexpected token in JSON".

(** What the enclosing [try] observes: [None] when the loop ended normally. *)
Definition pollThrown (x : PollExit) : option Thrown :=
  match x with
  | PollCompleted => None
  | PollCeiling => Some ceilingError
  | PollJobFailed m => Some (ThrownError "Error" m)
  | PollRequestThrew e => Some e
  | PollBodyThrew => Some syntaxError
  end.

Definition statusUrl (env : Env) (API_BASE_URL jobId : string) : string :=
  buildApiUrl API_BASE_URL
    ("production/job-status?job_id=" +:+ encodeURIComponent env jobId).

(** The part of the loop body after [const statusData = await
    statusResp.json()]. *)
Definition applyStatus (env : Env) (statusData : JsValue) : M PollStep :=
  ((if truthy (field statusData "progress")
    then setState (setGenerationProgress
           (Z.min 95 (default 0 (jsNumber env (field statusData "progress")))))
    else ret tt) ;;;
   match field statusData "status" with
   | JStr st =>
       if String.eqb st "completed" && truthy (field statusData "video_url")
       then setState (setVideoPreview (field statusData "video_url")) ;;;
            ret (Leave PollCompleted)
       else if String.eqb st "failed"
       then ret (Leave (PollJobFailed
              (if truthy (field statusData "error")
               then jsMessage env (field statusData "error")
               else "Falha na renderização")))
       else ret KeepPolling
   | _ => ret KeepPolling
   end)%M.

(** The part of the loop body after [safeFetch] returned [statusResp];
    [None] when the pass never gets past [await statusResp.json()]. *)
Definition handleStatus (env : Env) (statusResp : Response) : M (option PollStep) :=
  if negb (ok statusResp) then ret (Some KeepPolling)
  else
    (read <- readJson env statusResp ;;
     match read with
     | None => ret None
     | Some None => ret (Some (Leave PollBodyThrew))
     | Some (Some statusData) =>
         s <- applyStatus env statusData ;; ret (Some s)
     end)%M.

(** One pass through the loop body; [None] when the pass never ends,
    suspended on the body of the status response ([safeFetch] itself always
    returns). *)
Definition pollIteration (env : Env) (API_BASE_URL jobId : string) (started : Z)
  : M (option PollStep) :=
  (t <- dateNow ;;
   if POLL_CEILING_MS <? t - started then ret (Some (Leave PollCeiling))
   else
     sleep POLL_INTERVAL_MS ;;;
     r <- safeFetch env (statusUrl env API_BASE_URL jobId)
            DEFAULT_TIMEOUT_MS 1 DEFAULT_RETRY_DELAY_BASE_MS ;;
     match r with
     | None => ret None
     | Some (ReturnResp statusResp) => handleStatus env statusResp
     | Some (CatchThrow e) => ret (Some (Leave (PollRequestThrew e)))
     | Some FallThrough => ret (Some (Leave (PollRequestThrew unexpectedError)))
     end)%M.

(** [while (!finished) { ... }]; [None] when the loop never ends: a pass is
    suspended on the body of a status response.  The fuel counts passes. *)
Fixpoint pollLoop (env : Env) (API_BASE_URL jobId : string) (started : Z)
    (fuel : nat) : M (option PollExit) :=
  match fuel with
  | O => ret None
  | S fuel' =>
      (s <- pollIteration env API_BASE_URL jobId started ;;
       match s with
       | None => ret None
       | Some KeepPolling => pollLoop env API_BASE_URL jobId started fuel'
       | Some (Leave x) => ret (Some x)
       end)%M
  end.

(** Every pass sleeps 1500 ms, so 802 passes reach the ceiling test with
    more than 20 minutes on the clock: the fuel never runs out. *)
Definition POLL_FUEL : nat := 802.

(** [const started = Date.now(); while (!finished) { ... }]. *)
Definition pollJob (env : Env) (API_BASE_URL jobId : string) : M (option PollExit) :=
  (started <- dateNow ;; pollLoop env API_BASE_URL jobId started POLL_FUEL)%M.

(* ===================================================================== *)
(** ** Wizard                                                             *)
(* ===================================================================== *)

Definition completeStep (stepIndex : Z) (st : Studio) : Studio :=
  let newCompleted := arraySet (stepCompleted st) (stepIndex - 1) (JBool true) in
  let st' := setStepCompleted newCompleted st in
  if stepIndex <? 6 then setCurrentStep (stepIndex + 1) st' else st'.

Definition markStepAsCompleted (stepIndex : Z) (st : Studio) : Studio :=
  let newCompleted := arraySet (stepCompleted st) (stepIndex - 1) (JBool true) in
  setStepCompleted newCompleted st.

Definition isStepAccessible (stepIndex : Z) (st : Studio) : bool :=
  (stepIndex =? 1) || truthy (arrayGet (stepCompleted st) (stepIndex - 2)).

Definition goToStep (stepIndex : Z) (st : Studio) : Studio :=
  if (stepIndex =? 1) || truthy (arrayGet (stepCompleted st) (stepIndex - 2))
  then setCurrentStep stepIndex st
  else st.

(** [script && script.trim().length > 50]: [None] when [trim] is called on
    a truthy value that is not a string (a [TypeError]). *)
Definition scriptIsMeaningful (script : JsValue) : option bool :=
  match script with
  | JStr s =>
      Some (negb (String.eqb s "") && (50 <? Z.of_nat (String.length (trim s))))
  | _ => if truthy script then None else Some false
  end.

(** [v && v.length > 0]. *)
Definition nonEmpty (v : JsValue) : bool :=
  match v with
  | JArr l => (0 <? Z.of_nat (length l))
  | JStr s => (0 <? Z.of_nat (String.length s))
  | _ => false
  end.

(** Truthiness of what [canCompleteCurrentStep()] returns. *)
Definition canCompleteCurrentStep (st : Studio) : option bool :=
  let cs := contentSettings st in
  match currentStep st with
  | 1 => scriptIsMeaningful (prop cs "script")
  | 2 => Some (truthy (prop cs "script") && truthy (prop cs "audio_file"))
  | 3 => Some (truthy (prop cs "visual_style"))
  | 4 => Some (truthy (prop cs "subtitle_style") && truthy (prop cs "transitions"))
  | 5 => Some (nonEmpty (prop cs "target_platforms"))
  | 6 => Some true
  | _ => Some false
  end.

(** The "advance" button: rendered while [currentStep < 6], disabled unless
    [canCompleteCurrentStep()], and wired to [completeStep(currentStep)]. *)
Definition advanceClick (st : Studio) : Studio :=
  if currentStep st <? 6 then
    match canCompleteCurrentStep st with
    | Some true => completeStep (currentStep st) st
    | _ => st
    end
  else st.

(** A stage tab: disabled unless [isStepAccessible(step.id)], wired to
    [goToStep(step.id)]. *)
Definition stepTabClick (stepId : Z) (st : Studio) : Studio :=
  if isStepAccessible stepId st then goToStep stepId st else st.

(** [updateSettings(key, value)] of the render that saw [closure]: the whole
    aggregate is replaced by the closure's copy with one key changed. *)
Definition updateSettings (closure : Studio) (key : string) (value : JsValue)
  : Studio -> Studio :=
  onSettingsChange (<[key := value]> (contentSettings closure)).

(** [onSelectComplete] of the audio step: stores the generated audio and
    completes stage 2 without consulting [canCompleteCurrentStep]. *)
Definition onSelectComplete (result : JsValue) (st : Studio) : Studio :=
  if truthy (field result "audio_url") then
    let s1 := updateSettings st "audio_file" (field result "audio_url") st in
    let s2 := updateSettings st "preview_audio_file" JUndefined s1 in
    let model := field result "model" in
    let s3 := updateSettings st "last_audio_model"
                (if truthy model then model else JStr "google") s2 in
    let s4 :=
      match model with
      | JStr m =>
          if String.eqb m "elevenlabs" && truthy (field result "voice_profile")
          then updateSettings st "elevenlabs_voice" (field result "voice_profile") s3
          else s3
      | _ => s3
      end in
    let advanced := completeStep 2 st in
    setCurrentStep (currentStep advanced)
      (setStepCompleted (stepCompleted advanced) s4)
  else st.

(* ===================================================================== *)
(** ** Wizard controls as events                                          *)
(* ===================================================================== *)

(** The [id]s of [workflowSteps], one tab each. *)
Definition workflowStepIds : list Z := [1; 2; 3; 4; 5; 6].

(** The "back" button: disabled on stage 1, otherwise
    [setCurrentStep(Math.max(1, currentStep - 1))]. *)
Definition backClick (st : Studio) : Studio :=
  if currentStep st =? 1 then st
  else setCurrentStep (Z.max 1 (currentStep st - 1)) st.

(** [markStepAsCompleted] and [completeStep] copy [stepCompleted] from the
    render that created the handler.  A handler that calls them after an
    [await] was created by the render that started the request
    ([closure]), which can be older than the state the setters write to. *)
Definition markStepAsCompletedFrom (closure : Studio) (stepIndex : Z) (st : Studio)
  : Studio :=
  let newCompleted := arraySet (stepCompleted closure) (stepIndex - 1) (JBool true) in
  setStepCompleted newCompleted st.

Definition completeStepFrom (closure : Studio) (stepIndex : Z) (st : Studio)
  : Studio :=
  let newCompleted := arraySet (stepCompleted closure) (stepIndex - 1) (JBool true) in
  let st' := setStepCompleted newCompleted st in
  if stepIndex <? 6 then setCurrentStep (stepIndex + 1) st' else st'.

(** [onSelectComplete] as created by the render that saw [closure]. *)
Definition onSelectCompleteFrom (closure : Studio) (result : JsValue) (st : Studio)
  : Studio :=
  if truthy (field result "audio_url") then
    let s1 := updateSettings closure "audio_file" (field result "audio_url") st in
    let s2 := updateSettings closure "preview_audio_file" JUndefined s1 in
    let model := field result "model" in
    let s3 := updateSettings closure "last_audio_model"
                (if truthy model then model else JStr "google") s2 in
    let s4 :=
      match model with
      | JStr m =>
          if String.eqb m "elevenlabs" && truthy (field result "voice_profile")
          then updateSettings closure "elevenlabs_voice"
                 (field result "voice_profile") s3
          else s3
      | _ => s3
      end in
    completeStepFrom closure 2 s4
  else st.

(** What can happen to the wizard: the three navigation controls, whose
    handlers are those of the render on screen, and the two completions
    that arrive after an [await]: the image generation marking stage 3
    ([markStepAsCompleted(3)]) and the audio step handing over its result.
    [age] is the number of events since the request was started: the
    handler that completes it is the one of the render on screen then. *)
Inductive WizardEvent : Type :=
| ClickAdvance
| ClickTab (stepId : Z)
| ClickBack
| ImagesGenerated (age : nat)
| AudioSelected (age : nat) (result : JsValue).

(** The render on screen [age] events ago, given the earlier renders
    (latest first) and the current one; the oldest known one when [age]
    reaches further back. *)
Fixpoint renderSeen (past : list Studio) (st : Studio) (age : nat) : Studio :=
  match age, past with
  | O, _ => st
  | S _, [] => st
  | S a, prev :: older => renderSeen older prev a
  end.

Definition wizardStep (past : list Studio) (ev : WizardEvent) (st : Studio) : Studio :=
  match ev with
  | ClickAdvance => advanceClick st
  | ClickTab stepId =>
      if existsb (Z.eqb stepId) workflowStepIds then stepTabClick stepId st else st
  | ClickBack => backClick st
  | ImagesGenerated age => markStepAsCompletedFrom (renderSeen past st age) 3 st
  | AudioSelected age result => onSelectCompleteFrom (renderSeen past st age) result st
  end.

Fixpoint wizardRunFrom (past : list Studio) (evs : list WizardEvent) (st : Studio)
  : Studio :=
  match evs with
  | [] => st
  | ev :: rest => wizardRunFrom (st :: past) rest (wizardStep past ev st)
  end.

Definition wizardRun (evs : list WizardEvent) (st : Studio) : Studio :=
  wizardRunFrom [] evs st.

(** The completion is handled by the render on screen: nothing happened
    since its request was started. *)
Definition landsAtOnce (ev : WizardEvent) : bool :=
  match ev with
  | ImagesGenerated age | AudioSelected age _ => (age =? 0)%nat
  | _ => true
  end.

(** The current stage is one of the six, and the flags are six booleans. *)
Definition wizardWellFormed (st : Studio) : Prop :=
  1 <= currentStep st <= 6 /\
  length (stepCompleted st) = 6%nat /\
  Forall (fun v => exists b, v = JBool b) (stepCompleted st).

(* ===================================================================== *)
(** ** Snapshot persistence                                               *)
(* ===================================================================== *)

(** [JSON.parse(JSON.stringify(v))] on values: [undefined] is dropped from
    objects and becomes [null] inside arrays; [None] when [JSON.stringify]
    itself yields [undefined]. *)
Fixpoint jsonClone (v : JsValue) : option JsValue :=
  match v with
  | JUndefined => None
  | JArr items => Some (JArr (List.map (fun x => default JNull (jsonClone x)) items))
  | JObj fields =>
      Some (JObj ((fix cloneFields (fs : list (string * JsValue)) :=
                     match fs with
                     | [] => []
                     | (k, x) :: rest =>
                         match jsonClone x with
                         | Some y => (k, y) :: cloneFields rest
                         | None => cloneFields rest
                         end
                     end) fields))
  | _ => Some v
  end.

(** The object case of [jsonClone], by name. *)
Fixpoint cloneFields (fs : list (string * JsValue)) : list (string * JsValue) :=
  match fs with
  | [] => []
  | (k, x) :: rest =>
      match jsonClone x with
      | Some y => (k, y) :: cloneFields rest
      | None => cloneFields rest
      end
  end.

(** A value that survives serialisation unchanged. *)
Definition jsonExact (v : JsValue) : Prop := jsonClone v = Some v.

(** The [settings] keys written by the persist effect. *)
Definition persistedKeys : list string :=
  [ "script"; "visual_style"; "image_provider"; "visual_prompts_text";
    "leonardo_prompts_text"; "generated_images"; "audio_file";
    "preview_audio_file"; "elevenlabs_voice"; "scene_duration"; "transitions";
    "subtitle_style"; "leonardo_motion"; "motion_strength" ].

Definition settingsPayload (cs : gmap string JsValue) : JsValue :=
  JObj (List.map (fun k => (k, prop cs k)) persistedKeys).

Definition snapshotPayload (st : Studio) : JsValue :=
  JObj [ ("settings", settingsPayload (contentSettings st));
         ("generatedImages", JArr (generatedImages st));
         ("videoPreview", videoPreview st);
         ("stepCompleted", JArr (stepCompleted st)) ].

(** The item under ['production_studio_state']: absent, or a text that
    parses to a value ([Some v]) or does not parse ([None]). *)
Definition Storage : Type := option (option JsValue).

(** The persist effect; [accepted = false] is [setItem] throwing, which the
    effect swallows. *)
Definition persist (accepted : bool) (st : Studio) (storage : Storage) : Storage :=
  if accepted then Some (jsonClone (snapshotPayload st)) else storage.

(** The own properties an object spread [{...v}] copies, later bindings
    overriding earlier ones. *)
Fixpoint objToMap (fs : list (string * JsValue)) : gmap string JsValue :=
  match fs with
  | [] => ∅
  | (k, v) :: rest => objToMap rest ∪ {[ k := v ]}
  end.

Fixpoint indexed (i : nat) (l : list JsValue) : list (string * JsValue) :=
  match l with
  | [] => []
  | x :: rest => (pretty i, x) :: indexed (S i) rest
  end.

Fixpoint characters (s : string) : list JsValue :=
  match s with
  | EmptyString => []
  | String c rest => JStr (String c EmptyString) :: characters rest
  end.

Definition spread (v : JsValue) : gmap string JsValue :=
  match v with
  | JObj fs => objToMap fs
  | JArr l => objToMap (indexed 0 l)
  | JStr s => objToMap (indexed 0 (characters s))
  | _ => ∅
  end.

(** The body of the rehydrate effect once [JSON.parse] returned [parsed];
    reading [parsed.settings] of [null] (or [undefined]) throws before
    anything is set, and the [catch] leaves the state as it was. *)
Definition applySnapshot (parsed : JsValue) (st : Studio) : Studio :=
  match parsed with
  | JNull | JUndefined => st
  | _ =>
      let s1 := onSettingsChange
                  (spread (field parsed "settings") ∪ contentSettings st) st in
      let s2 := match field parsed "generatedImages" with
                | JArr l => setGeneratedImages l s1
                | _ => s1
                end in
      let s3 := match field parsed "videoPreview" with
                | JStr s => setVideoPreview (JStr s) s2
                | _ => s2
                end in
      match field parsed "stepCompleted" with
      | JArr l => setStepCompleted l s3
      | _ => s3
      end
  end.

(** The rehydrate effect, run once on mount: [st] is the first render's
    state, which the effect both reads (its closure) and writes to.  What
    the session holds once all the effects of the mount have run is
    [mount] below. *)
Definition rehydrate (storage : Storage) (st : Studio) : Studio :=
  match storage with
  | Some (Some parsed) => applySnapshot parsed st
  | Some None => st
  | None => st
  end.

(** The effect that gives [voice_profile] its default.  It runs after
    every render in which the profile or [updateSettings] changed, the
    first one included, with the configuration that render saw
    ([closure]). *)
Definition voiceProfileEffect (closure : Studio) (st : Studio) : Studio :=
  if negb (truthy (prop (contentSettings closure) "voice_profile"))
  then updateSettings closure "voice_profile" (JStr "male-professional") st
  else st.

(** The session after the first commit of the component.  The effects of
    the first render run in source order, each with that render's state
    [fresh] as its closure, and what they set is applied in that order:
    the rehydrate effect first, the [voice_profile] effect after it.  Both
    call [onSettingsChange], the parent's state setter, which keeps the
    value of the last call.  (The effects in between set nothing: the
    [beforeunload] one registers a listener, the persist one writes the
    store after the rehydrate effect has read it.) *)
Definition mount (storage : Storage) (fresh : Studio) : Studio :=
  voiceProfileEffect fresh (rehydrate storage fresh).

(** The starting configuration of the application ([App.tsx]): the keys
    given a value there, but for the two fractional numbers
    ([speaking_speed], [background_music_volume]). *)
Definition appDefaults : gmap string JsValue :=
  list_to_map
    [ ("topic", JStr ""); ("script", JStr ""); ("audio_duration", JNum 60);
      ("content_ai_model", JStr "chatgpt"); ("content_type", JStr "custom_message");
      ("custom_topics", JArr [JStr "Mistérios"]); ("message_categories", JArr [JStr ""]);
      ("tone", JStr "mysterious"); ("image_style", JStr "realistic");
      ("color_palette", JStr "vibrant"); ("animation_type", JStr "parallax");
      ("voice_emotion", JStr "neutral"); ("use_topmedia_ai", JBool false);
      ("background_music", JStr ""); ("video_duration", JNum 60);
      ("transitions", JStr "dynamic"); ("text_overlay", JBool true);
      ("custom_prompt_roteiro", JStr ""); ("custom_prompt_imagem", JStr "");
      ("custom_prompt_audio", JStr ""); ("target_platforms", JArr [JStr "short"]);
      ("target_languages", JArr [JStr "pt-BR"]); ("ai_competition_mode", JBool true);
      ("auto_research_trending", JBool true); ("generate_micro_videos", JBool true);
      ("video_effects_enabled", JBool true); ("subtitle_style", JStr "neon_glow");
      ("revenue_optimization", JBool true); ("voice_style", JStr "default");
      ("emotion_style", JStr "neutro"); ("audio_file", JUndefined) ].

(* ===================================================================== *)
(** ** Complete video render                                              *)
(* ===================================================================== *)

(** The state [handleCompleteVideoRender] writes besides [Studio]: the
    error banner ([null] or a message), the busy flag, and the number of
    [alert] boxes shown. *)
Record RenderUi := mkRenderUi {
  errorBanner : option string;
  isRenderingVideo : bool;
  alerts : nat
}.

(** [error instanceof Error ? error.message : 'Erro desconhecido']. *)
Definition errorMessageOf (e : Thrown) : string :=
  match e with
  | ThrownError _ m => m
  | ThrownOther _ => "Erro desconhecido"
  end.

Definition nullAccessError : Thrown :=
  ThrownError "TypeError" "Cannot read properties of null".

(** [a || b || c || d]. *)
Definition firstTruthy (a b c d : JsValue) : JsValue :=
  if truthy a then a else if truthy b then b else if truthy c then c else d.

Definition renderUrl (API_BASE_URL : string) : string :=
  buildApiUrl API_BASE_URL "production/render-complete-video".

(** What follows [const renderData = await response.json()] inside the
    [try], up to the [alert]: [Returns tt] when the block gets there,
    [None] when polling never ends. *)
Definition afterRenderData (env : Env) (API_BASE_URL : string) (renderData : JsValue)
  : M (option (Outcome unit)) :=
  match renderData with
  | JNull | JUndefined => ret (Some (Throws nullAccessError))
  | _ =>
      if negb (truthy (field renderData "success")) then
        ret (Some (Throws (ThrownError "Error"
               (if truthy (field renderData "error")
                then jsMessage env (field renderData "error")
                else "Erro na renderização do vídeo"))))
      else
        let jobId := firstTruthy (field renderData "job_id") (field renderData "jobId")
                                 (field renderData "task_id") (field renderData "id") in
        if truthy jobId then
          (setState (setGenerationProgress 20) ;;;
           x <- pollJob env API_BASE_URL (jsMessage env jobId) ;;
           match x with
           | None => ret None
           | Some PollCompleted =>
               setState (setGenerationProgress 100) ;;; ret (Some (Returns tt))
           | Some other => ret (Some (Throws (default syntaxError (pollThrown other))))
           end)%M
        else
          (setState (setVideoPreview
             (if truthy (field renderData "video_path")
              then field renderData "video_path"
              else field renderData "video_url")) ;;;
           ret (Some (Returns tt)))%M
  end.

Definition notAFunctionError : Thrown :=
  ThrownError "TypeError" "slice is not a function".

(** [img.url || img.image_url || img] reads a property of [img]: it throws
    on [null] and [undefined]. *)
Definition isNullish (v : JsValue) : bool :=
  match v with
  | JNull | JUndefined => true
  | _ => false
  end.

(** [(script || '').slice(0, 12000)] throws on a truthy value without
    [slice], that is on anything truthy but a string or an array. *)
Definition canSlice (script : JsValue) : bool :=
  match script with
  | JStr _ | JArr _ => true
  | _ => negb (truthy script)
  end.

(** The [try] block of the handler up to its [alert]; [None] when it never
    gets that far, suspended on a body that does not arrive. *)
Definition renderAttempt (env : Env) (API_BASE_URL : string)
  : M (option (Outcome unit)) :=
  (setState (setGenerationProgress 10) ;;;
   st <- (fun w => (studio w, w)) ;;
   if existsb isNullish (generatedImages st) then
     ret (Some (Throws nullAccessError))
   else if negb (canSlice (prop (contentSettings st) "script")) then
     ret (Some (Throws notAFunctionError))
   else
   r <- safeFetch env (renderUrl API_BASE_URL) DEFAULT_TIMEOUT_MS DEFAULT_RETRIES
          DEFAULT_RETRY_DELAY_BASE_MS ;;
   match r with
   | None => ret None
   | Some x =>
       match observe x with
       | Throws e => ret (Some (Throws e))
       | Returns response =>
           if negb (ok response) then
             ret (Some (Throws (ThrownError "Error"
                    ("Erro na renderização: " +:+ pretty (status response)))))
           else
             read <- readJson env response ;;
             match read with
             | None => ret None
             | Some None => ret (Some (Throws syntaxError))
             | Some (Some renderData) => afterRenderData env API_BASE_URL renderData
             end
       end
   end)%M.

(** [alert(message)]: the script stands still until the box is dismissed;
    [None] when it never is. *)
Definition alert (env : Env) (shown : nat) : M (option unit) :=
  fun w =>
    match dialogTime env shown with
    | Some d => (Some tt, afterWait d w)
    | None => (None, w)
    end.

(** [handleCompleteVideoRender], called from a render that saw [ui] and the
    studio of the world.  [None] when the handler never comes to its end
    and so never releases the busy flag: it is suspended on a body that
    does not arrive, or its success [alert] is never dismissed. *)
Definition handleCompleteVideoRender (env : Env) (API_BASE_URL : string)
    (ui : RenderUi) : M (option RenderUi) :=
  fun w =>
    if negb (truthy (prop (contentSettings (studio w)) "leonardo_motion")) then
      (Some (mkRenderUi (Some "Selecione um estilo de movimento para continuar.")
                        (isRenderingVideo ui) (alerts ui)), w)
    else if (length (generatedImages (studio w)) =? 0)%nat then
      (Some (mkRenderUi (Some "Nenhuma imagem disponível para renderização.")
                        (isRenderingVideo ui) (alerts ui)), w)
    else if isRenderingVideo ui then (Some ui, w)
    else
      let (r, w') := renderAttempt env API_BASE_URL w in
      match r with
      | None => (None, w')
      | Some (Returns _) =>
          match alert env (alerts ui) w' with
          | (Some _, w'') => (Some (mkRenderUi None false (S (alerts ui))), w'')
          | (None, w'') => (None, w'')
          end
      | Some (Throws e) =>
          (Some (mkRenderUi
                   (Some ("Erro na renderização do vídeo: " +:+ errorMessageOf e))
                   false (alerts ui)), w')
      end.

(* ===================================================================== *)
(** ** API service requests                                               *)
(* ===================================================================== *)

(** A plain [fetch(url, config)], without abort signal: it settles when
    the network does. *)
Definition plainFetch (env : Env) (url : string) : M Settled :=
  fun w => (net env (fetches w) url, afterFetch (latency env (fetches w)) w).

Definition networkFallbackBody : JsValue :=
  JObj [("error", JStr "Erro de rede ou JSON inválido")].

(** [ApiService.request(endpoint, options)]: the parsed body of an [ok]
    response, or a throw.  The body is taken as arrived: [bodyTime] is not
    consulted here. *)
Definition request (env : Env) (svc : ApiService) (endpoint : string)
  : M (Outcome JsValue) :=
  (response <- plainFetch env (requestUrl svc endpoint) ;;
   match response with
   | Rejected e => ret (Throws e)
   | Resolved r =>
       if negb (ok r) then
         let errorBody := default networkFallbackBody (body r) in
         match errorBody with
         | JNull | JUndefined => ret (Throws nullAccessError)
         | _ =>
             ret (Throws (ThrownError "Error"
                    (if truthy (field errorBody "error")
                     then jsMessage env (field errorBody "error")
                     else "Erro " +:+ pretty (status r))))
         end
       else
         match body r with
         | None => ret (Throws syntaxError)
         | Some data => ret (Returns data)
         end
   end)%M.

(* ===================================================================== *)
(** ** Reasons for leaving the polling loop                               *)
(* ===================================================================== *)

(** The status request of one pass, as issued by the loop. *)
Definition statusRequest (env : Env) (API_BASE_URL jobId : string) : M (option Exit) :=
  safeFetch env (statusUrl env API_BASE_URL jobId)
            DEFAULT_TIMEOUT_MS 1 DEFAULT_RETRY_DELAY_BASE_MS.

(** What must have happened for the loop to leave through [x] into world
    [w']: the ceiling was passed, or the last status request returned the
    response that decided it, or that request itself threw. *)
Definition exitJustified (env : Env) (API_BASE_URL jobId : string)
    (started : Z) (x : PollExit) (w' : World) : Prop :=
  match x with
  | PollCeiling => POLL_CEILING_MS < now w' - started
  | PollCompleted =>
      exists w1 w2 resp data,
        statusRequest env API_BASE_URL jobId w1 = (Some (ReturnResp resp), w2) /\
        ok resp = true /\ body resp = Some data /\
        field data "status" = JStr "completed" /\
        truthy (field data "video_url") = true /\
        videoPreview (studio w') = field data "video_url"
  | PollJobFailed m =>
      exists w1 w2 resp data,
        statusRequest env API_BASE_URL jobId w1 = (Some (ReturnResp resp), w2) /\
        ok resp = true /\ body resp = Some data /\
        field data "status" = JStr "failed" /\
        m = (if truthy (field data "error")
             then jsMessage env (field data "error")
             else "Falha na renderização")
  | PollRequestThrew e =>
      exists w1 x1 w2,
        statusRequest env API_BASE_URL jobId w1 = (Some x1, w2) /\
        observe x1 = Throws e
  | PollBodyThrew =>
      exists w1 w2 resp,
        statusRequest env API_BASE_URL jobId w1 = (Some (ReturnResp resp), w2) /\
        ok resp = true /\ body resp = None
  end.

(** The loop is suspended in world [w']: the last status request returned
    an [ok] response, and the body of that response never arrives. *)
Definition awaitsBody (env : Env) (API_BASE_URL jobId : string) (w' : World) : Prop :=
  exists w1 resp,
    statusRequest env API_BASE_URL jobId w1 = (Some (ReturnResp resp), w') /\
    ok resp = true /\
    bodyTime env (pred (fetches w')) = None.

(** Every body arrives, and within [D] ms of its headers. *)
Definition bodiesWithin (env : Env) (D : Z) : Prop :=
  forall k, exists d, bodyTime env k = Some d /\ d <= D.

(* ===================================================================== *)
(** ** Sample environments and states                                     *)
(* ===================================================================== *)

(** A platform whose every [fetch] gets the answer [answer] after
    [delay] ms. *)
Definition constantEnv (answer : Settled) (delay : Z) : Env :=
  mkEnv (fun _ _ => answer) (fun _ => delay) (fun k => Z.of_nat k * 2 ^ 51)
        (fun _ => None) (fun _ => "[object Object]") (fun s => s)
        (fun _ => Some 0) (fun _ => Some 0).

Definition env503 : Env := constantEnv (Resolved (mkResponse 503 None)) 120.
Definition env500 : Env := constantEnv (Resolved (mkResponse 500 None)) 120.
Definition env200 : Env :=
  constantEnv (Resolved (mkResponse 200 (Some (JObj [("success", JBool true)])))) 120.
Definition envOffline : Env :=
  constantEnv (Rejected (ThrownError "TypeError" "Failed to fetch")) 30.
(** Requests that never settle within the timeout. *)
Definition envStalled : Env := constantEnv (Resolved (mkResponse 200 None)) 500000.

Definition world0 : World := mkWorld 0 0 0 [] (initialStudio ∅).

Definition pendingStatus : Settled :=
  Resolved (mkResponse 200
    (Some (JObj [("status", JStr "pending"); ("progress", JNum 40)]))).

Definition completedStatus : Settled :=
  Resolved (mkResponse 200
    (Some (JObj [("status", JStr "completed"); ("progress", JNum 100);
                 ("video_url", JStr "/media/video/v.mp4")]))).

(** A job reported as completed by the third status check. *)
Definition envThirdPoll : Env :=
  mkEnv (fun k _ => if (k <? 2)%nat then pendingStatus else completedStatus)
        (fun _ => 120) (fun _ => 0) (fun _ => None) (fun _ => "[object Object]")
        (fun s => s) (fun _ => Some 0) (fun _ => Some 0).

(** The same job on a slow line: every body takes 40 ms to arrive. *)
Definition envSlowBody : Env :=
  mkEnv (fun k _ => if (k <? 2)%nat then pendingStatus else completedStatus)
        (fun _ => 120) (fun _ => 0) (fun _ => None) (fun _ => "[object Object]")
        (fun s => s) (fun _ => Some 40) (fun _ => Some 0).

(** A status endpoint that sends its headers and then never the body. *)
Definition envBodyStalls : Env :=
  mkEnv (fun _ _ => pendingStatus)
        (fun _ => 120) (fun _ => 0) (fun _ => None) (fun _ => "[object Object]")
        (fun s => s) (fun _ => None) (fun _ => Some 0).

(** A first connection that fails, then a completed job. *)
Definition envFlaky : Env :=
  mkEnv (fun k _ => if (k <? 1)%nat
                    then Rejected (ThrownError "TypeError" "Failed to fetch")
                    else completedStatus)
        (fun _ => 120) (fun _ => 0) (fun _ => None) (fun _ => "[object Object]")
        (fun s => s) (fun _ => Some 0) (fun _ => Some 0).

(** A session in stage 2 with a script and no audio yet, and the result the
    audio step hands to [onSelectComplete]. *)
Definition studioAtAudio : Studio :=
  mkStudio 2 [JBool true; JBool false; JBool false; JBool false; JBool false; JBool false]
           0 [] JNull {[ "script" := JStr "Era uma vez um roteiro." ]}.

Definition audioResult : JsValue :=
  JObj [("audio_url", JStr "/media/audio/a.mp3"); ("model", JStr "google");
        ("voice_profile", JStr "male-professional")].

(** A script of 60 characters. *)
Definition longScript : string :=
  "Era uma vez um roteiro com bem mais de cinquenta caracteres.".

Definition studioWithScript : Studio :=
  initialStudio {[ "script" := JStr longScript ]}.

(** A saved session without a subtitle style, and a fresh one started from
    the application's defaults. *)
Definition savedStudio : Studio :=
  mkStudio 3 [JBool true; JBool true; JBool false; JBool false; JBool false; JBool false]
           40 [JStr "/media/img/1.png"; JStr "/media/img/2.png"]
           (JStr "/media/video/v.mp4")
           (<["script" := JStr "Roteiro salvo"]>
              (<["topic" := JStr "gatos"]> ∅)).

Definition freshStudio : Studio := initialStudio appDefaults.

(* ===================================================================== *)
(** ** Transient failures and the waits between attempts                  *)
(* ===================================================================== *)

(** An attempt that [safeFetch] answers with a wait and a new attempt, while
    attempts are left: a rejection, or a response with a retry status. *)
Definition isTransient (s : Settled) : bool :=
  match s with
  | Rejected _ => true
  | Resolved r => isRetryStatus (status r)
  end.

(** The [n] waits that follow attempts [attempt], [attempt + 1], ... when the
    next [Math.random()] call is the [r0]-th. *)
Fixpoint backoffWaits (env : Env) (retryDelayBaseMs attempt : Z) (r0 n : nat)
  : list Z :=
  match n with
  | O => []
  | S n' =>
      (backoffBase retryDelayBaseMs attempt + jitterOf (randomBits env r0))
        :: backoffWaits env retryDelayBaseMs (attempt + 1) (S r0) n'
  end.

(** A platform whose first two connections fail and whose third is
    answered. *)
Definition envRecovers : Env :=
  mkEnv (fun k _ => if (k <? 1)%nat
                    then Rejected (ThrownError "TypeError" "Failed to fetch")
                    else if (k <? 2)%nat then Resolved (mkResponse 502 None)
                    else Resolved (mkResponse 200 (Some (JObj [("success", JBool true)]))))
        (fun _ => 120) (fun k => Z.of_nat k * 2 ^ 51) (fun _ => None)
        (fun _ => "[object Object]") (fun s => s)
        (fun _ => Some 0) (fun _ => Some 0).

(* ===================================================================== *)
(** ** What polling may change                                            *)
(* ===================================================================== *)

(** [b] is [a] but for the progress, which is at most 95 unless it was
    higher before, and, when [keepPreview] is false, the video preview. *)
Definition pollFrame (keepPreview : bool) (a b : Studio) : Prop :=
  currentStep b = currentStep a /\
  stepCompleted b = stepCompleted a /\
  generatedImages b = generatedImages a /\
  contentSettings b = contentSettings a /\
  generationProgress b <= Z.max (generationProgress a) 95 /\
  (keepPreview = true -> videoPreview b = videoPreview a).

Definition endsCompleted (x : PollExit) : bool :=
  match x with
  | PollCompleted => true
  | _ => false
  end.

(** The longest one status request can take: two timeouts and one wait. *)
Definition STATUS_REQUEST_MAX_MS : Z :=
  2 * DEFAULT_TIMEOUT_MS + DEFAULT_RETRY_DELAY_BASE_MS + 249.

(** A session ready to render: a motion style chosen and two images. *)
Definition studioReady : Studio :=
  mkStudio 4 [JBool true; JBool true; JBool true; JBool false; JBool false; JBool false]
           0 [JStr "/media/img/1.png"; JStr "/media/img/2.png"] JNull
           (<["leonardo_motion" := JStr "subtle_movement"]>
              (<["script" := JStr "Roteiro salvo"]> ∅)).

Definition worldReady : World := mkWorld 0 0 0 [] studioReady.

Definition idleUi : RenderUi := mkRenderUi None false 0.

(** A backend that starts a job and reports it completed at the second
    status check. *)
Definition envRenderJob : Env :=
  mkEnv (fun k _ =>
           if (k <? 1)%nat
           then Resolved (mkResponse 200
                  (Some (JObj [("success", JBool true); ("job_id", JStr "job-1")])))
           else if (k <? 2)%nat then pendingStatus else completedStatus)
        (fun _ => 120) (fun _ => 0) (fun _ => None) (fun _ => "[object Object]")
        (fun s => s) (fun _ => Some 0) (fun _ => Some 0).

(* ===================================================================== *)
(** ** Script category                                                    *)
(* ===================================================================== *)

(** [detectScriptCategory(script)].  [toLowerCase] is the platform's
    [String.prototype.toLowerCase]. *)
Definition detectScriptCategory (toLowerCase : string -> string) (script : string)
  : string :=
  let lowerScript := toLowerCase script in
  if includes lowerScript "misterio" || includes lowerScript "terror"
     || includes lowerScript "assombr"
  then "mystery-terror"
  else if includes lowerScript "tecnologia" || includes lowerScript "ia"
          || includes lowerScript "artificial"
  then "technology"
  else if includes lowerScript "historia" || includes lowerScript "era uma vez"
  then "story"
  else if includes lowerScript "como" || includes lowerScript "tutorial"
          || includes lowerScript "aprenda"
  then "tutorial"
  else if includes lowerScript "engraçad" || includes lowerScript "piada"
          || includes lowerScript "humor"
  then "comedy"
  else "general".

(** The six labels [detectScriptCategory] can give. *)
Definition scriptCategories : list string :=
  ["mystery-terror"; "technology"; "story"; "tutorial"; "comedy"; "general"].

(** Lower-casing of the unaccented Latin letters, for sample runs. *)
Fixpoint lowerLatin (s : string) : string :=
  match s with
  | EmptyString => EmptyString
  | String c rest => String (lowerAscii c) (lowerLatin rest)
  end.

(** A transport that rejects every request with a plain object named
    [AbortError] (not an [Error] instance). *)
Definition envAbortObject : Env :=
  constantEnv (Rejected (ThrownOther (JObj [("name", JStr "AbortError")]))) 120.

(** A backend that starts a job and then never sends the body of a status
    response. *)
Definition envRenderStalls : Env :=
  mkEnv (fun k _ =>
           if (k <? 1)%nat
           then Resolved (mkResponse 200
                  (Some (JObj [("success", JBool true); ("job_id", JStr "job-1")])))
           else pendingStatus)
        (fun _ => 120) (fun _ => 0) (fun _ => None) (fun _ => "[object Object]")
        (fun s => s) (fun k => if (k <? 1)%nat then Some 0 else None)
        (fun _ => Some 0).

(** A session in stage 4 with stages 1 to 3 done and the subtitle settings
    chosen. *)
Definition studioAtSubtitles : Studio :=
  mkStudio 4 [JBool true; JBool true; JBool true; JBool false; JBool false; JBool false]
           0 [] JNull
           (<["subtitle_style" := JStr "neon_glow"]>
              (<["transitions" := JStr "dynamic"]> ∅)).

(* ===================================================================== *)
(** * Properties                                                          *)
(* ===================================================================== *)

(** ** Resilient fetch *)

Section SafeFetch.

Variable env : Env.
Variable url : string.
Variables timeoutMs retries retryDelayBaseMs : Z.

Local Abbreviation loop := (safeFetchLoop env url timeoutMs retries retryDelayBaseMs).

(** One pass through the loop body, by cases on how the attempt settled. *)
Lemma safeFetchLoop_unfold (fuel : nat) (attempt : Z) (w : World) :
  attempt <= retries ->
  loop (S fuel) attempt w =
    match fst (settle env url timeoutMs (fetches w)) with
    | Resolved resp =>
        if isRetryStatus (status resp) && (attempt <? retries)
        then loop fuel (attempt + 1)
               (afterBackoff env retryDelayBaseMs attempt
                  (afterFetch (snd (settle env url timeoutMs (fetches w))) w))
        else (Some (ReturnResp resp),
              afterFetch (snd (settle env url timeoutMs (fetches w))) w)
    | Rejected err =>
        if attempt <? retries
        then loop fuel (attempt + 1)
               (afterBackoff env retryDelayBaseMs attempt
                  (afterFetch (snd (settle env url timeoutMs (fetches w))) w))
        else (Some (CatchThrow (if isAbort err then timeoutError else err)),
              afterFetch (snd (settle env url timeoutMs (fetches w))) w)
    end.
Proof.
  intros Hle. cbn [safeFetchLoop].
  apply Z.leb_le in Hle. rewrite Hle.
  unfold bind at 1. unfold fetch.
  destruct (settle env url timeoutMs (fetches w)) as [s d]. cbn [fst snd].
  destruct s as [resp | err].
  - destruct (isRetryStatus (status resp) && (attempt <? retries)); reflexivity.
  - destruct (attempt <? retries); reflexivity.
Qed.

Lemma safeFetchLoop_exhausted (fuel : nat) (attempt : Z) (w : World) :
  retries < attempt ->
  loop (S fuel) attempt w = (Some FallThrough, w).
Proof.
  intros Hlt. cbn [safeFetchLoop].
  apply Z.leb_gt in Hlt. rewrite Hlt. reflexivity.
Qed.

Lemma afterBackoff_fetches (attempt : Z) (w : World) :
  fetches (afterBackoff env retryDelayBaseMs attempt w) = fetches w.
Proof. reflexivity. Qed.

Lemma afterBackoff_studio (attempt : Z) (w : World) :
  studio (afterBackoff env retryDelayBaseMs attempt w) = studio w.
Proof. reflexivity. Qed.

Lemma afterBackoff_now (attempt : Z) (w : World) :
  now w <= now (afterBackoff env retryDelayBaseMs attempt w).
Proof. unfold afterBackoff; cbn. lia. Qed.

Lemma afterBackoff_sleeps (attempt : Z) (w : World) :
  sleeps (afterBackoff env retryDelayBaseMs attempt w) =
  (sleeps w ++ [backoffBase retryDelayBaseMs attempt
                + jitterOf (randomBits env (randoms w))])%list.
Proof. reflexivity. Qed.

Lemma afterBackoff_randoms (attempt : Z) (w : World) :
  randoms (afterBackoff env retryDelayBaseMs attempt w) = S (randoms w).
Proof. reflexivity. Qed.

Lemma afterFetch_now (d : Z) (w : World) : now w <= now (afterFetch d w).
Proof. cbn. lia. Qed.

(** The loop always comes to an end within the fuel [safeFetch] gives it;
    it never moves the clock back and leaves the component state alone. *)
Lemma safeFetchLoop_total (fuel : nat) :
  forall (attempt : Z) (w : World),
    (Z.to_nat (retries + 1 - attempt) < fuel)%nat ->
    exists x w',
      loop fuel attempt w = (Some x, w') /\
      now w <= now w' /\ studio w' = studio w /\ (fetches w <= fetches w')%nat.
Proof.
  induction fuel as [| fuel IH]; intros attempt w Hfuel; [lia |].
  destruct (Z_le_gt_dec attempt retries) as [Hle | Hgt].
  - rewrite safeFetchLoop_unfold by assumption.
    set (w1 := afterFetch _ w).
    assert (Hnow1 : now w <= now w1) by apply afterFetch_now.
    assert (Hrec : attempt < retries ->
      exists x w', loop fuel (attempt + 1)
                     (afterBackoff env retryDelayBaseMs attempt w1) = (Some x, w')
        /\ now w <= now w' /\ studio w' = studio w /\ (fetches w <= fetches w')%nat).
    { intros Hlt.
      destruct (IH (attempt + 1) (afterBackoff env retryDelayBaseMs attempt w1))
        as (x & w' & Hrun & Hnow & Hst & Hf); [lia |].
      exists x, w'. split; [exact Hrun |].
      pose proof (afterBackoff_now attempt w1).
      rewrite afterBackoff_studio in Hst. rewrite afterBackoff_fetches in Hf.
      repeat split; [lia | exact Hst | cbn in Hf; lia]. }
    destruct (fst (settle env url timeoutMs (fetches w))) as [resp | err].
    + destruct (isRetryStatus (status resp) && (attempt <? retries)) eqn:Hc.
      * apply andb_true_iff in Hc as [_ Hlt]. apply Z.ltb_lt in Hlt. auto.
      * eexists _, _. split; [reflexivity |]. repeat split; [exact Hnow1 | cbn; lia].
    + destruct (attempt <? retries) eqn:Hc.
      * apply Z.ltb_lt in Hc. auto.
      * eexists _, _. split; [reflexivity |]. repeat split; [exact Hnow1 | cbn; lia].
  - rewrite safeFetchLoop_exhausted by lia.
    exists FallThrough, w. repeat split; lia.
Qed.

Lemma safeFetch_total (w : World) :
  exists x w',
    safeFetch env url timeoutMs retries retryDelayBaseMs w = (Some x, w') /\
    now w <= now w' /\ studio w' = studio w /\ (fetches w <= fetches w')%nat.
Proof.
  apply safeFetchLoop_total. unfold safeFetchFuel. lia.
Qed.

End SafeFetch.

(** The jitter is an integer from 0 to 249. *)
Lemma jitterOf_range (bits : Z) : 0 <= jitterOf bits < 250.
Proof.
  unfold jitterOf.
  assert (H : 0 <= bits mod 2 ^ 53 < 2 ^ 53) by (apply Z.mod_pos_bound; lia).
  split.
  - apply Z.div_pos; lia.
  - apply Z.div_lt_upper_bound; lia.
Qed.

Lemma isRetryStatus_false (s : Z) :
  ~ In s [429; 502; 503; 504] -> isRetryStatus s = false.
Proof.
  intros Hnot. unfold isRetryStatus.
  destruct (existsb (Z.eqb s) [429; 502; 503; 504]) eqn:He; [| reflexivity].
  apply existsb_exists in He as (x & Hin & Heq).
  apply Z.eqb_eq in Heq. subst x. contradiction.
Qed.

(** While every attempt rejects, the loop goes through all of them and
    the [catch] branch of the last one throws. *)
Lemma safeFetchLoop_all_rejected (env : Env) (url : string)
    (timeoutMs retries retryDelayBaseMs : Z) (n : nat) :
  forall (fuel : nat) (attempt : Z) (w : World),
    attempt + Z.of_nat n = retries ->
    (n < fuel)%nat ->
    (forall k, (k <= n)%nat ->
       exists e, fst (settle env url timeoutMs (fetches w + k)) = Rejected e) ->
    exists e w',
      fst (settle env url timeoutMs (fetches w + n)) = Rejected e /\
      safeFetchLoop env url timeoutMs retries retryDelayBaseMs fuel attempt w =
        (Some (CatchThrow (if isAbort e then timeoutError else e)), w') /\
      fetches w' = (fetches w + n + 1)%nat /\
      length (sleeps w') = (length (sleeps w) + n)%nat.
Proof.
  induction n as [| n IH]; intros fuel attempt w Hat Hfuel Hrej.
  - destruct fuel as [| fuel]; [lia |].
    destruct (Hrej 0%nat) as [e He]; [lia |].
    rewrite Nat.add_0_r in *.
    exists e, (afterFetch (snd (settle env url timeoutMs (fetches w))) w).
    split; [exact He |]. split.
    + rewrite safeFetchLoop_unfold by lia. rewrite He.
      replace (attempt <? retries) with false by (symmetry; apply Z.ltb_ge; lia).
      reflexivity.
    + cbn. split; lia.
  - destruct fuel as [| fuel]; [lia |].
    destruct (Hrej 0%nat) as [e0 He0]; [lia |].
    rewrite Nat.add_0_r in He0.
    rewrite safeFetchLoop_unfold by lia. rewrite He0.
    replace (attempt <? retries) with true by (symmetry; apply Z.ltb_lt; lia).
    set (w1 := afterBackoff _ _ _ _).
    destruct (IH fuel (attempt + 1) w1) as (e & w' & He & Hrun & Hf & Hs).
    + lia.
    + lia.
    + intros k Hk. destruct (Hrej (S k)) as [e He]; [lia |].
      exists e. rewrite <- He. f_equal. f_equal.
      subst w1. rewrite afterBackoff_fetches. cbn. lia.
    + exists e, w'.
      assert (Hw1 : fetches w1 = S (fetches w)) by reflexivity.
      assert (Hs1 : length (sleeps w1) = S (length (sleeps w))).
      { subst w1. rewrite afterBackoff_sleeps. rewrite length_app. cbn. lia. }
      repeat split.
      * rewrite <- He. f_equal. f_equal. lia.
      * exact Hrun.
      * lia.
      * lia.
Qed.

(** A retryable status with attempts left: wait and go round again. *)
Lemma safeFetchLoop_retry (env : Env) (url : string)
    (timeoutMs retries retryDelayBaseMs : Z) (fuel : nat) (attempt : Z)
    (w : World) (r : Response) :
  fst (settle env url timeoutMs (fetches w)) = Resolved r ->
  isRetryStatus (status r) = true ->
  attempt < retries ->
  safeFetchLoop env url timeoutMs retries retryDelayBaseMs (S fuel) attempt w =
  safeFetchLoop env url timeoutMs retries retryDelayBaseMs fuel (attempt + 1)
    (afterBackoff env retryDelayBaseMs attempt
       (afterFetch (snd (settle env url timeoutMs (fetches w))) w)).
Proof.
  intros Hs Hr Hlt. rewrite safeFetchLoop_unfold by lia. rewrite Hs, Hr.
  apply Z.ltb_lt in Hlt. rewrite Hlt. reflexivity.
Qed.

(** A response that is not to be retried, or the response of the last
    attempt, is handed back. *)
Lemma safeFetchLoop_return (env : Env) (url : string)
    (timeoutMs retries retryDelayBaseMs : Z) (fuel : nat) (attempt : Z)
    (w : World) (r : Response) :
  fst (settle env url timeoutMs (fetches w)) = Resolved r ->
  isRetryStatus (status r) = false \/ attempt = retries ->
  attempt <= retries ->
  safeFetchLoop env url timeoutMs retries retryDelayBaseMs (S fuel) attempt w =
  (Some (ReturnResp r),
   afterFetch (snd (settle env url timeoutMs (fetches w))) w).
Proof.
  intros Hs Hcase Hle. rewrite safeFetchLoop_unfold by lia. rewrite Hs.
  destruct Hcase as [Hr | Heq].
  - rewrite Hr. reflexivity.
  - replace (attempt <? retries) with false by (symmetry; apply Z.ltb_ge; lia).
    rewrite andb_false_r. reflexivity.
Qed.

(** C1: with [retries = 2] and a transport that answers 503 on every
    attempt, [safeFetch] makes exactly three attempts, sleeping the two
    back-off waits in between, and returns the third response as it is. *)
Theorem safeFetch_always_503 (env : Env) (url : string)
    (timeoutMs retryDelayBaseMs : Z) (w : World) :
  (forall k, exists r,
     fst (settle env url timeoutMs k) = Resolved r /\ status r = 503) ->
  exists r w',
    safeFetch env url timeoutMs 2 retryDelayBaseMs w = (Some (ReturnResp r), w') /\
    fst (settle env url timeoutMs (fetches w + 2)) = Resolved r /\
    status r = 503 /\
    fetches w' = (fetches w + 3)%nat /\
    sleeps w' =
      (sleeps w ++
       [backoffBase retryDelayBaseMs 0 + jitterOf (randomBits env (randoms w));
        backoffBase retryDelayBaseMs 1 + jitterOf (randomBits env (S (randoms w)))])%list.
Proof.
  intros H503.
  destruct (H503 (fetches w)) as (r0 & H0 & S0).
  destruct (H503 (S (fetches w))) as (r1 & H1 & S1).
  destruct (H503 (S (S (fetches w)))) as (r2 & H2 & S2).
  assert (R503 : isRetryStatus 503 = true) by reflexivity.
  exists r2. eexists. unfold safeFetch, safeFetchFuel.
  change (S (Z.to_nat (2 + 1))) with 4%nat.
  rewrite (safeFetchLoop_retry _ _ _ _ _ _ _ _ r0) by (rewrite ?S0; auto; lia).
  set (w1 := afterBackoff _ _ 0 _).
  assert (F1 : fetches w1 = S (fetches w)) by reflexivity.
  rewrite (safeFetchLoop_retry _ _ _ _ _ _ _ _ r1)
    by (rewrite ?F1, ?S1; auto; lia).
  set (w2 := afterBackoff _ _ (0 + 1) _).
  assert (F2 : fetches w2 = S (S (fetches w))) by reflexivity.
  rewrite (safeFetchLoop_return _ _ _ _ _ _ _ _ r2)
    by (rewrite ?F2; auto; lia).
  split; [reflexivity |].
  split; [rewrite <- H2; f_equal; f_equal; lia |].
  split; [exact S2 |].
  split; [cbn; lia |].
  cbn [sleeps afterFetch]. subst w2. rewrite afterBackoff_sleeps.
  cbn [sleeps afterFetch randoms]. subst w1. rewrite afterBackoff_sleeps.
  rewrite afterBackoff_randoms. cbn [sleeps randoms afterFetch].
  rewrite <- app_assoc. reflexivity.
Qed.

Lemma safeFetch_always_503_witness :
  (forall k, exists r,
     fst (settle env503 "https://x.com/api/status" DEFAULT_TIMEOUT_MS k) = Resolved r /\
     status r = 503) /\
  exists r w',
    safeFetch env503 "https://x.com/api/status" DEFAULT_TIMEOUT_MS 2 800 world0 =
      (Some (ReturnResp r), w') /\
    fst (settle env503 "https://x.com/api/status" DEFAULT_TIMEOUT_MS
           (fetches world0 + 2)) = Resolved r /\
    status r = 503 /\
    fetches w' = (fetches world0 + 3)%nat /\
    sleeps w' =
      (sleeps world0 ++
       [backoffBase 800 0 + jitterOf (randomBits env503 (randoms world0));
        backoffBase 800 1 + jitterOf (randomBits env503 (S (randoms world0)))])%list.
Proof.
  assert (H : forall k, exists r,
     fst (settle env503 "https://x.com/api/status" DEFAULT_TIMEOUT_MS k) = Resolved r /\
     status r = 503).
  { intros k. exists (mkResponse 503 None). split; reflexivity. }
  split; [exact H |].
  exact (safeFetch_always_503 env503 "https://x.com/api/status"
           DEFAULT_TIMEOUT_MS 800 world0 H).
Defined.

(** The same run, evaluated: three fetches of 120 ms and waits of 800 and
    1600 ms plus jitter. *)
Example run_always_503 :
  safeFetch env503 "https://x.com/api/status" DEFAULT_TIMEOUT_MS 2 800 world0 =
  (Some (ReturnResp (mkResponse 503 None)),
   mkWorld 2822 3 2 [800; 1662] (initialStudio ∅)).
Proof. vm_compute. reflexivity. Qed.


(** What [isAbort] decides, case by case. *)
Lemma isAbort_cases (e : Thrown) :
  (forall msg, e = ThrownError "AbortError" msg -> isAbort e = true) /\
  (forall v, e = ThrownOther v -> field v "name" = JStr "AbortError" ->
     isAbort e = true) /\
  (forall name msg, e = ThrownError name msg -> name <> "AbortError" ->
     isAbort e = false) /\
  (forall v, e = ThrownOther v -> field v "name" <> JStr "AbortError" ->
     isAbort e = false).
Proof.
  unfold isAbort.
  split; [intros msg ->; reflexivity |].
  split; [intros v -> Hn; cbn [errName]; rewrite Hn; reflexivity |].
  split.
  - intros name msg -> Hn. cbn [errName]. apply String.eqb_neq. exact Hn.
  - intros v -> Hn. cbn [errName].
    destruct (field v "name") as [| | b | n | s | l | fs]; try reflexivity.
    apply String.eqb_neq. intros ->. apply Hn. reflexivity.
Qed.

(** C5: when every attempt of a call ends in an error, all [retries + 1]
    attempts are made and the call throws from the [catch] branch of the
    last one.  What it throws is decided by the error [e] of that last
    attempt alone: the timeout error, a fresh [Error] with the fixed
    message, when [e] is named [AbortError] (as the rejection of a request
    that outlasted [timeoutMs] is), and [e] itself otherwise.  The errors
    of the earlier attempts are not surfaced. *)
Theorem safeFetch_errors_exhausted (env : Env) (url : string)
    (timeoutMs retries retryDelayBaseMs : Z) (w : World) :
  0 <= retries ->
  (forall k, (k <= Z.to_nat retries)%nat ->
     exists e, fst (settle env url timeoutMs (fetches w + k)) = Rejected e) ->
  exists e thrown w',
    fst (settle env url timeoutMs (fetches w + Z.to_nat retries)) = Rejected e /\
    safeFetch env url timeoutMs retries retryDelayBaseMs w =
      (Some (CatchThrow thrown), w') /\
    observe (CatchThrow thrown) = Throws thrown /\
    fetches w' = (fetches w + Z.to_nat retries + 1)%nat /\
    length (sleeps w') = (length (sleeps w) + Z.to_nat retries)%nat /\
    (forall msg, e = ThrownError "AbortError" msg ->
       thrown = ThrownError "Error" "Tempo limite atingido. Tente novamente.") /\
    (forall v, e = ThrownOther v -> field v "name" = JStr "AbortError" ->
       thrown = ThrownError "Error" "Tempo limite atingido. Tente novamente.") /\
    (timeoutMs < latency env (fetches w + Z.to_nat retries) ->
       thrown = ThrownError "Error" "Tempo limite atingido. Tente novamente.") /\
    (forall name msg, e = ThrownError name msg -> name <> "AbortError" ->
       thrown = e) /\
    (forall v, e = ThrownOther v -> field v "name" <> JStr "AbortError" ->
       thrown = e).
Proof.
  intros Hpos Hrej.
  destruct (safeFetchLoop_all_rejected env url timeoutMs retries retryDelayBaseMs
              (Z.to_nat retries) (safeFetchFuel retries) 0 w)
    as (e & w' & He & Hrun & Hf & Hs).
  - lia.
  - unfold safeFetchFuel. lia.
  - exact Hrej.
  - destruct (isAbort_cases e) as (Hab1 & Hab2 & Hno1 & Hno2).
    exists e, (if isAbort e then timeoutError else e), w'.
    split; [exact He |]. split; [exact Hrun |]. split; [reflexivity |].
    split; [exact Hf |]. split; [exact Hs |].
    split; [intros msg H; rewrite (Hab1 msg H); reflexivity |].
    split; [intros v H Hn; rewrite (Hab2 v H Hn); reflexivity |].
    split.
    { intros Hlate. unfold settle in He.
      replace (timeoutMs <? Z.max 0 (latency env (fetches w + Z.to_nat retries)))
        with true in He by (symmetry; apply Z.ltb_lt; lia).
      cbn [fst] in He. injection He as <-. reflexivity. }
    split; [intros name msg H Hn; rewrite (Hno1 name msg H Hn); reflexivity |].
    intros v H Hn. rewrite (Hno2 v H Hn). reflexivity.
Qed.

Lemma safeFetch_errors_exhausted_witness :
  fst (safeFetch envStalled "https://x.com/api/status" DEFAULT_TIMEOUT_MS 2 800 world0)
    = Some (CatchThrow (ThrownError "Error" "Tempo limite atingido. Tente novamente.")) /\
  fst (safeFetch envOffline "https://x.com/api/status" DEFAULT_TIMEOUT_MS 2 800 world0)
    = Some (CatchThrow (ThrownError "TypeError" "Failed to fetch")) /\
  fst (safeFetch envAbortObject "https://x.com/api/status" DEFAULT_TIMEOUT_MS 2 800 world0)
    = Some (CatchThrow (ThrownError "Error" "Tempo limite atingido. Tente novamente.")).
Proof.
  destruct (safeFetch_errors_exhausted envStalled "https://x.com/api/status"
              DEFAULT_TIMEOUT_MS 2 800 world0)
    as (e1 & t1 & w1 & _ & Hrun1 & _ & _ & _ & _ & _ & Hlate & _);
    [lia | intros k _; exists abortError; reflexivity |].
  destruct (safeFetch_errors_exhausted envOffline "https://x.com/api/status"
              DEFAULT_TIMEOUT_MS 2 800 world0)
    as (e2 & t2 & w2 & He2 & Hrun2 & _ & _ & _ & _ & _ & _ & Hother & _);
    [lia
    | intros k _; exists (ThrownError "TypeError" "Failed to fetch"); reflexivity |].
  destruct (safeFetch_errors_exhausted envAbortObject "https://x.com/api/status"
              DEFAULT_TIMEOUT_MS 2 800 world0)
    as (e3 & t3 & w3 & He3 & Hrun3 & _ & _ & _ & _ & Hobj & _);
    [lia
    | intros k _; exists (ThrownOther (JObj [("name", JStr "AbortError")]));
      reflexivity |].
  split.
  { rewrite Hrun1. cbn [fst]. rewrite Hlate; [reflexivity | vm_compute; reflexivity]. }
  split.
  { rewrite Hrun2. cbn [fst].
    rewrite (Hother "TypeError" "Failed to fetch");
      [| vm_compute in He2; injection He2 as <-; reflexivity | discriminate].
    vm_compute in He2. injection He2 as <-. reflexivity. }
  rewrite Hrun3. cbn [fst].
  rewrite (Hobj (JObj [("name", JStr "AbortError")]));
    [reflexivity | vm_compute in He3; injection He3 as <-; reflexivity | reflexivity].
Defined.

(** Requests that outlast the timeout end in the timeout error; a network
    failure ends in that failure. *)
Example runs_with_errors_exhausted :
  fst (safeFetch envStalled "https://x.com/api/status" DEFAULT_TIMEOUT_MS 2 800 world0)
    = Some (CatchThrow timeoutError) /\
  fst (safeFetch envOffline "https://x.com/api/status" DEFAULT_TIMEOUT_MS 2 800 world0)
    = Some (CatchThrow (ThrownError "TypeError" "Failed to fetch")).
Proof. vm_compute. split; reflexivity. Qed.


(** C8: a first response whose status is outside the retry set (a success
    such as 200 included) is returned as it is after that single attempt:
    no wait, no second [fetch]. *)
Theorem safeFetch_no_retry (env : Env) (url : string)
    (timeoutMs retries retryDelayBaseMs : Z) (w : World) (r : Response) :
  0 <= retries ->
  fst (settle env url timeoutMs (fetches w)) = Resolved r ->
  ~ In (status r) [429; 502; 503; 504] ->
  exists w',
    safeFetch env url timeoutMs retries retryDelayBaseMs w =
      (Some (ReturnResp r), w') /\
    observe (ReturnResp r) = Returns r /\
    fetches w' = S (fetches w) /\
    sleeps w' = sleeps w /\
    randoms w' = randoms w.
Proof.
  intros Hpos Hs Hout.
  eexists. unfold safeFetch, safeFetchFuel. split.
  - apply safeFetchLoop_return; [exact Hs | | lia].
    left. apply isRetryStatus_false. exact Hout.
  - repeat split.
Qed.

Lemma safeFetch_no_retry_witness :
  exists w',
    safeFetch env200 "https://x.com/api/status" DEFAULT_TIMEOUT_MS 2 800 world0 =
      (Some (ReturnResp (mkResponse 200 (Some (JObj [("success", JBool true)])))), w') /\
    observe (ReturnResp (mkResponse 200 (Some (JObj [("success", JBool true)])))) =
      Returns (mkResponse 200 (Some (JObj [("success", JBool true)]))) /\
    fetches w' = S (fetches world0) /\
    sleeps w' = sleeps world0 /\
    randoms w' = randoms world0.
Proof.
  apply (safeFetch_no_retry env200 "https://x.com/api/status"
           DEFAULT_TIMEOUT_MS 2 800 world0).
  - lia.
  - reflexivity.
  - cbn. intros H. repeat (destruct H as [H | H]; [discriminate H |]). exact H.
Defined.

(** A status outside the retry set is not a success either way: a 500 is
    handed back after one attempt as well. *)
Example run_no_retry_on_500 :
  safeFetch env500 "https://x.com/api/status" DEFAULT_TIMEOUT_MS 2 800 world0 =
  (Some (ReturnResp (mkResponse 500 None)),
   mkWorld 120 1 0 [] (initialStudio ∅)).
Proof. vm_compute. reflexivity. Qed.


(** With attempts left to make, the loop leaves through [return] or through
    the [catch] branch, after at least one [fetch]. *)
Lemma safeFetchLoop_never_falls_through (env : Env) (url : string)
    (timeoutMs retries retryDelayBaseMs : Z) (fuel : nat) :
  forall (attempt : Z) (w : World),
    attempt <= retries ->
    (Z.to_nat (retries - attempt) < fuel)%nat ->
    exists x w',
      safeFetchLoop env url timeoutMs retries retryDelayBaseMs fuel attempt w =
        (Some x, w') /\
      ((exists r, x = ReturnResp r) \/ (exists e, x = CatchThrow e)) /\
      (fetches w < fetches w')%nat.
Proof.
  induction fuel as [| fuel IH]; intros attempt w Hle Hfuel; [lia |].
  rewrite safeFetchLoop_unfold by assumption.
  set (w1 := afterFetch _ w).
  assert (Hrec : attempt < retries ->
    exists x w',
      safeFetchLoop env url timeoutMs retries retryDelayBaseMs fuel (attempt + 1)
        (afterBackoff env retryDelayBaseMs attempt w1) = (Some x, w') /\
      ((exists r, x = ReturnResp r) \/ (exists e, x = CatchThrow e)) /\
      (fetches w < fetches w')%nat).
  { intros Hlt.
    destruct (IH (attempt + 1) (afterBackoff env retryDelayBaseMs attempt w1))
      as (x & w' & Hrun & Hx & Hf); [lia | lia |].
    exists x, w'. rewrite afterBackoff_fetches in Hf. cbn in Hf.
    repeat split; [exact Hrun | exact Hx | lia]. }
  destruct (fst (settle env url timeoutMs (fetches w))) as [resp | err].
  - destruct (isRetryStatus (status resp) && (attempt <? retries)) eqn:Hc.
    + apply andb_true_iff in Hc as [_ Hlt]. apply Z.ltb_lt in Hlt. auto.
    + eexists _, _. split; [reflexivity |]. split; [left; eauto | cbn; lia].
  - destruct (attempt <? retries) eqn:Hc.
    + apply Z.ltb_lt in Hc. auto.
    + eexists _, _. split; [reflexivity |]. split; [right; eauto | cbn; lia].
Qed.

(** C10: for [retries >= 0] the [throw] after the loop is never reached:
    the body runs at least once and the call ends by returning a response
    or by throwing from the [catch] branch. *)
Theorem safeFetch_fallthrough_unreachable (env : Env) (url : string)
    (timeoutMs retries retryDelayBaseMs : Z) (w : World) :
  0 <= retries ->
  exists x w',
    safeFetch env url timeoutMs retries retryDelayBaseMs w = (Some x, w') /\
    x <> FallThrough /\
    ((exists r, x = ReturnResp r) \/ (exists e, x = CatchThrow e)) /\
    (fetches w < fetches w')%nat.
Proof.
  intros Hpos.
  destruct (safeFetchLoop_never_falls_through env url timeoutMs retries
              retryDelayBaseMs (safeFetchFuel retries) 0 w)
    as (x & w' & Hrun & Hx & Hf).
  - lia.
  - unfold safeFetchFuel. lia.
  - exists x, w'. repeat split; try assumption.
    destruct Hx as [[r ->] | [e ->]]; discriminate.
Qed.

Lemma safeFetch_fallthrough_unreachable_witness :
  exists x w',
    safeFetch envOffline "https://x.com/api/status" DEFAULT_TIMEOUT_MS 0 800 world0 =
      (Some x, w') /\
    x <> FallThrough /\
    ((exists r, x = ReturnResp r) \/ (exists e, x = CatchThrow e)) /\
    (fetches world0 < fetches w')%nat.
Proof.
  apply (safeFetch_fallthrough_unreachable envOffline "https://x.com/api/status"
           DEFAULT_TIMEOUT_MS 0 800 world0).
  lia.
Defined.


(** The post-loop [throw] is what a negative retry count runs into. *)
Lemma safeFetch_negative_retries (env : Env) (url : string)
    (timeoutMs retries retryDelayBaseMs : Z) (w : World) :
  retries < 0 ->
  safeFetch env url timeoutMs retries retryDelayBaseMs w = (Some FallThrough, w).
Proof.
  intros Hneg. unfold safeFetch, safeFetchFuel.
  apply safeFetchLoop_exhausted. lia.
Qed.

Lemma backoffBase_monotone (base m n : Z) :
  0 <= base -> 0 <= m <= n -> backoffBase base m <= backoffBase base n.
Proof.
  intros Hb Hmn. unfold backoffBase.
  apply Z.mul_le_mono_nonneg_l; [exact Hb |].
  apply Z.pow_le_mono_r; lia.
Qed.

(** C6: the wait computed after attempt [n] is [base * 2^n] plus a jitter
    from 0 to 249; for a base delay that is not negative, the wait without
    its jitter is at least [base] and does not decrease as [n] grows. *)
Theorem retryWait_backoff (env : Env) (retryDelayBaseMs n : Z) (w : World) :
  0 <= n ->
  exists j,
    fst (retryWait env retryDelayBaseMs n w) = retryDelayBaseMs * 2 ^ n + j /\
    0 <= j < 250 /\
    (0 <= retryDelayBaseMs ->
       retryDelayBaseMs <= backoffBase retryDelayBaseMs n /\
       backoffBase retryDelayBaseMs n <= backoffBase retryDelayBaseMs (n + 1) /\
       (forall m, 0 <= m <= n ->
          backoffBase retryDelayBaseMs m <= backoffBase retryDelayBaseMs n)).
Proof.
  intros Hn.
  exists (jitterOf (randomBits env (randoms w))).
  split; [reflexivity |].
  split; [apply jitterOf_range |].
  intros Hb. split.
  - replace retryDelayBaseMs with (backoffBase retryDelayBaseMs 0) at 1
      by (unfold backoffBase; lia).
    apply backoffBase_monotone; lia.
  - split.
    + apply backoffBase_monotone; lia.
    + intros m Hm. apply backoffBase_monotone; lia.
Qed.

Lemma retryWait_backoff_witness :
  exists j,
    fst (retryWait env503 800 1 world0) = 800 * 2 ^ 1 + j /\
    0 <= j < 250 /\
    800 <= backoffBase 800 1 /\
    backoffBase 800 1 <= backoffBase 800 (1 + 1) /\
    backoffBase 800 0 <= backoffBase 800 1.
Proof.
  destruct (retryWait_backoff env503 800 1 world0) as (j & Hwait & Hj & Hbase);
    [lia |].
  destruct Hbase as (Hmin & Hnext & Hmono); [lia |].
  exists j. split; [exact Hwait |]. split; [exact Hj |].
  split; [exact Hmin |]. split; [exact Hnext |].
  apply Hmono. lia.
Defined.


(** ** Job polling loop *)

Section Polling.

Variable env : Env.
Variables API_BASE_URL jobId : string.
Variable started : Z.

Local Abbreviation iteration := (pollIteration env API_BASE_URL jobId started).
Local Abbreviation request := (statusRequest env API_BASE_URL jobId).
Local Abbreviation justified := (exitJustified env API_BASE_URL jobId started).

(** What follows the parsed body takes no time and leaves for a reason
    the body gives. *)
Lemma applyStatus_cases (data : JsValue) (w : World) :
  exists s w',
    applyStatus env data w = (s, w') /\ now w' = now w /\ fetches w' = fetches w /\
    match s with
    | KeepPolling => True
    | Leave PollCompleted =>
        field data "status" = JStr "completed" /\
        truthy (field data "video_url") = true /\
        videoPreview (studio w') = field data "video_url"
    | Leave (PollJobFailed m) =>
        field data "status" = JStr "failed" /\
        m = (if truthy (field data "error")
             then jsMessage env (field data "error")
             else "Falha na renderização")
    | Leave _ => False
    end.
Proof.
  unfold applyStatus. unfold bind at 1.
  set (progressed :=
         (if truthy (field data "progress")
          then setState (setGenerationProgress
                 (Z.min 95 (default 0 (jsNumber env (field data "progress")))))
          else ret tt) w).
  assert (Hp : now (snd progressed) = now w /\ fetches (snd progressed) = fetches w).
  { subst progressed. destruct (truthy (field data "progress")); split; reflexivity. }
  destruct progressed as [[] wp]. cbn [snd] in Hp. destruct Hp as [Hp Hq].
  destruct (field data "status") as [| | | | st | |] eqn:Hst;
    try (eexists _, _; split; [reflexivity |]; split; [exact Hp |];
         split; [exact Hq | exact I]).
  destruct (String.eqb st "completed" && truthy (field data "video_url")) eqn:Hc.
  - apply andb_true_iff in Hc as [Hs Hv]. apply String.eqb_eq in Hs. subst st.
    eexists _, _. split; [reflexivity |]. split; [exact Hp |].
    split; [exact Hq |]. repeat split; auto.
  - destruct (String.eqb st "failed") eqn:Hf.
    + apply String.eqb_eq in Hf. subst st.
      eexists _, _. split; [reflexivity |]. split; [exact Hp |].
      split; [exact Hq |]. repeat split; auto.
    + eexists _, _. split; [reflexivity |]. split; [exact Hp |].
      split; [exact Hq | exact I].
Qed.

(** [handleStatus] with its binds unfolded. *)
Lemma handleStatus_unfold (resp : Response) (w : World) :
  handleStatus env resp w =
    if negb (ok resp) then (Some KeepPolling, w)
    else
      match bodyTime env (pred (fetches w)) with
      | None => (None, w)
      | Some d =>
          match body resp with
          | None => (Some (Leave PollBodyThrew), afterWait d w)
          | Some data =>
              (Some (fst (applyStatus env data (afterWait d w))),
               snd (applyStatus env data (afterWait d w)))
          end
      end.
Proof.
  unfold handleStatus. destruct (negb (ok resp)); [reflexivity |].
  unfold bind at 1, readJson.
  destruct (bodyTime env (pred (fetches w))) as [d |]; [| reflexivity].
  destruct (body resp) as [data |]; [| reflexivity].
  unfold bind. destruct (applyStatus env data (afterWait d w)). reflexivity.
Qed.

(** What handling a returned status response can lead to. *)
Lemma handleStatus_cases (resp : Response) (w : World) :
  exists r w',
    handleStatus env resp w = (r, w') /\ now w <= now w' /\
    fetches w' = fetches w /\
    match r with
    | None => ok resp = true /\ bodyTime env (pred (fetches w)) = None /\ w' = w
    | Some KeepPolling => True
    | Some (Leave PollCompleted) =>
        exists data, ok resp = true /\ body resp = Some data /\
          field data "status" = JStr "completed" /\
          truthy (field data "video_url") = true /\
          videoPreview (studio w') = field data "video_url"
    | Some (Leave (PollJobFailed m)) =>
        exists data, ok resp = true /\ body resp = Some data /\
          field data "status" = JStr "failed" /\
          m = (if truthy (field data "error")
               then jsMessage env (field data "error")
               else "Falha na renderização")
    | Some (Leave PollBodyThrew) => ok resp = true /\ body resp = None
    | Some (Leave _) => False
    end.
Proof.
  rewrite handleStatus_unfold.
  destruct (ok resp) eqn:Hok; cbn [negb].
  2:{ eexists _, _. split; [reflexivity |]. split; [lia |]. split; [reflexivity | exact I]. }
  destruct (bodyTime env (pred (fetches w))) as [d |] eqn:Hd.
  2:{ eexists _, _. split; [reflexivity |]. split; [lia |]. split; [reflexivity | auto]. }
  assert (Hw : now w <= now (afterWait d w)) by (cbn; lia).
  destruct (body resp) as [data |] eqn:Hbody.
  2:{ eexists _, _. split; [reflexivity |]. split; [exact Hw |].
      split; [reflexivity | auto]. }
  destruct (applyStatus_cases data (afterWait d w)) as (s & w' & Ha & Hn & Hf & Hs).
  rewrite Ha. cbn [fst snd]. exists (Some s), w'.
  split; [reflexivity |]. split; [lia |]. split; [exact Hf |].
  destruct s as [| x]; [exact I |].
  destruct x as [| | m | e |]; try contradiction.
  - destruct Hs as (? & ? & ?). exists data. repeat split; assumption.
  - destruct Hs as (? & ?). exists data. repeat split; assumption.
Qed.

(** A response that is not [ok] is skipped. *)
Lemma handleStatus_not_ok (resp : Response) (w : World) :
  ok resp = false -> handleStatus env resp w = (Some KeepPolling, w).
Proof. intros H. unfold handleStatus. rewrite H. reflexivity. Qed.

(** The loop body with its binds unfolded. *)
Lemma pollIteration_unfold (w : World) :
  iteration w =
    if POLL_CEILING_MS <? now w - started then (Some (Leave PollCeiling), w)
    else
      match request (snd (sleep POLL_INTERVAL_MS w)) with
      | (Some (ReturnResp statusResp), w2) => handleStatus env statusResp w2
      | (Some (CatchThrow e), w2) => (Some (Leave (PollRequestThrew e)), w2)
      | (Some FallThrough, w2) =>
          (Some (Leave (PollRequestThrew unexpectedError)), w2)
      | (None, w2) => (None, w2)
      end.
Proof.
  unfold pollIteration, statusRequest. cbv beta delta [bind dateNow] iota.
  destruct (POLL_CEILING_MS <? now w - started); [reflexivity |].
  cbn [sleep snd].
  destruct (safeFetch _ _ _ _ _ _) as [[[resp | e |] |] w2]; reflexivity.
Qed.

(** One pass: past the ceiling it throws; otherwise it waits, issues the
    status request and either leaves for a stated reason, goes round again
    at least 1500 ms later, or stays suspended on the body of the
    response. *)
Lemma pollIteration_cases (w : World) :
  (POLL_CEILING_MS < now w - started /\
   iteration w = (Some (Leave PollCeiling), w)) \/
  (now w - started <= POLL_CEILING_MS /\
   exists r w',
     iteration w = (r, w') /\
     now w + POLL_INTERVAL_MS <= now w' /\
     match r with
     | None => awaitsBody env API_BASE_URL jobId w'
     | Some KeepPolling => True
     | Some (Leave x) => x <> PollCeiling /\ justified x w'
     end).
Proof.
  rewrite pollIteration_unfold.
  destruct (POLL_CEILING_MS <? now w - started) eqn:Hc.
  - left. apply Z.ltb_lt in Hc. split; [exact Hc | reflexivity].
  - right. apply Z.ltb_ge in Hc. split; [exact Hc |].
    set (w1 := snd (sleep POLL_INTERVAL_MS w)).
    assert (Hw1 : now w1 = now w + POLL_INTERVAL_MS) by reflexivity.
    destruct (safeFetch_total env (statusUrl env API_BASE_URL jobId)
                DEFAULT_TIMEOUT_MS 1 DEFAULT_RETRY_DELAY_BASE_MS w1)
      as (x1 & w2 & Hrun & Hnow & _ & _).
    fold (statusRequest env API_BASE_URL jobId) in Hrun.
    rewrite Hrun.
    destruct x1 as [resp | e |].
    + destruct (handleStatus_cases resp w2) as (r & w3 & Hh & Hn3 & Hf3 & Hs).
      rewrite Hh. exists r, w3.
      split; [reflexivity |]. split; [lia |].
      destruct r as [s |].
      * destruct s as [| x]; [exact I |].
        destruct x as [| | m | e |]; try contradiction.
        -- split; [discriminate |].
           destruct Hs as (data & ? & ? & ? & ? & ?).
           exists w1, w2, resp, data. repeat split; assumption.
        -- split; [discriminate |].
           destruct Hs as (data & ? & ? & ? & ?).
           exists w1, w2, resp, data. repeat split; assumption.
        -- split; [discriminate |].
           destruct Hs as [? ?].
           exists w1, w2, resp. repeat split; assumption.
      * destruct Hs as (Hok & Hbody & ->).
        exists w1, resp. repeat split; assumption.
    + eexists _, _. split; [reflexivity |]. split; [lia |].
      split; [discriminate |].
      exists w1, (CatchThrow e), w2. split; [exact Hrun | reflexivity].
    + eexists _, _. split; [reflexivity |]. split; [lia |].
      split; [discriminate |].
      exists w1, FallThrough, w2. split; [exact Hrun | reflexivity].
Qed.

(** With fuel for the time left until the ceiling, the loop either ends,
    and for a stated reason, or is suspended on a body that never
    arrives: the fuel does not run out. *)
Lemma pollLoop_outcome (fuel : nat) :
  forall w : World,
    (0 < fuel)%nat ->
    POLL_CEILING_MS - (now w - started) < POLL_INTERVAL_MS * (Z.of_nat fuel - 1) ->
    exists r w',
      pollLoop env API_BASE_URL jobId started fuel w = (r, w') /\
      match r with
      | Some x => justified x w'
      | None => awaitsBody env API_BASE_URL jobId w'
      end.
Proof.
  induction fuel as [| fuel IH]; intros w Hpos Hfuel; [lia |].
  cbn [pollLoop]. unfold bind at 1.
  destruct (pollIteration_cases w) as [[Hc Hit] | [Hc (r & w' & Hit & Hnow & Hs)]].
  - rewrite Hit. exists (Some PollCeiling), w. split; [reflexivity | exact Hc].
  - rewrite Hit. destruct r as [[| x] |].
    + unfold POLL_INTERVAL_MS in *. apply IH; lia.
    + exists (Some x), w'. split; [reflexivity | apply Hs].
    + exists None, w'. split; [reflexivity | exact Hs].
Qed.

(** When every body arrives the loop ends. *)
Lemma pollLoop_ends (fuel : nat) (w : World) :
  (forall k, bodyTime env k <> None) ->
  (0 < fuel)%nat ->
  POLL_CEILING_MS - (now w - started) < POLL_INTERVAL_MS * (Z.of_nat fuel - 1) ->
  exists x w',
    pollLoop env API_BASE_URL jobId started fuel w = (Some x, w') /\
    justified x w'.
Proof.
  intros Hbodies Hpos Hfuel.
  destruct (pollLoop_outcome fuel w Hpos Hfuel) as (r & w' & Hrun & Hr).
  destruct r as [x |].
  - exists x, w'. split; assumption.
  - destruct Hr as (w1 & resp & _ & _ & Hnone).
    exfalso. exact (Hbodies _ Hnone).
Qed.

(** Whatever the fuel, a loop that ends has ended for a stated reason. *)
Lemma pollLoop_exit_justified (fuel : nat) :
  forall (w : World) (x : PollExit) (w' : World),
    pollLoop env API_BASE_URL jobId started fuel w = (Some x, w') ->
    justified x w'.
Proof.
  induction fuel as [| fuel IH]; intros w x w' Hrun; [discriminate |].
  cbn [pollLoop] in Hrun. unfold bind at 1 in Hrun.
  destruct (pollIteration_cases w) as [[Hc Hit] | [Hc (r & w1 & Hit & Hnow & Hs)]];
    rewrite Hit in Hrun.
  - injection Hrun as <- <-. exact Hc.
  - destruct r as [[| y] |].
    + eapply IH. exact Hrun.
    + injection Hrun as <- <-. apply Hs.
    + discriminate Hrun.
Qed.

(** A status request that returns a response that is not [ok] costs one
    pass and nothing else. *)
Lemma pollLoop_skips_not_ok (fuel : nat) (w : World) (resp : Response) (w1 : World) :
  now w - started <= POLL_CEILING_MS ->
  request (snd (sleep POLL_INTERVAL_MS w)) = (Some (ReturnResp resp), w1) ->
  ok resp = false ->
  pollLoop env API_BASE_URL jobId started (S fuel) w =
  pollLoop env API_BASE_URL jobId started fuel w1.
Proof.
  intros Hc Hreq Hok. cbn [pollLoop]. unfold bind at 1.
  rewrite pollIteration_unfold.
  replace (POLL_CEILING_MS <? now w - started) with false
    by (symmetry; apply Z.ltb_ge; exact Hc).
  rewrite Hreq. rewrite handleStatus_not_ok by exact Hok. reflexivity.
Qed.

(** A status request that throws ends the loop at once with that error. *)
Lemma pollLoop_request_throws (fuel : nat) (w : World) (e : Thrown) (w1 : World) :
  now w - started <= POLL_CEILING_MS ->
  request (snd (sleep POLL_INTERVAL_MS w)) = (Some (CatchThrow e), w1) ->
  pollLoop env API_BASE_URL jobId started (S fuel) w =
  (Some (PollRequestThrew e), w1).
Proof.
  intros Hc Hreq. cbn [pollLoop]. unfold bind at 1.
  rewrite pollIteration_unfold.
  replace (POLL_CEILING_MS <? now w - started) with false
    by (symmetry; apply Z.ltb_ge; exact Hc).
  rewrite Hreq. reflexivity.
Qed.

End Polling.

(** C3, as the code has it: a status check answered with a response that is
    not [ok] does not end the loop, which goes on polling.  A run of the
    loop either ends or stays suspended on a status body that never
    arrives (the ceiling is only tested between passes and does not end
    such a run).  When it ends, it ends with the timeout error only once
    more than 20 minutes have passed, and otherwise only on a completed
    status with a video reference, on a failed status, or because the
    status request itself threw (its own retry exhausted) or its body
    could not be parsed.  It does end whenever every body arrives. *)
Theorem polling_loop_exits (env : Env) (API_BASE_URL jobId : string) (w : World) :
  (forall (started : Z) (fuel : nat) (w0 : World) (resp : Response) (w1 : World),
     now w0 - started <= POLL_CEILING_MS ->
     statusRequest env API_BASE_URL jobId (snd (sleep POLL_INTERVAL_MS w0)) =
       (Some (ReturnResp resp), w1) ->
     ok resp = false ->
     pollLoop env API_BASE_URL jobId started (S fuel) w0 =
     pollLoop env API_BASE_URL jobId started fuel w1) /\
  (exists r w',
     pollJob env API_BASE_URL jobId w = (r, w') /\
     match r with
     | Some x => exitJustified env API_BASE_URL jobId (now w) x w'
     | None => awaitsBody env API_BASE_URL jobId w'
     end) /\
  ((forall k, bodyTime env k <> None) ->
   exists x w',
     pollJob env API_BASE_URL jobId w = (Some x, w') /\
     exitJustified env API_BASE_URL jobId (now w) x w').
Proof.
  split; [| split].
  - intros started fuel w0 resp w1. apply pollLoop_skips_not_ok.
  - unfold pollJob, bind, dateNow.
    apply pollLoop_outcome; unfold POLL_FUEL, POLL_CEILING_MS, POLL_INTERVAL_MS; lia.
  - intros Hbodies. unfold pollJob, bind, dateNow.
    apply pollLoop_ends;
      [exact Hbodies | unfold POLL_FUEL; lia
      | unfold POLL_FUEL, POLL_CEILING_MS, POLL_INTERVAL_MS; lia].
Qed.

Lemma polling_loop_exits_witness :
  pollLoop env500 "https://x.com/api" "job-1" 0 2 world0 =
  pollLoop env500 "https://x.com/api" "job-1" 0 1
    (snd (statusRequest env500 "https://x.com/api" "job-1"
            (snd (sleep POLL_INTERVAL_MS world0)))) /\
  (exists x w',
     pollJob env500 "https://x.com/api" "job-1" world0 = (Some x, w') /\
     exitJustified env500 "https://x.com/api" "job-1" (now world0) x w').
Proof.
  destruct (polling_loop_exits env500 "https://x.com/api" "job-1" world0)
    as (Hskip & _ & Hend).
  split.
  - apply (Hskip 0 1%nat world0 (mkResponse 500 None)).
    + vm_compute. discriminate.
    + vm_compute. reflexivity.
    + reflexivity.
  - apply Hend. intros k. discriminate.
Defined.

(** C3 as stated fails: with the network down, the status request of the
    first pass throws once its single retry is used up, and the loop ends
    there, two seconds or so in, neither on the ceiling nor on a terminal
    status. *)
Lemma polling_aborts_when_request_throws :
  exists w',
    pollJob envOffline "https://x.com/api" "job-1" world0 =
      (Some (PollRequestThrew (ThrownError "TypeError" "Failed to fetch")), w') /\
    fetches w' = 2%nat /\
    now w' - now world0 <= POLL_CEILING_MS /\
    pollThrown (PollRequestThrew (ThrownError "TypeError" "Failed to fetch"))
      <> Some ceilingError.
Proof.
  eexists. split; [vm_compute; reflexivity |].
  split; [reflexivity |].
  split; [vm_compute; discriminate | discriminate].
Qed.

(** Nor does the ceiling force an end: when the status endpoint sends its
    headers and never the body, the first pass stays suspended on the
    read, 1620 ms in, and no later test of the ceiling is reached. *)
Example polling_suspended_on_body :
  pollJob envBodyStalls "https://x.com/api" "job-1" world0 =
    (None, mkWorld 1620 1 0 [1500] (initialStudio ∅)) /\
  awaitsBody envBodyStalls "https://x.com/api" "job-1"
    (mkWorld 1620 1 0 [1500] (initialStudio ∅)).
Proof.
  split; [vm_compute; reflexivity |].
  exists (snd (sleep POLL_INTERVAL_MS world0)), (mkResponse 200
    (Some (JObj [("status", JStr "pending"); ("progress", JNum 40)]))).
  split; [vm_compute; reflexivity |]. split; reflexivity.
Qed.

(** A job completed at the third status check: three checks, the reported
    progress of 100 capped at 95, the preview set. *)
Example polling_completes_on_third_check :
  pollJob envThirdPoll "https://x.com/api" "job-1" world0 =
  (Some PollCompleted,
   mkWorld 4860 3 0 [1500; 1500; 1500]
     (mkStudio 1 (replicate 6 (JBool false)) 95 [] (JStr "/media/video/v.mp4") ∅)).
Proof. vm_compute. reflexivity. Qed.

(** One failed connection is absorbed by the retry of [safeFetch]. *)
Example polling_survives_one_failed_fetch :
  fst (pollJob envFlaky "https://x.com/api" "job-1" world0) = Some PollCompleted /\
  fetches (snd (pollJob envFlaky "https://x.com/api" "job-1" world0)) = 2%nat.
Proof. vm_compute. split; reflexivity. Qed.

(** A status endpoint that only ever answers 500 is polled until the
    ceiling: 741 checks of 1620 ms each, then the timeout error. *)
Example polling_times_out :
  fst (pollJob env500 "https://x.com/api" "job-1" world0) = Some PollCeiling /\
  fetches (snd (pollJob env500 "https://x.com/api" "job-1" world0)) = 741%nat /\
  now (snd (pollJob env500 "https://x.com/api" "job-1" world0)) = 1200420.
Proof. vm_compute. repeat split; reflexivity. Qed.

(** ** Wizard *)

Lemma arrayGet_arraySet_same (a : list JsValue) (i : Z) (v : JsValue) :
  0 <= i -> arrayGet (arraySet a i v) i = v.
Proof.
  intros Hi. unfold arrayGet, arraySet.
  replace (i <? 0) with false by (symmetry; apply Z.ltb_ge; exact Hi).
  destruct (Z.to_nat i <? length a)%nat eqn:Hlt.
  - apply Nat.ltb_lt in Hlt.
    rewrite list_lookup_insert_eq by exact Hlt. reflexivity.
  - apply Nat.ltb_ge in Hlt.
    rewrite lookup_app_r by exact Hlt.
    rewrite lookup_app_r by (rewrite length_replicate; lia).
    rewrite length_replicate.
    replace (Z.to_nat i - length a - (Z.to_nat i - length a))%nat with 0%nat by lia.
    reflexivity.
Qed.

Lemma arrayGet_arraySet_other (a : list JsValue) (i j : Z) (v : JsValue) :
  i <> j -> arrayGet (arraySet a i v) j = arrayGet a j.
Proof.
  intros Hij. unfold arrayGet, arraySet.
  destruct (j <? 0) eqn:Hj; [reflexivity |].
  destruct (i <? 0) eqn:Hi; [reflexivity |].
  apply Z.ltb_ge in Hj, Hi.
  assert (Hn : Z.to_nat i <> Z.to_nat j) by lia.
  destruct (Z.to_nat i <? length a)%nat eqn:Hlt.
  - rewrite list_lookup_insert_ne by exact Hn. reflexivity.
  - apply Nat.ltb_ge in Hlt.
    destruct (Nat.lt_ge_cases (Z.to_nat j) (length a)) as [Hin | Hout].
    + rewrite lookup_app_l by exact Hin. reflexivity.
    + rewrite (lookup_ge_None_2 a) by exact Hout.
      rewrite lookup_app_r by exact Hout.
      destruct (Nat.lt_ge_cases (Z.to_nat j - length a) (Z.to_nat i - length a))
        as [Hhole | Hpast].
      * rewrite lookup_app_l by (rewrite length_replicate; exact Hhole).
        rewrite lookup_replicate_2 by exact Hhole. reflexivity.
      * rewrite lookup_app_r by (rewrite length_replicate; exact Hpast).
        rewrite length_replicate.
        rewrite lookup_ge_None_2 by (cbn; lia). reflexivity.
Qed.

(** C7: navigating to stage [M] sets the current stage to [M] exactly when
    [M] is 1 or the flag of stage [M - 1] (index [M - 2]) holds; in every
    other case the state is returned untouched.  Nothing but the current
    stage is ever changed. *)
Theorem goToStep_gated (M : Z) (st : Studio) :
  (isStepAccessible M st = true <->
     M = 1 \/ truthy (arrayGet (stepCompleted st) (M - 2)) = true) /\
  (forall b, arrayGet (stepCompleted st) (M - 2) = JBool b ->
     (isStepAccessible M st = true <-> M = 1 \/ b = true)) /\
  (isStepAccessible M st = true -> goToStep M st = setCurrentStep M st) /\
  (isStepAccessible M st = false -> goToStep M st = st) /\
  (currentStep (goToStep M st) <> currentStep st ->
     M = 1 \/ truthy (arrayGet (stepCompleted st) (M - 2)) = true) /\
  stepCompleted (goToStep M st) = stepCompleted st /\
  contentSettings (goToStep M st) = contentSettings st.
Proof.
  assert (Hacc : isStepAccessible M st = true <->
            M = 1 \/ truthy (arrayGet (stepCompleted st) (M - 2)) = true).
  { unfold isStepAccessible. rewrite orb_true_iff, Z.eqb_eq. reflexivity. }
  assert (Hgo : goToStep M st =
            if isStepAccessible M st then setCurrentStep M st else st)
    by reflexivity.
  split; [exact Hacc |].
  split; [intros b Hb; rewrite Hacc, Hb; reflexivity |].
  split; [intros H; rewrite Hgo, H; reflexivity |].
  split; [intros H; rewrite Hgo, H; reflexivity |].
  split.
  - intros Hchg. apply Hacc.
    destruct (isStepAccessible M st) eqn:H; [reflexivity |].
    rewrite Hgo in Hchg. contradiction.
  - rewrite Hgo. destruct (isStepAccessible M st); split; reflexivity.
Qed.

(** Jumping to stage 3 while stage 2 is incomplete leaves the wizard where
    it is. *)
Lemma goToStep_gated_witness :
  (isStepAccessible 3 (initialStudio ∅) = true <->
     3 = 1 \/ truthy (arrayGet (stepCompleted (initialStudio ∅)) (3 - 2)) = true) /\
  (isStepAccessible 3 (initialStudio ∅) = true <-> 3 = 1 \/ false = true) /\
  goToStep 1 (initialStudio ∅) = setCurrentStep 1 (initialStudio ∅) /\
  goToStep 3 (initialStudio ∅) = initialStudio ∅ /\
  (1 = 1 \/ truthy (arrayGet (stepCompleted studioAtAudio) (1 - 2)) = true).
Proof.
  destruct (goToStep_gated 3 (initialStudio ∅)) as (H1 & H2 & _ & H4 & _).
  destruct (goToStep_gated 1 (initialStudio ∅)) as (_ & _ & H3 & _).
  destruct (goToStep_gated 1 studioAtAudio) as (_ & _ & _ & _ & H5 & _).
  split; [exact H1 |].
  split; [apply (H2 false); reflexivity |].
  split; [apply H3; reflexivity |].
  split; [apply H4; reflexivity |].
  apply H5. vm_compute. discriminate.
Defined.

Lemma scriptIsMeaningful_true (v : JsValue) :
  scriptIsMeaningful v = Some true ->
  exists s, v = JStr s /\ s <> "" /\ 50 < Z.of_nat (String.length (trim s)).
Proof.
  destruct v as [| | b | n | s | l | fs]; cbn; try discriminate.
  - destruct b; discriminate.
  - destruct (negb (n =? 0)); discriminate.
  - intros H. injection H as H. apply andb_true_iff in H as [Hne Hlen].
    exists s. split; [reflexivity |]. split.
    + intros ->. discriminate Hne.
    + apply Z.ltb_lt. exact Hlen.
Qed.

(** What [completeStep] does, whatever the configuration. *)
Lemma completeStep_effect (N : Z) (st : Studio) :
  1 <= N ->
  arrayGet (stepCompleted (completeStep N st)) (N - 1) = JBool true /\
  (forall j, j <> N - 1 ->
     arrayGet (stepCompleted (completeStep N st)) j = arrayGet (stepCompleted st) j) /\
  (N < 6 -> currentStep (completeStep N st) = N + 1) /\
  (6 <= N -> currentStep (completeStep N st) = currentStep st) /\
  contentSettings (completeStep N st) = contentSettings st.
Proof.
  intros HN. unfold completeStep.
  destruct (N <? 6) eqn:H6; cbn [setCurrentStep setStepCompleted stepCompleted
                                  currentStep contentSettings].
  - apply Z.ltb_lt in H6.
    split; [apply arrayGet_arraySet_same; lia |].
    split; [intros j Hj; apply arrayGet_arraySet_other; lia |].
    split; [reflexivity |]. split; [lia | reflexivity].
  - apply Z.ltb_ge in H6.
    split; [apply arrayGet_arraySet_same; lia |].
    split; [intros j Hj; apply arrayGet_arraySet_other; lia |].
    split; [lia |]. split; reflexivity.
Qed.

(** C4, as the code has it: the "advance" control completes the current
    stage only when the predicate of that stage holds on the current
    configuration (stage 1: a script whose trimmed length exceeds 50;
    stage 2: a script and a generated audio file; stage 5: at least one
    target platform), and does nothing otherwise.  [completeStep(N)] then
    sets flag [N - 1], leaves the other flags and the configuration alone,
    and moves the current stage to [N + 1] unless [N] is the last stage. *)
Theorem advanceClick_completes_stage (st : Studio) :
  (advanceClick st <> st ->
     currentStep st < 6 /\ canCompleteCurrentStep st = Some true) /\
  (canCompleteCurrentStep st <> Some true -> advanceClick st = st) /\
  (currentStep st < 6 -> canCompleteCurrentStep st = Some true ->
     advanceClick st = completeStep (currentStep st) st) /\
  (canCompleteCurrentStep st = Some true ->
     (currentStep st = 1 ->
        exists s, prop (contentSettings st) "script" = JStr s /\ s <> "" /\
                  50 < Z.of_nat (String.length (trim s))) /\
     (currentStep st = 2 ->
        truthy (prop (contentSettings st) "script") = true /\
        truthy (prop (contentSettings st) "audio_file") = true) /\
     (currentStep st = 5 ->
        nonEmpty (prop (contentSettings st) "target_platforms") = true)) /\
  (forall N, 1 <= N ->
     arrayGet (stepCompleted (completeStep N st)) (N - 1) = JBool true /\
     (forall j, j <> N - 1 ->
        arrayGet (stepCompleted (completeStep N st)) j =
        arrayGet (stepCompleted st) j) /\
     (N < 6 -> currentStep (completeStep N st) = N + 1) /\
     (6 <= N -> currentStep (completeStep N st) = currentStep st) /\
     contentSettings (completeStep N st) = contentSettings st).
Proof.
  split.
  { intros Hchg. unfold advanceClick in Hchg.
    destruct (currentStep st <? 6) eqn:H6; [| contradiction].
    apply Z.ltb_lt in H6. split; [exact H6 |].
    destruct (canCompleteCurrentStep st) as [[|] |]; [reflexivity | |]; contradiction. }
  split.
  { intros Hno. unfold advanceClick.
    destruct (currentStep st <? 6); [| reflexivity].
    destruct (canCompleteCurrentStep st) as [[|] |]; [contradiction | |]; reflexivity. }
  split.
  { intros H6 Hcan. unfold advanceClick.
    apply Z.ltb_lt in H6. rewrite H6, Hcan. reflexivity. }
  split.
  { intros Hcan. unfold canCompleteCurrentStep in Hcan.
    split; [| split]; intros Hstep; rewrite Hstep in Hcan; cbn iota in Hcan.
    - apply scriptIsMeaningful_true. exact Hcan.
    - injection Hcan as Hcan. apply andb_true_iff. exact Hcan.
    - injection Hcan as Hcan. exact Hcan. }
  intros N HN. apply completeStep_effect. exact HN.
Qed.

Lemma advanceClick_completes_stage_witness :
  (currentStep studioWithScript < 6 /\
   canCompleteCurrentStep studioWithScript = Some true) /\
  advanceClick studioAtAudio = studioAtAudio /\
  advanceClick studioWithScript = completeStep 1 studioWithScript /\
  (exists s, prop (contentSettings studioWithScript) "script" = JStr s /\ s <> "" /\
             50 < Z.of_nat (String.length (trim s))) /\
  arrayGet (stepCompleted (completeStep 1 studioWithScript)) (1 - 1) = JBool true /\
  currentStep (completeStep 1 studioWithScript) = 1 + 1 /\
  currentStep (completeStep 6 studioWithScript) = currentStep studioWithScript.
Proof.
  destruct (advanceClick_completes_stage studioWithScript)
    as (H1 & _ & H3 & H4 & H5).
  destruct (advanceClick_completes_stage studioAtAudio) as (_ & H2 & _).
  split.
  { apply H1. intros Heq. apply (f_equal currentStep) in Heq.
    vm_compute in Heq. discriminate Heq. }
  split.
  { apply H2. vm_compute. discriminate. }
  split.
  { apply H3; [vm_compute | vm_compute]; reflexivity. }
  split.
  { apply H4; [vm_compute |]; reflexivity. }
  destruct (H5 1) as (Hflag & _ & Hnext & _); [lia |].
  destruct (H5 6) as (_ & _ & _ & Hlast & _); [lia |].
  split; [exact Hflag |].
  split; [apply Hnext; lia | apply Hlast; lia].
Defined.

(** C4 as stated fails: the audio step completes stage 2 through
    [onSelectComplete] while the stage predicate does not hold on the
    current configuration. *)
Lemma onSelectComplete_skips_predicate :
  currentStep studioAtAudio = 2 /\
  canCompleteCurrentStep studioAtAudio = Some false /\
  arrayGet (stepCompleted (onSelectComplete audioResult studioAtAudio)) 1 = JBool true /\
  currentStep (onSelectComplete audioResult studioAtAudio) = 3.
Proof. vm_compute. repeat split; reflexivity. Qed.

(** The four [updateSettings] calls of [onSelectComplete] all start from
    the configuration of the same render, so only the last one lands. *)
Example onSelectComplete_last_write_wins :
  prop (contentSettings (onSelectComplete audioResult studioAtAudio)) "last_audio_model"
    = JStr "google" /\
  prop (contentSettings (onSelectComplete audioResult studioAtAudio)) "audio_file"
    = JUndefined.
Proof. vm_compute. split; reflexivity. Qed.

(** ** Snapshot persistence *)

Lemma jsonClone_obj (fs : list (string * JsValue)) :
  jsonClone (JObj fs) = Some (JObj (cloneFields fs)).
Proof. reflexivity. Qed.

Lemma lookup_objToMap (fs : list (string * JsValue)) (k : string) :
  objToMap fs !! k = assoc_last k fs.
Proof.
  induction fs as [| [k' v] rest IH]; [apply lookup_empty |].
  cbn [objToMap assoc_last]. rewrite lookup_union, IH.
  destruct (assoc_last k rest) as [v' |].
  - destruct ({[k' := v]} !! k); reflexivity.
  - destruct (String.eqb k k') eqn:He.
    + apply String.eqb_eq in He. subst k'.
      rewrite lookup_singleton_eq. reflexivity.
    + apply String.eqb_neq in He.
      rewrite lookup_singleton_ne by congruence. reflexivity.
Qed.

(** Reading key [k] back from the serialised [settings] object built over
    the key list [keys]. *)
Lemma assoc_last_cloned_absent (cs : gmap string JsValue) (keys : list string)
    (k : string) :
  ~ In k keys ->
  assoc_last k (cloneFields (List.map (fun k => (k, prop cs k)) keys)) = None.
Proof.
  induction keys as [| k' keys IH]; intros Hnot; [reflexivity |].
  cbn [List.map cloneFields].
  assert (Hne : k <> k') by (intros ->; apply Hnot; left; reflexivity).
  assert (Hrest : ~ In k keys) by (intros H; apply Hnot; right; exact H).
  destruct (jsonClone (prop cs k')).
  - cbn [assoc_last]. rewrite IH by exact Hrest.
    apply String.eqb_neq in Hne. rewrite Hne. reflexivity.
  - apply IH. exact Hrest.
Qed.

Lemma assoc_last_cloned_present (cs : gmap string JsValue) (keys : list string)
    (k : string) :
  List.NoDup keys -> In k keys ->
  assoc_last k (cloneFields (List.map (fun k => (k, prop cs k)) keys)) =
  jsonClone (prop cs k).
Proof.
  induction keys as [| k' keys IH]; intros Hnd Hin; [destruct Hin |].
  apply List.NoDup_cons_iff in Hnd as [Hfresh Hnd].
  cbn [List.map cloneFields].
  destruct Hin as [-> | Hin].
  - destruct (jsonClone (prop cs k)) as [y |] eqn:Hy.
    + cbn [assoc_last]. rewrite assoc_last_cloned_absent by exact Hfresh.
      rewrite String.eqb_refl. reflexivity.
    + apply assoc_last_cloned_absent. exact Hfresh.
  - assert (Hne : k <> k') by (intros ->; contradiction).
    destruct (jsonClone (prop cs k')).
    + cbn [assoc_last]. rewrite IH by assumption.
      destruct (jsonClone (prop cs k)); [reflexivity |].
      apply String.eqb_neq in Hne. rewrite Hne. reflexivity.
    + apply IH; assumption.
Qed.

Lemma persistedKeys_NoDup : List.NoDup persistedKeys.
Proof.
  unfold persistedKeys.
  repeat (apply List.NoDup_cons;
          [cbn; intros H; repeat (destruct H as [H | H]; [discriminate H |]); exact H |]).
  apply List.NoDup_nil.
Qed.

(** What the rehydrate effect reads back from a snapshot that was just
    written: the four members of the payload after serialisation. *)
Lemma snapshot_members (st : Studio) :
  exists parsed,
    jsonClone (snapshotPayload st) = Some parsed /\
    (exists fs, parsed = JObj fs) /\
    field parsed "settings" =
      JObj (cloneFields (List.map (fun k => (k, prop (contentSettings st) k))
                                  persistedKeys)) /\
    field parsed "generatedImages" =
      JArr (List.map (fun x => default JNull (jsonClone x)) (generatedImages st)) /\
    field parsed "videoPreview" = default JUndefined (jsonClone (videoPreview st)) /\
    field parsed "stepCompleted" =
      JArr (List.map (fun x => default JNull (jsonClone x)) (stepCompleted st)).
Proof.
  unfold snapshotPayload. rewrite jsonClone_obj.
  eexists. split; [reflexivity |]. split; [eexists; reflexivity |].
  cbn [cloneFields]. unfold settingsPayload. rewrite jsonClone_obj.
  cbn [jsonClone].
  destruct (jsonClone (videoPreview st)) as [v |]; repeat split; reflexivity.
Qed.

Lemma applySnapshot_members (parsed : JsValue) (st : Studio) :
  (exists fs, parsed = JObj fs) ->
  contentSettings (applySnapshot parsed st) =
    spread (field parsed "settings") ∪ contentSettings st /\
  generatedImages (applySnapshot parsed st) =
    match field parsed "generatedImages" with
    | JArr l => l
    | _ => generatedImages st
    end /\
  videoPreview (applySnapshot parsed st) =
    match field parsed "videoPreview" with
    | JStr s => JStr s
    | _ => videoPreview st
    end /\
  stepCompleted (applySnapshot parsed st) =
    match field parsed "stepCompleted" with
    | JArr l => l
    | _ => stepCompleted st
    end /\
  currentStep (applySnapshot parsed st) = currentStep st.
Proof.
  intros Hnn.
  assert (Hbody : applySnapshot parsed st =
    let s1 := onSettingsChange
                (spread (field parsed "settings") ∪ contentSettings st) st in
    let s2 := match field parsed "generatedImages" with
              | JArr l => setGeneratedImages l s1
              | _ => s1
              end in
    let s3 := match field parsed "videoPreview" with
              | JStr s => setVideoPreview (JStr s) s2
              | _ => s2
              end in
    match field parsed "stepCompleted" with
    | JArr l => setStepCompleted l s3
    | _ => s3
    end).
  { destruct Hnn as [fs ->]. reflexivity. }
  rewrite Hbody. cbv zeta.
  destruct (field parsed "generatedImages");
    destruct (field parsed "videoPreview");
    destruct (field parsed "stepCompleted");
    repeat split; reflexivity.
Qed.

Lemma jsonExact_array (l : list JsValue) :
  jsonExact (JArr l) -> List.map (fun x => default JNull (jsonClone x)) l = l.
Proof. unfold jsonExact. cbn [jsonClone]. intros H. injection H as H. exact H. Qed.

(** The rehydrate effect taken alone, which is the whole of the mount when
    the fresh session already has a voice profile: after a snapshot is
    written and read back, every persisted setting that had a value when
    saved is that value again, the generated images, the completion flags and a
    string video preview are those of the saved session, and everything
    else (settings outside the persisted subset, persisted settings that
    were undefined when saved, a preview that was not a string, the current
    stage) is what the fresh session started with: absent where the fresh
    session has nothing. *)
Theorem snapshot_round_trip (saved fresh : Studio) (storage : Storage) :
  let restored := rehydrate (persist true saved storage) fresh in
  (forall k v, In k persistedKeys ->
     contentSettings saved !! k = Some v -> jsonExact v ->
     contentSettings restored !! k = Some v) /\
  (forall k, ~ In k persistedKeys \/ prop (contentSettings saved) k = JUndefined ->
     contentSettings restored !! k = contentSettings fresh !! k) /\
  (jsonExact (JArr (generatedImages saved)) ->
     generatedImages restored = generatedImages saved) /\
  (jsonExact (JArr (stepCompleted saved)) ->
     stepCompleted restored = stepCompleted saved) /\
  (forall s, videoPreview saved = JStr s -> videoPreview restored = JStr s) /\
  ((forall s, videoPreview saved <> JStr s) ->
     videoPreview restored = videoPreview fresh) /\
  currentStep restored = currentStep fresh.
Proof.
  cbv zeta. unfold persist, rehydrate.
  destruct (snapshot_members saved)
    as (parsed & Hclone & Hnn & Hset & Himg & Hvid & Hflags).
  rewrite Hclone.
  destruct (applySnapshot_members parsed fresh Hnn)
    as (Hcs & Hgi & Hvp & Hsc & Hstep).
  rewrite Hcs, Hgi, Hvp, Hsc, Hstep, Hset, Himg, Hvid, Hflags.
  cbn [spread].
  split.
  { intros k v Hin Hk Hexact.
    apply lookup_union_Some_l. rewrite lookup_objToMap.
    rewrite assoc_last_cloned_present by (auto using persistedKeys_NoDup).
    unfold prop. rewrite Hk. exact Hexact. }
  split.
  { intros k Hk. apply lookup_union_r. rewrite lookup_objToMap.
    destruct (in_dec String.string_dec k persistedKeys) as [Hin | Hout].
    - destruct Hk as [Hk | Hk]; [contradiction |].
      rewrite assoc_last_cloned_present by (auto using persistedKeys_NoDup).
      rewrite Hk. reflexivity.
    - apply assoc_last_cloned_absent. exact Hout. }
  split; [apply jsonExact_array |].
  split; [apply jsonExact_array |].
  split.
  { intros s Hs. rewrite Hs. reflexivity. }
  split; [| reflexivity].
  intros Hns.
  destruct (videoPreview saved) as [| | b | n | s | l | fs]; try reflexivity.
  exfalso. apply (Hns s). reflexivity.
Qed.

Lemma snapshot_round_trip_witness :
  contentSettings (rehydrate (persist true savedStudio None) freshStudio) !! "script"
    = Some (JStr "Roteiro salvo") /\
  contentSettings (rehydrate (persist true savedStudio None) freshStudio) !! "topic"
    = contentSettings freshStudio !! "topic" /\
  generatedImages (rehydrate (persist true savedStudio None) freshStudio)
    = generatedImages savedStudio /\
  stepCompleted (rehydrate (persist true savedStudio None) freshStudio)
    = stepCompleted savedStudio /\
  videoPreview (rehydrate (persist true savedStudio None) freshStudio)
    = JStr "/media/video/v.mp4" /\
  videoPreview (rehydrate (persist true studioAtAudio None) freshStudio)
    = videoPreview freshStudio.
Proof.
  destruct (snapshot_round_trip savedStudio freshStudio None)
    as (Hkeep & Hfresh & Himg & Hflags & Hvid & _).
  destruct (snapshot_round_trip studioAtAudio freshStudio None)
    as (_ & _ & _ & _ & _ & Hnovid & _).
  split.
  { apply Hkeep; [cbn; auto | vm_compute; reflexivity | reflexivity]. }
  split.
  { apply Hfresh. left. cbn. intros H.
    repeat (destruct H as [H | H]; [discriminate H |]). exact H. }
  split; [apply Himg; reflexivity |].
  split; [apply Hflags; reflexivity |].
  split; [apply Hvid; reflexivity |].
  apply Hnovid. intros s. discriminate.
Defined.

(** Even then a persisted setting that was undefined when saved comes back
    with the fresh session's default, and a setting outside the persisted
    subset is not absent afterwards but holds the fresh session's value. *)
Lemma rehydrate_keeps_fresh_defaults :
  In "subtitle_style" persistedKeys /\
  contentSettings savedStudio !! "subtitle_style" = None /\
  contentSettings (rehydrate (persist true savedStudio None) freshStudio)
    !! "subtitle_style" = Some (JStr "neon_glow") /\
  ~ In "topic" persistedKeys /\
  contentSettings savedStudio !! "topic" = Some (JStr "gatos") /\
  contentSettings (rehydrate (persist true savedStudio None) freshStudio)
    !! "topic" = Some (JStr "").
Proof.
  split; [cbn; tauto |].
  split; [vm_compute; reflexivity |].
  split; [vm_compute; reflexivity |].
  split.
  { cbn. intros H. repeat (destruct H as [H | H]; [discriminate H |]). exact H. }
  split; vm_compute; reflexivity.
Qed.

(** With a voice profile in the fresh configuration the mount is the
    rehydrate effect and nothing more. *)
Lemma mount_with_voice_profile (storage : Storage) (fresh : Studio) :
  truthy (prop (contentSettings fresh) "voice_profile") = true ->
  mount storage fresh = rehydrate storage fresh.
Proof. intros H. unfold mount, voiceProfileEffect. rewrite H. reflexivity. Qed.

(** C9 fails in the code: when the fresh session has no voice profile, as
    with the application's starting configuration after a page reload, the
    effect that defaults the profile runs in the same commit as the
    rehydrate effect and replaces the configuration by the fresh one plus
    the profile.  Nothing of the saved settings is restored: every key but
    [voice_profile] holds what the fresh session started with, so a saved
    script is lost unless the fresh session happens to hold the same one.
    The images, the flags and a string preview, which are the component's
    own state, are restored. *)
Theorem mount_drops_saved_settings (saved fresh : Studio) (storage : Storage) :
  truthy (prop (contentSettings fresh) "voice_profile") = false ->
  let restored := mount (persist true saved storage) fresh in
  contentSettings restored
    = <["voice_profile" := JStr "male-professional"]> (contentSettings fresh) /\
  (forall k, k <> "voice_profile" ->
     contentSettings restored !! k = contentSettings fresh !! k) /\
  (forall v, contentSettings saved !! "script" = Some v ->
     contentSettings fresh !! "script" <> Some v ->
     contentSettings restored !! "script" <> contentSettings saved !! "script") /\
  (jsonExact (JArr (generatedImages saved)) ->
     generatedImages restored = generatedImages saved) /\
  (jsonExact (JArr (stepCompleted saved)) ->
     stepCompleted restored = stepCompleted saved) /\
  (forall s, videoPreview saved = JStr s -> videoPreview restored = JStr s).
Proof.
  intros Hvoice. cbv zeta.
  destruct (snapshot_round_trip saved fresh storage)
    as (_ & _ & Himg & Hflags & Hvid & _).
  unfold mount, voiceProfileEffect. rewrite Hvoice. cbn [negb].
  unfold updateSettings.
  cbn [onSettingsChange contentSettings generatedImages stepCompleted videoPreview].
  split; [reflexivity |].
  assert (Hother : forall k, k <> "voice_profile" ->
            <["voice_profile" := JStr "male-professional"]> (contentSettings fresh) !! k
            = contentSettings fresh !! k).
  { intros k Hk. apply lookup_insert_ne. congruence. }
  split; [exact Hother |].
  split.
  { intros v Hsaved Hfresh. rewrite Hother by discriminate.
    rewrite Hsaved. exact Hfresh. }
  split; [exact Himg |]. split; [exact Hflags | exact Hvid].
Qed.

Lemma mount_drops_saved_settings_witness :
  contentSettings savedStudio !! "script" = Some (JStr "Roteiro salvo") /\
  contentSettings (mount (persist true savedStudio None) freshStudio) !! "script"
    = Some (JStr "") /\
  contentSettings (mount (persist true savedStudio None) freshStudio) !! "voice_profile"
    = Some (JStr "male-professional") /\
  stepCompleted (mount (persist true savedStudio None) freshStudio)
    = stepCompleted savedStudio.
Proof.
  destruct (mount_drops_saved_settings savedStudio freshStudio None)
    as (Hcs & Hother & _ & _ & Hflags & _); [vm_compute; reflexivity |].
  split; [vm_compute; reflexivity |].
  split; [rewrite Hother by discriminate; vm_compute; reflexivity |].
  split; [rewrite Hcs; apply lookup_insert_eq |].
  apply Hflags. reflexivity.
Defined.

(** ** URL builder *)

Lemma length_append (s1 s2 : string) :
  String.length (s1 +:+ s2) = (String.length s1 + String.length s2)%nat.
Proof.
  induction s1 as [| c s1 IH]; [reflexivity |].
  change (String c s1 +:+ s2) with (String c (s1 +:+ s2)).
  cbn [String.length Nat.add]. rewrite IH. reflexivity.
Qed.

Lemma substring_all (s : string) : String.substring 0 (String.length s) s = s.
Proof. induction s as [| c s IH]; cbn; [reflexivity | rewrite IH; reflexivity]. Qed.

Lemma substring_append_skip (b p : string) (n m : nat) :
  String.substring (String.length b + n) m (b +:+ p) = String.substring n m p.
Proof.
  induction b as [| c b IH]; [reflexivity |].
  change (String c b +:+ p) with (String c (b +:+ p)).
  cbn [String.length Nat.add String.substring]. exact IH.
Qed.

(** A suffix test on [b ++ p] against something no longer than [p] only
    looks at [p]. *)
Lemma endsWith_append (b p q : string) :
  (String.length q <= String.length p)%nat ->
  endsWith (b +:+ p) q = endsWith p q.
Proof.
  intros Hle. unfold endsWith. rewrite length_append.
  replace (String.length q <=? String.length b + String.length p)%nat with true
    by (symmetry; apply Nat.leb_le; lia).
  replace (String.length q <=? String.length p)%nat with true
    by (symmetry; apply Nat.leb_le; lia).
  replace (String.length b + String.length p - String.length q)%nat
    with (String.length b + (String.length p - String.length q))%nat by lia.
  rewrite substring_append_skip. reflexivity.
Qed.

Lemma dropLast_cons (c : ascii) (s : string) :
  s <> "" -> dropLast (String c s) = String c (dropLast s).
Proof.
  intros Hne. unfold dropLast. destruct s as [| d s]; [contradiction |].
  cbn [String.length]. rewrite !Nat.sub_1_r. cbn [Nat.pred].
  reflexivity.
Qed.

Lemma dropLast_append (b p : string) :
  p <> "" -> dropLast (b +:+ p) = b +:+ dropLast p.
Proof.
  intros Hne. induction b as [| c b IH]; [reflexivity |].
  change (String c b +:+ p) with (String c (b +:+ p)).
  rewrite dropLast_cons.
  - rewrite IH. reflexivity.
  - destruct b; [exact Hne | discriminate].
Qed.

Lemma append_empty_r (s : string) : s +:+ "" = s.
Proof.
  induction s as [| c s IH]; [reflexivity |].
  change (String c s +:+ "") with (String c (s +:+ "")). rewrite IH. reflexivity.
Qed.

Lemma append_assoc (a b c : string) : (a +:+ b) +:+ c = a +:+ (b +:+ c).
Proof.
  induction a as [| x a IH]; [reflexivity |].
  change (String x a +:+ b) with (String x (a +:+ b)).
  change (String x (a +:+ b) +:+ c) with (String x ((a +:+ b) +:+ c)).
  rewrite IH. reflexivity.
Qed.

Lemma startsWith_separator (path : string) : startsWith ("/" +:+ path) "/" = true.
Proof. unfold startsWith. destruct path; reflexivity. Qed.

(** [ApiService] gives the same URL however the base and the endpoint are
    written: with or without a trailing separator, with or without the API
    suffix, with or without a leading separator. *)
Lemma requestUrl_canonical (origin path suffix lead : string) :
  endsWith origin "/" = false ->
  endsWith origin "/api" = false ->
  startsWith path "/" = false ->
  In suffix [""; "/"; "/api"; "/api/"] ->
  In lead [""; "/"] ->
  requestUrl (newApiService (origin +:+ suffix)) (lead +:+ path) =
  origin +:+ "/api/" +:+ path.
Proof.
  intros Hslash Hapi Hpath Hsuffix Hlead.
  assert (Hend : (if startsWith (lead +:+ path) "/" then lead +:+ path
                  else "/" +:+ (lead +:+ path)) = "/" +:+ path).
  { destruct Hlead as [<- | [<- | []]].
    - change ("" +:+ path) with path. rewrite Hpath. reflexivity.
    - rewrite startsWith_separator. reflexivity. }
  assert (Hbase : baseUrl (newApiService (origin +:+ suffix)) = origin /\
                  suffix = "" \/ suffix = "/"
                  \/ baseUrl (newApiService (origin +:+ suffix)) = origin +:+ "/api").
  { unfold newApiService. cbn [baseUrl].
    destruct Hsuffix as [<- | [<- | [<- | [<- | []]]]].
    - left. rewrite append_empty_r, Hslash. auto.
    - right. left. reflexivity.
    - right. right. rewrite endsWith_append by (cbn; lia). reflexivity.
    - right. right. rewrite endsWith_append by (cbn; lia).
      change (endsWith "/api/" "/") with true. cbv iota.
      rewrite dropLast_append by discriminate. reflexivity. }
  unfold requestUrl. rewrite Hend.
  destruct Hbase as [[Hb _] | [-> | Hb]].
  - rewrite Hb, Hapi. reflexivity.
  - unfold newApiService. cbn [baseUrl].
    rewrite endsWith_append by (cbn; lia).
    change (endsWith "/" "/") with true. cbv iota.
    rewrite dropLast_append by discriminate.
    change (dropLast "/") with "". rewrite append_empty_r, Hapi. reflexivity.
  - rewrite Hb. rewrite endsWith_append by (cbn; lia).
    change (endsWith "/api" "/api") with true. cbv iota.
    rewrite append_assoc. reflexivity.
Qed.

(** [buildApiUrl] does as much for a base without a trailing separator. *)
Lemma buildApiUrl_canonical (origin path suffix lead : string) :
  endsWith origin "/api" = false ->
  startsWith path "/" = false ->
  In suffix [""; "/api"] ->
  In lead [""; "/"] ->
  buildApiUrl (origin +:+ suffix) (lead +:+ path) = origin +:+ "/api/" +:+ path.
Proof.
  intros Hapi Hpath Hsuffix Hlead.
  assert (Hend : (if startsWith (lead +:+ path) "/" then lead +:+ path
                  else "/" +:+ (lead +:+ path)) = "/" +:+ path).
  { destruct Hlead as [<- | [<- | []]].
    - change ("" +:+ path) with path. rewrite Hpath. reflexivity.
    - rewrite startsWith_separator. reflexivity. }
  unfold buildApiUrl. rewrite Hend.
  destruct Hsuffix as [<- | [<- | []]].
  - rewrite append_empty_r, Hapi. reflexivity.
  - rewrite endsWith_append by (cbn; lia).
    change (endsWith "/api" "/api") with true. cbv iota.
    rewrite append_assoc. reflexivity.
Qed.

(** C2 at a base with a trailing separator: [buildApiUrl] does not strip
    it, so the API prefix is appended after it (twice present when the base
    already carried it) and the URL has a doubled slash, where [ApiService]
    on the same input gives the well-formed URL. *)
Theorem buildApiUrl_trailing_separator :
  buildApiUrl "https://x.com/api/" "foo" = "https://x.com/api//api/foo" /\
  occurrences "/api" (buildApiUrl "https://x.com/api/" "foo") = 2%nat /\
  hasDoubledSlash (buildApiUrl "https://x.com/api/" "foo") = true /\
  buildApiUrl "https://x.com/" "/foo" = "https://x.com//api/foo" /\
  hasDoubledSlash (buildApiUrl "https://x.com/" "/foo") = true /\
  requestUrl (newApiService "https://x.com/api/") "foo" = "https://x.com/api/foo" /\
  requestUrl (newApiService "https://x.com/") "/foo" = "https://x.com/api/foo" /\
  occurrences "/api" "https://x.com/api/foo" = 1%nat /\
  hasDoubledSlash "https://x.com/api/foo" = false.
Proof. vm_compute. repeat split; reflexivity. Qed.

Example buildApiUrl_spec_example_1 :
  buildApiUrl "https://x.com/api" "foo" = "https://x.com/api/foo".
Proof. reflexivity. Qed.

Example buildApiUrl_spec_example_2 :
  buildApiUrl "https://x.com" "/foo" = "https://x.com/api/foo".
Proof. reflexivity. Qed.

Example buildApiUrl_default_base :
  buildApiUrl DEFAULT_API_BASE_URL "production/job-status?job_id=7" =
  "https://topatudoeletrofacil.com.br/api/production/job-status?job_id=7".
Proof. reflexivity. Qed.

(* ===================================================================== *)
(** * Further properties                                                  *)
(* ===================================================================== *)

(** ** Resilient fetch: recovery and time bound *)

(** A transient failure with attempts left costs one wait and leads to the
    next attempt. *)
Lemma safeFetchLoop_transient (env : Env) (url : string)
    (timeoutMs retries retryDelayBaseMs : Z) (fuel : nat) (attempt : Z)
    (w : World) :
  isTransient (fst (settle env url timeoutMs (fetches w))) = true ->
  attempt < retries ->
  safeFetchLoop env url timeoutMs retries retryDelayBaseMs (S fuel) attempt w =
  safeFetchLoop env url timeoutMs retries retryDelayBaseMs fuel (attempt + 1)
    (afterBackoff env retryDelayBaseMs attempt
       (afterFetch (snd (settle env url timeoutMs (fetches w))) w)).
Proof.
  intros Htr Hlt. rewrite safeFetchLoop_unfold by lia.
  destruct (fst (settle env url timeoutMs (fetches w))) as [r | e];
    cbn [isTransient] in Htr.
  - rewrite Htr. apply Z.ltb_lt in Hlt. rewrite Hlt. reflexivity.
  - apply Z.ltb_lt in Hlt. rewrite Hlt. reflexivity.
Qed.

Lemma safeFetchLoop_recovers (env : Env) (url : string)
    (timeoutMs retries retryDelayBaseMs : Z) (j : nat) :
  forall (fuel : nat) (attempt : Z) (w : World) (r : Response),
    attempt + Z.of_nat j <= retries ->
    (j < fuel)%nat ->
    (forall i, (i < j)%nat ->
       isTransient (fst (settle env url timeoutMs (fetches w + i))) = true) ->
    fst (settle env url timeoutMs (fetches w + j)) = Resolved r ->
    isRetryStatus (status r) = false \/ attempt + Z.of_nat j = retries ->
    exists w',
      safeFetchLoop env url timeoutMs retries retryDelayBaseMs fuel attempt w =
        (Some (ReturnResp r), w') /\
      fetches w' = (fetches w + j + 1)%nat /\
      randoms w' = (randoms w + j)%nat /\
      sleeps w' =
        (sleeps w ++ backoffWaits env retryDelayBaseMs attempt (randoms w) j)%list.
Proof.
  induction j as [| j IH]; intros fuel attempt w r Hle Hfuel Htr Hres Hlast.
  - destruct fuel as [| fuel]; [lia |].
    rewrite Nat.add_0_r in Hres.
    eexists. split.
    + apply safeFetchLoop_return; [exact Hres | | lia].
      destruct Hlast as [H | H]; [left; exact H | right; lia].
    + cbn [afterFetch fetches randoms sleeps backoffWaits].
      rewrite app_nil_r. repeat split; lia.
  - destruct fuel as [| fuel]; [lia |].
    rewrite safeFetchLoop_transient;
      [| specialize (Htr 0%nat); rewrite Nat.add_0_r in Htr; apply Htr; lia | lia].
    set (w1 := afterBackoff _ _ _ _).
    assert (F1 : fetches w1 = S (fetches w)) by reflexivity.
    assert (R1 : randoms w1 = S (randoms w)) by reflexivity.
    assert (S1 : sleeps w1 =
              (sleeps w ++ [backoffBase retryDelayBaseMs attempt
                            + jitterOf (randomBits env (randoms w))])%list)
      by reflexivity.
    destruct (IH fuel (attempt + 1) w1 r) as (w' & Hrun & Hf & Hr & Hs).
    + lia.
    + lia.
    + intros i Hi. rewrite F1.
      replace (S (fetches w) + i)%nat with (fetches w + S i)%nat by lia.
      apply Htr. lia.
    + rewrite F1.
      replace (S (fetches w) + j)%nat with (fetches w + S j)%nat by lia.
      exact Hres.
    + destruct Hlast as [H | H]; [left; exact H | right; lia].
    + exists w'. split; [exact Hrun |].
      split; [lia |]. split; [lia |].
      rewrite Hs, S1, R1. cbn [backoffWaits]. rewrite <- app_assoc. reflexivity.
Qed.

(** X1: after [j] transient failures (rejections or retry statuses) with
    [j <= retries], an attempt answered with a status outside the retry set
    (or the last attempt, whatever its status) ends the call: that response
    is returned after exactly [j + 1] fetches and the [j] back-off waits
    [base * 2^0 + jitter], [base * 2^1 + jitter], ... in that order. *)
Theorem safeFetch_recovers (env : Env) (url : string)
    (timeoutMs retries retryDelayBaseMs : Z) (w : World) (j : nat) (r : Response) :
  Z.of_nat j <= retries ->
  (forall i, (i < j)%nat ->
     isTransient (fst (settle env url timeoutMs (fetches w + i))) = true) ->
  fst (settle env url timeoutMs (fetches w + j)) = Resolved r ->
  isRetryStatus (status r) = false \/ Z.of_nat j = retries ->
  exists w',
    safeFetch env url timeoutMs retries retryDelayBaseMs w =
      (Some (ReturnResp r), w') /\
    fetches w' = (fetches w + j + 1)%nat /\
    randoms w' = (randoms w + j)%nat /\
    sleeps w' = (sleeps w ++ backoffWaits env retryDelayBaseMs 0 (randoms w) j)%list.
Proof.
  intros Hle Htr Hres Hlast.
  unfold safeFetch.
  apply (safeFetchLoop_recovers env url timeoutMs retries retryDelayBaseMs j
           (safeFetchFuel retries) 0 w r).
  - lia.
  - unfold safeFetchFuel. lia.
  - exact Htr.
  - exact Hres.
  - destruct Hlast as [H | H]; [left; exact H | right; lia].
Qed.

Lemma safeFetch_recovers_witness :
  exists w',
    safeFetch envRecovers "https://x.com/api/status" DEFAULT_TIMEOUT_MS 2 800 world0 =
      (Some (ReturnResp (mkResponse 200 (Some (JObj [("success", JBool true)])))), w') /\
    fetches w' = (fetches world0 + 2 + 1)%nat /\
    randoms w' = (randoms world0 + 2)%nat /\
    sleeps w' = (sleeps world0 ++ backoffWaits envRecovers 800 0 (randoms world0) 2)%list.
Proof.
  apply (safeFetch_recovers envRecovers "https://x.com/api/status"
           DEFAULT_TIMEOUT_MS 2 800 world0 2).
  - lia.
  - intros i Hi. destruct i as [| [| i]]; [reflexivity | reflexivity | lia].
  - reflexivity.
  - left. reflexivity.
Defined.

(** A fetch raced against the timer never takes longer than the timeout. *)
Lemma settle_elapsed (env : Env) (url : string) (timeoutMs : Z) (k : nat) :
  0 <= Z.max 0 (snd (settle env url timeoutMs k)) <= Z.max 0 timeoutMs.
Proof.
  unfold settle.
  destruct (timeoutMs <? Z.max 0 (latency env k)) eqn:Hc; cbn [snd].
  - lia.
  - apply Z.ltb_ge in Hc. lia.
Qed.

Lemma safeFetchLoop_time_bound (env : Env) (url : string)
    (timeoutMs retries retryDelayBaseMs : Z) (fuel : nat) :
  0 <= retryDelayBaseMs ->
  forall (attempt : Z) (w : World) (x : option Exit) (w' : World),
    0 <= attempt <= retries ->
    safeFetchLoop env url timeoutMs retries retryDelayBaseMs fuel attempt w = (x, w') ->
    now w' - now w <=
      (retries + 1 - attempt) * Z.max 0 timeoutMs
      + retryDelayBaseMs * (2 ^ retries - 2 ^ attempt)
      + 249 * (retries - attempt).
Proof.
  intros Hbase.
  induction fuel as [| fuel IH]; intros attempt w x w' Hat Hrun.
  - cbn in Hrun. injection Hrun as _ <-.
    assert (2 ^ attempt <= 2 ^ retries) by (apply Z.pow_le_mono_r; lia).
    nia.
  - rewrite safeFetchLoop_unfold in Hrun by lia.
    pose proof (settle_elapsed env url timeoutMs (fetches w)) as Hel.
    set (d := snd (settle env url timeoutMs (fetches w))) in *.
    assert (Hpow : 2 ^ attempt <= 2 ^ retries) by (apply Z.pow_le_mono_r; lia).
    assert (Hpos : 0 < 2 ^ attempt) by (apply Z.pow_pos_nonneg; lia).
    assert (Hstop : now (afterFetch d w) - now w <=
              (retries + 1 - attempt) * Z.max 0 timeoutMs
              + retryDelayBaseMs * (2 ^ retries - 2 ^ attempt)
              + 249 * (retries - attempt)).
    { cbn [afterFetch now]. nia. }
    assert (Hgo : attempt < retries ->
              safeFetchLoop env url timeoutMs retries retryDelayBaseMs fuel
                (attempt + 1) (afterBackoff env retryDelayBaseMs attempt (afterFetch d w))
                = (x, w') ->
              now w' - now w <=
                (retries + 1 - attempt) * Z.max 0 timeoutMs
                + retryDelayBaseMs * (2 ^ retries - 2 ^ attempt)
                + 249 * (retries - attempt)).
    { intros Hlt Hrec. apply IH in Hrec; [| lia].
      pose proof (jitterOf_range (randomBits env (randoms (afterFetch d w)))) as Hj.
      assert (Hw : now (afterBackoff env retryDelayBaseMs attempt (afterFetch d w))
                   = now w + Z.max 0 d
                     + Z.max 0 (backoffBase retryDelayBaseMs attempt
                                + jitterOf (randomBits env (randoms (afterFetch d w)))))
        by reflexivity.
      rewrite Hw in Hrec. unfold backoffBase in Hrec.
      replace (2 ^ (attempt + 1)) with (2 * 2 ^ attempt) in Hrec
        by (rewrite Z.pow_add_r by lia; lia).
      nia. }
    destruct (fst (settle env url timeoutMs (fetches w))) as [resp | err].
    + destruct (isRetryStatus (status resp) && (attempt <? retries)) eqn:Hc.
      * apply andb_true_iff in Hc as [_ Hlt]. apply Z.ltb_lt in Hlt. auto.
      * injection Hrun as _ <-. exact Hstop.
    + destruct (attempt <? retries) eqn:Hc.
      * apply Z.ltb_lt in Hc. auto.
      * injection Hrun as _ <-. exact Hstop.
Qed.

(** The clock after a call: it returns, and the time it took is bounded. *)
Lemma safeFetch_elapsed (env : Env) (url : string)
    (timeoutMs retries retryDelayBaseMs : Z) (w : World) :
  0 <= retries ->
  0 <= retryDelayBaseMs ->
  exists x w',
    safeFetch env url timeoutMs retries retryDelayBaseMs w = (Some x, w') /\
    now w <= now w' /\
    now w' - now w <=
      (retries + 1) * Z.max 0 timeoutMs
      + retryDelayBaseMs * (2 ^ retries - 1) + 249 * retries.
Proof.
  intros Hr Hb.
  destruct (safeFetch_total env url timeoutMs retries retryDelayBaseMs w)
    as (x & w' & Hrun & Hnow & _).
  exists x, w'. split; [exact Hrun |]. split; [exact Hnow |].
  pose proof (safeFetchLoop_time_bound env url timeoutMs retries retryDelayBaseMs
                (safeFetchFuel retries) Hb 0 w (Some x) w') as H.
  replace (retries + 1 - 0) with (retries + 1) in H by lia.
  replace (2 ^ 0) with 1 in H by reflexivity.
  replace (retries - 0) with retries in H by lia.
  apply H; [lia | exact Hrun].
Qed.

(** X2: a call never takes longer than [retries + 1] timeouts plus the
    waits in between: for a base delay that is not negative, at most
    [(retries + 1) * timeout + base * (2^retries - 1) + 249 * retries] ms
    pass on the clock, however the network behaves; with the defaults
    that is 332,898 ms. *)
Theorem safeFetch_time_bound (env : Env) (url : string)
    (timeoutMs retries retryDelayBaseMs : Z) (w : World) :
  0 <= retries ->
  0 <= retryDelayBaseMs ->
  (exists x w',
    safeFetch env url timeoutMs retries retryDelayBaseMs w = (Some x, w') /\
    now w <= now w' /\
    now w' - now w <=
      (retries + 1) * Z.max 0 timeoutMs
      + retryDelayBaseMs * (2 ^ retries - 1) + 249 * retries) /\
  (DEFAULT_RETRIES + 1) * Z.max 0 DEFAULT_TIMEOUT_MS
    + DEFAULT_RETRY_DELAY_BASE_MS * (2 ^ DEFAULT_RETRIES - 1)
    + 249 * DEFAULT_RETRIES = 332898.
Proof.
  intros Hr Hb. split; [| reflexivity].
  apply safeFetch_elapsed; assumption.
Qed.

Lemma safeFetch_time_bound_witness :
  exists x w',
    safeFetch envStalled "https://x.com/api/status" DEFAULT_TIMEOUT_MS 2 800 world0 =
      (Some x, w') /\
    now world0 <= now w' /\
    now w' - now world0 <=
      (2 + 1) * Z.max 0 DEFAULT_TIMEOUT_MS + 800 * (2 ^ 2 - 1) + 249 * 2.
Proof.
  apply (safeFetch_time_bound envStalled "https://x.com/api/status"
           DEFAULT_TIMEOUT_MS 2 800 world0); lia.
Defined.

(** ** Job polling loop: what it touches and how long it runs *)

Section PollingEffects.

Variable env : Env.
Variables API_BASE_URL jobId : string.
Variable started : Z.

Lemma pollFrame_refl (k : bool) (a : Studio) : pollFrame k a a.
Proof. unfold pollFrame. repeat split; lia. Qed.

Lemma pollFrame_trans (k : bool) (a b c : Studio) :
  pollFrame true a b -> pollFrame k b c -> pollFrame k a c.
Proof.
  unfold pollFrame.
  intros (A1 & A2 & A3 & A4 & A5 & A6) (B1 & B2 & B3 & B4 & B5 & B6).
  repeat split; try congruence; [lia |].
  intros Hk. rewrite B6 by exact Hk. apply A6. reflexivity.
Qed.

(** What follows the parsed body writes only the progress and, on
    completion, the preview. *)
Lemma applyStatus_frame (data : JsValue) (w : World) :
  pollFrame (match fst (applyStatus env data w) with
             | Leave PollCompleted => false
             | _ => true
             end)
            (studio w) (studio (snd (applyStatus env data w))).
Proof.
  destruct (applyStatus env data w) as [s w'] eqn:Hh. cbn [fst snd].
  unfold applyStatus in Hh. unfold bind at 1 in Hh.
  set (progressed :=
         (if truthy (field data "progress")
          then setState (setGenerationProgress
                 (Z.min 95 (default 0 (jsNumber env (field data "progress")))))
          else ret tt) w) in Hh.
  assert (Hf : pollFrame true (studio w) (studio (snd progressed))).
  { subst progressed. destruct (truthy (field data "progress")).
    - unfold pollFrame. cbn. repeat split; lia.
    - apply pollFrame_refl. }
  destruct progressed as [[] wp]. cbn [snd] in Hf.
  destruct (field data "status") as [| | | | st | |];
    try (injection Hh as <- <-; exact Hf).
  destruct (String.eqb st "completed" && truthy (field data "video_url")).
  - injection Hh as <- <-.
    unfold pollFrame in *. destruct Hf as (F1 & F2 & F3 & F4 & F5 & _).
    cbn. repeat split; try assumption. discriminate.
  - destruct (String.eqb st "failed"); injection Hh as <- <-; exact Hf.
Qed.

(** Handling a status response lasts as long as its body takes to arrive
    and writes only the progress and, on completion, the preview. *)
Lemma handleStatus_effects (resp : Response) (w : World) :
  now w <= now (snd (handleStatus env resp w)) /\
  (forall D, 0 <= D -> bodiesWithin env D ->
     now (snd (handleStatus env resp w)) - now w <= D) /\
  pollFrame (match fst (handleStatus env resp w) with
             | Some (Leave PollCompleted) => false
             | _ => true
             end)
            (studio w) (studio (snd (handleStatus env resp w))).
Proof.
  rewrite handleStatus_unfold.
  destruct (negb (ok resp)).
  { cbn [fst snd]. split; [lia |]. split; [intros; lia | apply pollFrame_refl]. }
  destruct (bodyTime env (pred (fetches w))) as [d |] eqn:Hd.
  2:{ cbn [fst snd]. split; [lia |]. split; [intros; lia | apply pollFrame_refl]. }
  assert (Hlate : forall D, 0 <= D -> bodiesWithin env D ->
                    now (afterWait d w) - now w <= D).
  { intros D HD Hb. destruct (Hb (pred (fetches w))) as (d' & Hd' & Hle).
    rewrite Hd in Hd'. injection Hd' as <-. cbn. lia. }
  destruct (body resp) as [data |].
  2:{ cbn [fst snd]. split; [cbn; lia |]. split; [exact Hlate | apply pollFrame_refl]. }
  cbn [fst snd].
  destruct (applyStatus_cases env data (afterWait d w)) as (s & w' & Ha & Hn & _ & _).
  pose proof (applyStatus_frame data (afterWait d w)) as Hf.
  rewrite Ha in *. cbn [fst snd] in *.
  split; [rewrite Hn; cbn; lia |].
  split; [intros D HD Hb; rewrite Hn; apply Hlate; assumption |].
  exact Hf.
Qed.

(** One pass either stops at the ceiling test without doing anything, or
    starts within the ceiling, respects the frame, and lasts at most the
    polling interval, the longest status request and the time the body
    takes. *)
Lemma pollIteration_effects (w : World) (r : option PollStep) (w' : World) :
  pollIteration env API_BASE_URL jobId started w = (r, w') ->
  (POLL_CEILING_MS < now w - started /\ r = Some (Leave PollCeiling) /\ w' = w) \/
  (now w - started <= POLL_CEILING_MS /\
   now w <= now w' /\
   (forall D, 0 <= D -> bodiesWithin env D ->
      now w' - now w <= POLL_INTERVAL_MS + STATUS_REQUEST_MAX_MS + D) /\
   pollFrame (match r with Some (Leave PollCompleted) => false | _ => true end)
             (studio w) (studio w')).
Proof.
  rewrite pollIteration_unfold. intros Hrun.
  destruct (POLL_CEILING_MS <? now w - started) eqn:Hc.
  - left. apply Z.ltb_lt in Hc. injection Hrun as <- <-. auto.
  - right. apply Z.ltb_ge in Hc. split; [exact Hc |].
    set (w1 := snd (sleep POLL_INTERVAL_MS w)) in *.
    assert (Hw1 : now w1 = now w + POLL_INTERVAL_MS) by reflexivity.
    assert (Hs1 : studio w1 = studio w) by reflexivity.
    destruct (safeFetch_elapsed env (statusUrl env API_BASE_URL jobId)
                DEFAULT_TIMEOUT_MS 1 DEFAULT_RETRY_DELAY_BASE_MS w1)
      as (x1 & w2 & Hreq & Hmono & Hbound);
      [lia | unfold DEFAULT_RETRY_DELAY_BASE_MS; lia |].
    destruct (safeFetch_total env (statusUrl env API_BASE_URL jobId)
                DEFAULT_TIMEOUT_MS 1 DEFAULT_RETRY_DELAY_BASE_MS w1)
      as (x1' & w2' & Hreq' & _ & Hst & _).
    rewrite Hreq in Hreq'. injection Hreq' as <- <-.
    unfold statusRequest in Hrun. rewrite Hreq in Hrun.
    assert (Hmax : now w2 - now w1 <= STATUS_REQUEST_MAX_MS).
    { unfold STATUS_REQUEST_MAX_MS, DEFAULT_TIMEOUT_MS, DEFAULT_RETRY_DELAY_BASE_MS in *.
      change (2 ^ 1) with 2 in Hbound. lia. }
    unfold POLL_INTERVAL_MS in *.
    destruct x1 as [resp | e |].
    + destruct (handleStatus_effects resp w2) as (Hn & Hd & Hf).
      rewrite Hrun in Hn, Hd, Hf. cbn [fst snd] in Hn, Hd, Hf.
      split; [lia |].
      split; [intros D HD Hb; specialize (Hd D HD Hb); lia |].
      rewrite <- Hs1, <- Hst. exact Hf.
    + injection Hrun as <- <-. split; [lia |].
      split; [intros D HD Hb; lia |].
      rewrite Hst, Hs1. apply pollFrame_refl.
    + injection Hrun as <- <-. split; [lia |].
      split; [intros D HD Hb; lia |].
      rewrite Hst, Hs1. apply pollFrame_refl.
Qed.

(** Whatever the loop comes to, ended or suspended, it has respected the
    frame. *)
Lemma pollLoop_frame (fuel : nat) :
  forall (w : World) (r : option PollExit) (w' : World),
    pollLoop env API_BASE_URL jobId started fuel w = (r, w') ->
    now w <= now w' /\
    pollFrame (match r with Some PollCompleted => false | _ => true end)
              (studio w) (studio w').
Proof.
  induction fuel as [| fuel IH]; intros w r w' Hrun.
  { injection Hrun as <- <-. split; [lia | apply pollFrame_refl]. }
  cbn [pollLoop] in Hrun. unfold bind at 1 in Hrun.
  destruct (pollIteration env API_BASE_URL jobId started w) as [s w1] eqn:Hit.
  apply pollIteration_effects in Hit.
  destruct Hit as [(Hc & -> & ->) | (Hc & Hmono & _ & Hframe)].
  - injection Hrun as <- <-. split; [lia | apply pollFrame_refl].
  - destruct s as [[| y] |].
    + apply IH in Hrun. destruct Hrun as (Hm & Hf).
      split; [lia |]. eapply pollFrame_trans; eassumption.
    + injection Hrun as <- <-. split; [exact Hmono |].
      destruct y; exact Hframe.
    + injection Hrun as <- <-. split; [exact Hmono | exact Hframe].
Qed.

(** When every body arrives within [D] ms, the loop is over at most one
    pass after the ceiling. *)
Lemma pollLoop_elapsed (D : Z) (fuel : nat) :
  0 <= D -> bodiesWithin env D ->
  forall (w : World) (r : option PollExit) (w' : World),
    now w - started <=
      POLL_CEILING_MS + POLL_INTERVAL_MS + STATUS_REQUEST_MAX_MS + D ->
    pollLoop env API_BASE_URL jobId started fuel w = (r, w') ->
    now w' - started <=
      POLL_CEILING_MS + POLL_INTERVAL_MS + STATUS_REQUEST_MAX_MS + D.
Proof.
  intros HD Hb.
  induction fuel as [| fuel IH]; intros w r w' Hstart Hrun.
  { injection Hrun as <- <-. exact Hstart. }
  cbn [pollLoop] in Hrun. unfold bind at 1 in Hrun.
  destruct (pollIteration env API_BASE_URL jobId started w) as [s w1] eqn:Hit.
  apply pollIteration_effects in Hit.
  destruct Hit as [(Hc & -> & ->) | (Hc & Hmono & Hdur & _)].
  - injection Hrun as <- <-. exact Hstart.
  - specialize (Hdur D HD Hb).
    destruct s as [[| y] |].
    + apply IH in Hrun; [exact Hrun | lia].
    + injection Hrun as <- <-. lia.
    + injection Hrun as <- <-. lia.
Qed.

End PollingEffects.

(** X3: polling never reports more than 95 % (unless the progress was
    already higher), leaves the stage, the flags, the images and the
    configuration alone, and replaces the video preview only when it ends
    on a completed job. *)
Theorem pollJob_frame (env : Env) (API_BASE_URL jobId : string)
    (w : World) (x : PollExit) (w' : World) :
  pollJob env API_BASE_URL jobId w = (Some x, w') ->
  generationProgress (studio w') <= Z.max (generationProgress (studio w)) 95 /\
  currentStep (studio w') = currentStep (studio w) /\
  stepCompleted (studio w') = stepCompleted (studio w) /\
  generatedImages (studio w') = generatedImages (studio w) /\
  contentSettings (studio w') = contentSettings (studio w) /\
  (x <> PollCompleted -> videoPreview (studio w') = videoPreview (studio w)).
Proof.
  unfold pollJob, bind, dateNow. intros Hrun.
  apply pollLoop_frame in Hrun.
  destruct Hrun as (_ & F1 & F2 & F3 & F4 & F5 & F6).
  repeat split; try assumption.
  intros Hx. apply F6. destruct x; try reflexivity. contradiction.
Qed.

Lemma pollJob_frame_witness :
  generationProgress (studio (snd (pollJob envThirdPoll "https://x.com/api" "job-1" world0)))
    <= Z.max (generationProgress (studio world0)) 95 /\
  stepCompleted (studio (snd (pollJob envThirdPoll "https://x.com/api" "job-1" world0)))
    = stepCompleted (studio world0) /\
  videoPreview (studio (snd (pollJob envOffline "https://x.com/api" "job-1" world0)))
    = videoPreview (studio world0).
Proof.
  destruct (pollJob_frame envThirdPoll "https://x.com/api" "job-1" world0
              PollCompleted
              (snd (pollJob envThirdPoll "https://x.com/api" "job-1" world0)))
    as (Hp & _ & Hf & _); [vm_compute; reflexivity |].
  destruct (pollJob_frame envOffline "https://x.com/api" "job-1" world0
              (PollRequestThrew (ThrownError "TypeError" "Failed to fetch"))
              (snd (pollJob envOffline "https://x.com/api" "job-1" world0)))
    as (_ & _ & _ & _ & _ & Hv); [vm_compute; reflexivity |].
  split; [exact Hp |]. split; [exact Hf |].
  apply Hv. discriminate.
Defined.

(** X4: when the body of every response arrives within [D] ms of its
    headers, polling is over at most one pass after the 20-minute ceiling,
    whatever the job and the network do: within the ceiling, one polling
    interval, one status request (two timeouts and a wait) and [D], that is
    within 1,422,549 + [D] ms of its start. *)
Theorem pollJob_time_bound (env : Env) (API_BASE_URL jobId : string) (w : World)
    (D : Z) :
  0 <= D ->
  bodiesWithin env D ->
  exists x w',
    pollJob env API_BASE_URL jobId w = (Some x, w') /\
    now w <= now w' /\
    now w' - now w <= POLL_CEILING_MS + POLL_INTERVAL_MS + STATUS_REQUEST_MAX_MS + D /\
    POLL_CEILING_MS + POLL_INTERVAL_MS + STATUS_REQUEST_MAX_MS + D = 1422549 + D.
Proof.
  intros HD Hb.
  destruct (pollLoop_ends env API_BASE_URL jobId (now w) POLL_FUEL w)
    as (x & w' & Hrun & _);
    [intros k Hk; destruct (Hb k) as (d & Hd & _); rewrite Hk in Hd; discriminate Hd
    | unfold POLL_FUEL; lia
    | unfold POLL_FUEL, POLL_CEILING_MS, POLL_INTERVAL_MS; lia |].
  exists x, w'. split; [exact Hrun |].
  change (pollLoop env API_BASE_URL jobId (now w) POLL_FUEL w = (Some x, w')) in Hrun.
  pose proof (pollLoop_frame env API_BASE_URL jobId (now w) POLL_FUEL w _ _ Hrun)
    as (Hm & _).
  split; [exact Hm |]. split; [| reflexivity].
  apply (pollLoop_elapsed env API_BASE_URL jobId (now w) D POLL_FUEL HD Hb
           w (Some x) w'); [| exact Hrun].
  unfold POLL_CEILING_MS, POLL_INTERVAL_MS, STATUS_REQUEST_MAX_MS,
    DEFAULT_TIMEOUT_MS, DEFAULT_RETRY_DELAY_BASE_MS. lia.
Qed.

Lemma pollJob_time_bound_witness :
  exists x w',
    pollJob envSlowBody "https://x.com/api" "job-1" world0 = (Some x, w') /\
    now world0 <= now w' /\
    now w' - now world0
      <= POLL_CEILING_MS + POLL_INTERVAL_MS + STATUS_REQUEST_MAX_MS + 40.
Proof.
  destruct (pollJob_time_bound envSlowBody "https://x.com/api" "job-1" world0 40)
    as (x & w' & Hrun & Hm & Hb & _).
  - lia.
  - intros k. exists 40. split; [reflexivity | lia].
  - exists x, w'. repeat split; assumption.
Defined.

(** ** Complete video render *)

Section Render.

Variable env : Env.
Variable API_BASE_URL : string.

(** The fields of the studio a render never writes. *)
Local Abbreviation untouched a b :=
  (currentStep b = currentStep a /\ stepCompleted b = stepCompleted a /\
   generatedImages b = generatedImages a /\ contentSettings b = contentSettings a).

Lemma afterRenderData_effects (renderData : JsValue) (w : World)
    (r : option (Outcome unit)) (w' : World) :
  generationProgress (studio w) <= 95 ->
  afterRenderData env API_BASE_URL renderData w = (r, w') ->
  (forall e, r = Some (Throws e) -> generationProgress (studio w') <= 95) /\
  untouched (studio w) (studio w') /\
  ((forall k, bodyTime env k <> None) -> r <> None).
Proof.
  intros Hprog.
  assert (Hstay : forall e : Thrown,
    (Some (Throws (A := unit) e), w) = (r, w') ->
    (forall e, r = Some (Throws e) -> generationProgress (studio w') <= 95) /\
    untouched (studio w) (studio w') /\
    ((forall k, bodyTime env k <> None) -> r <> None)).
  { intros e Hrun. injection Hrun as <- <-.
    split; [intros; exact Hprog |]. split; [repeat split |]. discriminate. }
  assert (Hmain :
    (if negb (truthy (field renderData "success")) then
       ret (Some (Throws (ThrownError "Error"
              (if truthy (field renderData "error")
               then jsMessage env (field renderData "error")
               else "Erro na renderização do vídeo"))))
     else
       let jobId := firstTruthy (field renderData "job_id") (field renderData "jobId")
                                (field renderData "task_id") (field renderData "id") in
       if truthy jobId then
         (setState (setGenerationProgress 20) ;;;
          x <- pollJob env API_BASE_URL (jsMessage env jobId) ;;
          match x with
          | None => ret None
          | Some PollCompleted =>
              setState (setGenerationProgress 100) ;;; ret (Some (Returns tt))
          | Some other => ret (Some (Throws (default syntaxError (pollThrown other))))
          end)%M
       else
         (setState (setVideoPreview
            (if truthy (field renderData "video_path")
             then field renderData "video_path"
             else field renderData "video_url")) ;;;
          ret (Some (Returns tt)))%M) w = (r, w') ->
    (forall e, r = Some (Throws e) -> generationProgress (studio w') <= 95) /\
    untouched (studio w) (studio w') /\
    ((forall k, bodyTime env k <> None) -> r <> None)).
  { destruct (negb (truthy (field renderData "success"))); [apply Hstay |].
    cbv zeta.
    destruct (truthy (firstTruthy _ _ _ _)).
    - unfold bind at 1. cbn [setState].
      set (w1 := mkWorld _ _ _ _ _).
      unfold bind at 1.
      set (jobId := jsMessage env _).
      destruct (pollJob env API_BASE_URL jobId w1) as [x w2] eqn:Hpoll.
      assert (Hends : (forall k, bodyTime env k <> None) -> x <> None).
      { intros Hbodies.
        destruct (pollLoop_ends env API_BASE_URL jobId (now w1) POLL_FUEL w1)
          as (y & w3 & Hrun & _);
          [exact Hbodies | unfold POLL_FUEL; lia
          | unfold POLL_FUEL, POLL_CEILING_MS, POLL_INTERVAL_MS; lia |].
        change (pollJob env API_BASE_URL jobId w1 = (Some y, w3)) in Hrun.
        rewrite Hrun in Hpoll. injection Hpoll as <- _. discriminate. }
      unfold pollJob, bind, dateNow in Hpoll.
      apply pollLoop_frame in Hpoll.
      destruct Hpoll as (_ & F1 & F2 & F3 & F4 & F5 & _).
      assert (P2 : generationProgress (studio w2) <= 95).
      { change (generationProgress (studio w1)) with 20 in F5. lia. }
      destruct x as [x |].
      + destruct x as [| | m | e |]; intros Hrun; injection Hrun as <- <-;
          cbn [studio setState setGenerationProgress generationProgress
               currentStep stepCompleted generatedImages contentSettings];
          (split; [intros ? Hr; first [discriminate Hr | exact P2] |]);
          (split; [repeat split; assumption | discriminate]).
      + intros Hrun. injection Hrun as <- <-.
        split; [intros ? Hr; discriminate Hr |].
        split; [repeat split; assumption |].
        intros Hbodies _. exact (Hends Hbodies eq_refl).
    - intros Hrun. injection Hrun as <- <-.
      split; [intros ? Hr; discriminate Hr |].
      split; [repeat split | discriminate]. }
  unfold afterRenderData. destruct renderData; first [apply Hstay | exact Hmain].
Qed.

Lemma renderAttempt_effects (w : World) (r : option (Outcome unit)) (w' : World) :
  renderAttempt env API_BASE_URL w = (r, w') ->
  (forall e, r = Some (Throws e) -> generationProgress (studio w') <= 95) /\
  untouched (studio w) (studio w') /\
  ((forall k, bodyTime env k <> None) -> r <> None).
Proof.
  unfold renderAttempt. unfold bind at 1. cbn [setState].
  set (w0 := mkWorld _ _ _ _ _).
  assert (P0 : generationProgress (studio w0) = 10) by reflexivity.
  assert (Hhere : forall (e : Thrown) (w1 : World),
    studio w1 = studio w0 ->
    (Some (Throws (A := unit) e), w1) = (r, w') ->
    (forall e, r = Some (Throws e) -> generationProgress (studio w') <= 95) /\
    untouched (studio w) (studio w') /\
    ((forall k, bodyTime env k <> None) -> r <> None)).
  { intros e w1 Hst1 Hrun. injection Hrun as <- <-.
    rewrite Hst1. cbn [studio w0 setGenerationProgress generationProgress currentStep
                       stepCompleted generatedImages contentSettings].
    split; [intros; lia |]. split; [repeat split | discriminate]. }
  unfold bind at 1.
  destruct (existsb isNullish (generatedImages (studio w0)));
    [apply Hhere; reflexivity |].
  destruct (negb (canSlice (prop (contentSettings (studio w0)) "script")));
    [apply Hhere; reflexivity |].
  unfold bind at 1.
  destruct (safeFetch_total env (renderUrl API_BASE_URL) DEFAULT_TIMEOUT_MS
              DEFAULT_RETRIES DEFAULT_RETRY_DELAY_BASE_MS w0)
    as (x & w1 & Hreq & _ & Hst & _).
  rewrite Hreq.
  destruct (observe x) as [response | e]; [| apply Hhere; exact Hst].
  destruct (negb (ok response)); [apply Hhere; exact Hst |].
  unfold bind at 1, readJson.
  destruct (bodyTime env (pred (fetches w1))) as [d |] eqn:Hd.
  2:{ intros Hrun. injection Hrun as <- <-.
      split; [intros ? Hr; discriminate Hr |].
      split.
      - rewrite Hst. repeat split.
      - intros Hbodies _. exact (Hbodies _ Hd). }
  destruct (body response) as [renderData |];
    [| apply Hhere; cbn [afterWait studio]; exact Hst].
  intros Hrun.
  apply afterRenderData_effects in Hrun.
  - destruct Hrun as (Hp & Hu & Hn). split; [exact Hp |].
    split; [| exact Hn].
    cbn [afterWait studio] in Hu. rewrite Hst in Hu. exact Hu.
  - cbn [afterWait studio]. rewrite Hst, P0. lia.
Qed.

End Render.

(** X5: once past its guards, the render handler comes to an end whenever
    the body of every response arrives and its success [alert] is
    dismissed; it then has thrown nothing and released the busy flag, and
    it ends either without an error banner and with one success [alert],
    or with a banner that starts with its fixed prefix, no [alert] and a
    progress of at most 95.  Stage, flags, images and configuration are
    never written. *)
Theorem render_always_settles (env : Env) (API_BASE_URL : string)
    (ui : RenderUi) (w : World) :
  truthy (prop (contentSettings (studio w)) "leonardo_motion") = true ->
  generatedImages (studio w) <> [] ->
  isRenderingVideo ui = false ->
  (forall k, bodyTime env k <> None) ->
  (forall k, dialogTime env k <> None) ->
  exists ui' w',
    handleCompleteVideoRender env API_BASE_URL ui w = (Some ui', w') /\
    isRenderingVideo ui' = false /\
    ((errorBanner ui' = None /\ alerts ui' = S (alerts ui)) \/
     (exists m, errorBanner ui' = Some ("Erro na renderização do vídeo: " +:+ m) /\
                alerts ui' = alerts ui /\
                generationProgress (studio w') <= 95)) /\
    currentStep (studio w') = currentStep (studio w) /\
    stepCompleted (studio w') = stepCompleted (studio w) /\
    generatedImages (studio w') = generatedImages (studio w) /\
    contentSettings (studio w') = contentSettings (studio w).
Proof.
  intros Hmotion Himgs Hidle Hbodies Hdialogs. unfold handleCompleteVideoRender.
  rewrite Hmotion. cbn [negb].
  destruct (generatedImages (studio w)) as [| img imgs] eqn:Hg; [contradiction |].
  cbn [length Nat.eqb]. rewrite Hidle.
  destruct (renderAttempt env API_BASE_URL w) as [r w'] eqn:Hrun.
  apply renderAttempt_effects in Hrun.
  destruct Hrun as (Hp & (U1 & U2 & U3 & U4) & Hn).
  rewrite Hg in U3.
  destruct r as [[[] | e] |]; [| | exfalso; exact (Hn Hbodies eq_refl)].
  - unfold alert.
    destruct (dialogTime env (alerts ui)) as [d |] eqn:Hd;
      [| exfalso; exact (Hdialogs _ Hd)].
    eexists _, _. split; [reflexivity |].
    cbn [isRenderingVideo errorBanner alerts afterWait studio].
    repeat split; try assumption. left. split; reflexivity.
  - eexists _, _. split; [reflexivity |]. cbn [isRenderingVideo errorBanner alerts].
    repeat split; try assumption. right.
    exists (errorMessageOf e). repeat split. apply (Hp e). reflexivity.
Qed.

Lemma render_always_settles_witness :
  exists ui' w',
    handleCompleteVideoRender envRenderJob "https://x.com/api" idleUi worldReady
      = (Some ui', w') /\
    isRenderingVideo ui' = false /\
    ((errorBanner ui' = None /\ alerts ui' = S (alerts idleUi)) \/
     (exists m, errorBanner ui' = Some ("Erro na renderização do vídeo: " +:+ m) /\
                alerts ui' = alerts idleUi /\
                generationProgress (studio w') <= 95)) /\
    currentStep (studio w') = currentStep (studio worldReady) /\
    stepCompleted (studio w') = stepCompleted (studio worldReady) /\
    generatedImages (studio w') = generatedImages (studio worldReady) /\
    contentSettings (studio w') = contentSettings (studio worldReady).
Proof.
  apply (render_always_settles envRenderJob "https://x.com/api" idleUi worldReady).
  - vm_compute. reflexivity.
  - discriminate.
  - reflexivity.
  - intros k. discriminate.
  - intros k. discriminate.
Defined.

(** A render whose status endpoint never sends a body does not come to an
    end: the busy flag set on entry is not released. *)
Example render_suspended_on_body :
  fst (handleCompleteVideoRender envRenderStalls "https://x.com/api" idleUi worldReady)
    = None.
Proof. vm_compute. reflexivity. Qed.

(** A job started and completed at its second status check: progress 100,
    the preview set, one [alert], no banner. *)
Example render_job_run :
  handleCompleteVideoRender envRenderJob "https://x.com/api" idleUi worldReady =
  (Some (mkRenderUi None false 1),
   mkWorld 3360 3 0 [1500; 1500]
     (setVideoPreview (JStr "/media/video/v.mp4")
        (setGenerationProgress 100 studioReady))).
Proof. vm_compute. reflexivity. Qed.

(** X6: without a motion style, without images, or while a render is
    already running, the handler sends no request and changes nothing of
    the world: it only sets the matching error banner, or, when merely
    busy, does nothing at all. *)
Theorem render_guards_send_nothing (env : Env) (API_BASE_URL : string)
    (ui : RenderUi) (w : World) :
  truthy (prop (contentSettings (studio w)) "leonardo_motion") = false \/
  generatedImages (studio w) = [] \/
  isRenderingVideo ui = true ->
  exists ui',
    handleCompleteVideoRender env API_BASE_URL ui w = (Some ui', w) /\
    isRenderingVideo ui' = isRenderingVideo ui /\
    alerts ui' = alerts ui /\
    (truthy (prop (contentSettings (studio w)) "leonardo_motion") = false ->
       errorBanner ui' = Some "Selecione um estilo de movimento para continuar.") /\
    (truthy (prop (contentSettings (studio w)) "leonardo_motion") = true ->
     generatedImages (studio w) = [] ->
       errorBanner ui' = Some "Nenhuma imagem disponível para renderização.") /\
    (truthy (prop (contentSettings (studio w)) "leonardo_motion") = true ->
     generatedImages (studio w) <> [] -> ui' = ui).
Proof.
  intros Hguard. unfold handleCompleteVideoRender.
  destruct (truthy (prop (contentSettings (studio w)) "leonardo_motion")) eqn:Hm;
    cbn [negb].
  - destruct (generatedImages (studio w)) as [| img imgs] eqn:Hg; cbn [length Nat.eqb].
    + eexists. split; [reflexivity |]. cbn [isRenderingVideo alerts errorBanner].
      split; [reflexivity |]. split; [reflexivity |].
      split; [discriminate |]. split; [reflexivity |].
      intros _ H. contradiction.
    + destruct Hguard as [H | [H | H]]; try discriminate.
      rewrite H. exists ui.
      split; [reflexivity |]. split; [exact H |]. split; [reflexivity |].
      split; [discriminate |]. split; [discriminate | reflexivity].
  - eexists. split; [reflexivity |]. cbn [isRenderingVideo alerts errorBanner].
    split; [reflexivity |]. split; [reflexivity |].
    split; [reflexivity |]. split; discriminate.
Qed.

Lemma render_guards_send_nothing_witness :
  exists ui',
    handleCompleteVideoRender envRenderJob "https://x.com/api" idleUi world0
      = (Some ui', world0) /\
    isRenderingVideo ui' = isRenderingVideo idleUi /\
    alerts ui' = alerts idleUi /\
    errorBanner ui' = Some "Selecione um estilo de movimento para continuar.".
Proof.
  destruct (render_guards_send_nothing envRenderJob "https://x.com/api" idleUi world0)
    as (ui' & Hrun & Hbusy & Halerts & Hmotion & _).
  - left. vm_compute. reflexivity.
  - exists ui'. repeat split; try assumption. apply Hmotion. vm_compute. reflexivity.
Defined.

(** ** Wizard: what every control preserves *)

Lemma arraySet_in_range (a : list JsValue) (i : Z) (v : JsValue) :
  0 <= i < Z.of_nat (length a) ->
  arraySet a i v = <[Z.to_nat i := v]> a.
Proof.
  intros Hi. unfold arraySet.
  replace (i <? 0) with false by (symmetry; apply Z.ltb_ge; lia).
  replace (Z.to_nat i <? length a)%nat with true
    by (symmetry; apply Nat.ltb_lt; lia).
  reflexivity.
Qed.

Lemma flags_wellFormed_set (flags : list JsValue) (i : Z) :
  length flags = 6%nat ->
  Forall (fun v => exists b, v = JBool b) flags ->
  0 <= i < 6 ->
  length (arraySet flags i (JBool true)) = 6%nat /\
  Forall (fun v => exists b, v = JBool b) (arraySet flags i (JBool true)).
Proof.
  intros Hlen Hall Hi. rewrite arraySet_in_range by lia.
  split.
  - rewrite length_insert. exact Hlen.
  - apply Forall_insert; [exact Hall | eauto].
Qed.

Lemma completeStep_wellFormed (N : Z) (st : Studio) :
  1 <= N <= 6 -> wizardWellFormed st -> wizardWellFormed (completeStep N st).
Proof.
  intros HN (Hcur & Hlen & Hall).
  destruct (flags_wellFormed_set (stepCompleted st) (N - 1) Hlen Hall) as [L A]; [lia |].
  unfold wizardWellFormed, completeStep.
  destruct (N <? 6) eqn:H6; cbn [setCurrentStep setStepCompleted currentStep stepCompleted].
  - apply Z.ltb_lt in H6. repeat split; [lia | lia | exact L | exact A].
  - repeat split; [lia | lia | exact L | exact A].
Qed.

Lemma renderSeen_wellFormed (past : list Studio) (st : Studio) (age : nat) :
  Forall wizardWellFormed past -> wizardWellFormed st ->
  wizardWellFormed (renderSeen past st age).
Proof.
  revert past st. induction age as [| age IH]; intros past st Hpast Hwf.
  - destruct past; exact Hwf.
  - destruct past as [| prev older]; [exact Hwf |].
    cbn [renderSeen]. inversion Hpast; subst. apply IH; assumption.
Qed.

(** With nothing in between, the handlers of an older render are those of
    the current one. *)
Lemma handlers_of_current_render (st : Studio) (N : Z) (result : JsValue) :
  markStepAsCompletedFrom st N st = markStepAsCompleted N st /\
  completeStepFrom st N st = completeStep N st /\
  onSelectCompleteFrom st result st = onSelectComplete result st.
Proof.
  split; [reflexivity |]. split; [reflexivity |].
  unfold onSelectCompleteFrom, onSelectComplete.
  destruct (truthy (field result "audio_url")); reflexivity.
Qed.

Lemma wizardStep_wellFormed (past : list Studio) (ev : WizardEvent) (st : Studio) :
  Forall wizardWellFormed past ->
  wizardWellFormed st -> wizardWellFormed (wizardStep past ev st).
Proof.
  intros Hpast Hwf. pose proof Hwf as (Hcur & Hlen & Hall).
  destruct ev as [| stepId | | age | age result]; cbn [wizardStep].
  - unfold advanceClick. destruct (currentStep st <? 6); [| exact Hwf].
    destruct (canCompleteCurrentStep st) as [[|] |]; try exact Hwf.
    apply completeStep_wellFormed; [lia | exact Hwf].
  - destruct (existsb (Z.eqb stepId) workflowStepIds) eqn:Hid; [| exact Hwf].
    apply existsb_exists in Hid as (x & Hin & Heq). apply Z.eqb_eq in Heq. subst x.
    assert (1 <= stepId <= 6).
    { cbn in Hin. repeat (destruct Hin as [<- | Hin]; [lia |]). contradiction. }
    unfold stepTabClick, goToStep.
    destruct (isStepAccessible stepId st); [| exact Hwf].
    destruct ((stepId =? 1) || truthy (arrayGet (stepCompleted st) (stepId - 2)));
      [| exact Hwf].
    unfold wizardWellFormed. cbn. repeat split; [lia | lia | exact Hlen | exact Hall].
  - unfold backClick. destruct (currentStep st =? 1); [exact Hwf |].
    unfold wizardWellFormed. cbn. repeat split; [lia | lia | exact Hlen | exact Hall].
  - destruct (renderSeen_wellFormed past st age Hpast Hwf) as (_ & Clen & Call).
    destruct (flags_wellFormed_set (stepCompleted (renderSeen past st age)) (3 - 1)
                Clen Call) as [L A]; [lia |].
    unfold wizardWellFormed, markStepAsCompletedFrom.
    cbn [setStepCompleted currentStep stepCompleted].
    repeat split; [lia | lia | exact L | exact A].
  - destruct (renderSeen_wellFormed past st age Hpast Hwf) as (_ & Clen & Call).
    destruct (flags_wellFormed_set (stepCompleted (renderSeen past st age)) (2 - 1)
                Clen Call) as [L A]; [lia |].
    unfold onSelectCompleteFrom.
    destruct (truthy (field result "audio_url")); [| exact Hwf].
    unfold wizardWellFormed, completeStepFrom.
    cbn [Z.ltb Z.compare Pos.compare Pos.compare_cont
         setCurrentStep setStepCompleted currentStep stepCompleted].
    repeat split; [lia | lia | exact L | exact A].
Qed.

Lemma wizardRunFrom_wellFormed (evs : list WizardEvent) :
  forall (past : list Studio) (st : Studio),
    Forall wizardWellFormed past -> wizardWellFormed st ->
    wizardWellFormed (wizardRunFrom past evs st).
Proof.
  induction evs as [| ev evs IH]; intros past st Hpast Hwf; [exact Hwf |].
  cbn [wizardRunFrom]. apply IH.
  - constructor; assumption.
  - apply wizardStep_wellFormed; assumption.
Qed.

(** X7: whatever sequence of controls is used, from a wizard whose current
    stage is within 1..6 and whose flags are six booleans, the current
    stage stays within 1..6 and the flags stay six booleans; this holds in
    particular of every state reached from the initial one. *)
Theorem wizard_stays_wellFormed (evs : list WizardEvent) (st : Studio) :
  wizardWellFormed st ->
  wizardWellFormed (wizardRun evs st) /\
  (forall cs, wizardWellFormed (wizardRun evs (initialStudio cs))).
Proof.
  intros Hwf. split.
  - apply wizardRunFrom_wellFormed; [constructor | exact Hwf].
  - intros cs. apply wizardRunFrom_wellFormed; [constructor |].
    unfold wizardWellFormed, initialStudio. cbn.
    repeat split; [lia | lia |].
    repeat econstructor.
Qed.

Lemma wizard_stays_wellFormed_witness :
  wizardWellFormed
    (wizardRun [ClickAdvance; AudioSelected 0 audioResult; ClickTab 2;
                ImagesGenerated 2; ClickTab 4; ClickBack; ClickTab 9]
               studioWithScript).
Proof.
  apply (wizard_stays_wellFormed
           [ClickAdvance; AudioSelected 0 audioResult; ClickTab 2;
            ImagesGenerated 2; ClickTab 4; ClickBack; ClickTab 9] studioWithScript).
  unfold wizardWellFormed. cbn. repeat split; [lia | lia |].
  repeat econstructor.
Defined.

Example wizard_run_example :
  currentStep
    (wizardRun [ClickAdvance; AudioSelected 0 audioResult; ImagesGenerated 0;
                ClickTab 4; ClickBack; ClickTab 9] studioWithScript) = 3 /\
  stepCompleted
    (wizardRun [ClickAdvance; AudioSelected 0 audioResult; ImagesGenerated 0;
                ClickTab 4; ClickBack; ClickTab 9] studioWithScript)
  = [JBool true; JBool true; JBool true; JBool false; JBool false; JBool false].
Proof. vm_compute. split; reflexivity. Qed.

Lemma completeStep_keeps_flags (N : Z) (st : Studio) (i : Z) :
  truthy (arrayGet (stepCompleted st) i) = true ->
  truthy (arrayGet (stepCompleted (completeStep N st)) i) = true.
Proof.
  intros Hi.
  assert (Hset : forall a, truthy (arrayGet a i) = true ->
            truthy (arrayGet (arraySet a (N - 1) (JBool true)) i) = true).
  { intros a Ha. destruct (Z.eq_dec (N - 1) i) as [<- | Hne].
    - destruct (Z_lt_ge_dec (N - 1) 0) as [Hneg | Hpos].
      + unfold arraySet. replace (N - 1 <? 0) with true
          by (symmetry; apply Z.ltb_lt; lia). exact Ha.
      + rewrite arrayGet_arraySet_same by lia. reflexivity.
    - rewrite arrayGet_arraySet_other by exact Hne. exact Ha. }
  unfold completeStep. destruct (N <? 6); cbn; apply Hset; exact Hi.
Qed.

Lemma wizardStep_keeps_flags (past : list Studio) (ev : WizardEvent) (st : Studio)
    (i : Z) :
  landsAtOnce ev = true ->
  truthy (arrayGet (stepCompleted st) i) = true ->
  truthy (arrayGet (stepCompleted (wizardStep past ev st)) i) = true.
Proof.
  intros Hnow Hi. destruct ev as [| stepId | | age | age result]; cbn [wizardStep].
  - unfold advanceClick. destruct (currentStep st <? 6); [| exact Hi].
    destruct (canCompleteCurrentStep st) as [[|] |]; try exact Hi.
    apply completeStep_keeps_flags. exact Hi.
  - destruct (existsb (Z.eqb stepId) workflowStepIds); [| exact Hi].
    unfold stepTabClick, goToStep.
    destruct (isStepAccessible stepId st); [| exact Hi].
    destruct ((stepId =? 1) || truthy (arrayGet (stepCompleted st) (stepId - 2)));
      exact Hi.
  - unfold backClick. destruct (currentStep st =? 1); exact Hi.
  - cbn [landsAtOnce] in Hnow. apply Nat.eqb_eq in Hnow. subst age.
    replace (renderSeen past st 0) with st by (destruct past; reflexivity).
    pose proof (completeStep_keeps_flags 3 st i Hi) as H.
    unfold completeStep in H. cbn in H. exact H.
  - cbn [landsAtOnce] in Hnow. apply Nat.eqb_eq in Hnow. subst age.
    replace (renderSeen past st 0) with st by (destruct past; reflexivity).
    destruct (handlers_of_current_render st 2 result) as (_ & _ & ->).
    unfold onSelectComplete. destruct (truthy (field result "audio_url")); [| exact Hi].
    cbn [setCurrentStep setStepCompleted stepCompleted].
    apply completeStep_keeps_flags. exact Hi.
Qed.

(** X8: a completion handled by the render on screen never clears a
    completion flag, and no navigation control does: through any sequence
    of controls in which every asynchronous completion (images generated,
    audio selected) lands before anything else happens, a completed stage
    stays completed and an accessible stage stays accessible. *)
Theorem wizard_never_relocks (evs : list WizardEvent) (st : Studio) :
  forallb landsAtOnce evs = true ->
  (forall i, truthy (arrayGet (stepCompleted st) i) = true ->
     truthy (arrayGet (stepCompleted (wizardRun evs st)) i) = true) /\
  (forall M, isStepAccessible M st = true ->
     isStepAccessible M (wizardRun evs st) = true).
Proof.
  assert (Hflags : forall evs past st i,
            forallb landsAtOnce evs = true ->
            truthy (arrayGet (stepCompleted st) i) = true ->
            truthy (arrayGet (stepCompleted (wizardRunFrom past evs st)) i) = true).
  { clear. induction evs as [| ev evs IH]; intros past st i Hnow Hi; [exact Hi |].
    cbn [forallb] in Hnow. apply andb_true_iff in Hnow as [Hev Hrest].
    cbn [wizardRunFrom]. apply IH; [exact Hrest |].
    apply wizardStep_keeps_flags; assumption. }
  intros Hnow. split; [intros i; apply Hflags; exact Hnow |].
  intros M. unfold isStepAccessible. rewrite !orb_true_iff.
  intros [H1 | Hf]; [left; exact H1 | right; apply Hflags; assumption].
Qed.

Lemma wizard_never_relocks_witness :
  truthy (arrayGet (stepCompleted
            (wizardRun [ClickBack; ClickTab 1; ImagesGenerated 0] studioAtAudio)) 0)
    = true /\
  isStepAccessible 2 (wizardRun [ClickBack; ClickTab 1; ImagesGenerated 0] studioAtAudio)
    = true.
Proof.
  destruct (wizard_never_relocks [ClickBack; ClickTab 1; ImagesGenerated 0]
              studioAtAudio) as [Hflag Hacc]; [reflexivity |].
  split; [apply Hflag; reflexivity | apply Hacc; reflexivity].
Defined.

(** A completion that lands late does clear a flag: the images are
    requested with stages 1 to 3 done, stage 4 is completed while they are
    generated, and [markStepAsCompleted(3)] then writes back the flags of
    the render that started the request.  Stage 5, on screen, is no longer
    accessible. *)
Example late_completion_relocks :
  stepCompleted (wizardRun [ClickAdvance] studioAtSubtitles)
    = [JBool true; JBool true; JBool true; JBool true; JBool false; JBool false] /\
  isStepAccessible 5 (wizardRun [ClickAdvance] studioAtSubtitles) = true /\
  stepCompleted (wizardRun [ClickAdvance; ImagesGenerated 1] studioAtSubtitles)
    = [JBool true; JBool true; JBool true; JBool false; JBool false; JBool false] /\
  currentStep (wizardRun [ClickAdvance; ImagesGenerated 1] studioAtSubtitles) = 5 /\
  isStepAccessible 5 (wizardRun [ClickAdvance; ImagesGenerated 1] studioAtSubtitles)
    = false.
Proof. vm_compute. repeat split. Qed.

(** X9: completing stage [N] unlocks stage [N + 1]: it is accessible right
    away, it is where [completeStep] lands for [N < 6], and after going
    back its tab leads there again; [markStepAsCompleted] unlocks it too,
    without moving. *)
Theorem completing_unlocks_next (N : Z) (st : Studio) :
  1 <= N ->
  isStepAccessible (N + 1) (completeStep N st) = true /\
  isStepAccessible (N + 1) (markStepAsCompleted N st) = true /\
  currentStep (markStepAsCompleted N st) = currentStep st /\
  (N < 6 ->
     currentStep (completeStep N st) = N + 1 /\
     currentStep (backClick (completeStep N st)) = N /\
     currentStep (stepTabClick (N + 1) (backClick (completeStep N st))) = N + 1).
Proof.
  intros HN.
  assert (Hflag : forall a, truthy (arrayGet (arraySet a (N - 1) (JBool true))
                                             (N + 1 - 2)) = true).
  { intros a. replace (N + 1 - 2) with (N - 1) by lia.
    rewrite arrayGet_arraySet_same by lia. reflexivity. }
  assert (Hacc : isStepAccessible (N + 1) (completeStep N st) = true).
  { unfold isStepAccessible, completeStep.
    destruct (N <? 6); cbn; rewrite Hflag; apply orb_true_r. }
  split; [exact Hacc |].
  split.
  { unfold isStepAccessible, markStepAsCompleted. cbn. rewrite Hflag. apply orb_true_r. }
  split; [reflexivity |].
  intros H6.
  assert (Hcur : currentStep (completeStep N st) = N + 1).
  { unfold completeStep. apply Z.ltb_lt in H6. rewrite H6. reflexivity. }
  split; [exact Hcur |].
  assert (Hback : backClick (completeStep N st) = setCurrentStep N (completeStep N st)).
  { unfold backClick. rewrite Hcur.
    replace (N + 1 =? 1) with false by (symmetry; apply Z.eqb_neq; lia).
    replace (Z.max 1 (N + 1 - 1)) with N by lia. reflexivity. }
  split; [rewrite Hback; reflexivity |].
  rewrite Hback.
  assert (Hacc' : isStepAccessible (N + 1) (setCurrentStep N (completeStep N st)) = true)
    by exact Hacc.
  unfold stepTabClick. rewrite Hacc'.
  unfold goToStep. unfold isStepAccessible in Hacc'. rewrite Hacc'. reflexivity.
Qed.

Lemma completing_unlocks_next_witness :
  isStepAccessible (1 + 1) (completeStep 1 studioWithScript) = true /\
  isStepAccessible (1 + 1) (markStepAsCompleted 1 studioWithScript) = true /\
  currentStep (markStepAsCompleted 1 studioWithScript) = currentStep studioWithScript /\
  currentStep (completeStep 1 studioWithScript) = 1 + 1 /\
  currentStep (backClick (completeStep 1 studioWithScript)) = 1 /\
  currentStep (stepTabClick (1 + 1) (backClick (completeStep 1 studioWithScript))) = 1 + 1.
Proof.
  destruct (completing_unlocks_next 1 studioWithScript) as (H1 & H2 & H3 & H4); [lia |].
  destruct H4 as (H4 & H5 & H6); [lia |].
  repeat split; assumption.
Defined.

(** ** Snapshot persistence: what is stored and what a reload resumes *)

Lemma assoc_last_cloneFields_absent (fs : list (string * JsValue)) (k : string) :
  ~ In k (List.map fst fs) -> assoc_last k (cloneFields fs) = None.
Proof.
  induction fs as [| [k' v] fs IH]; intros Hnot; [reflexivity |].
  cbn [cloneFields].
  assert (Hne : k <> k') by (intros ->; apply Hnot; left; reflexivity).
  assert (Hrest : ~ In k (List.map fst fs)) by (intros H; apply Hnot; right; exact H).
  destruct (jsonClone v).
  - cbn [assoc_last]. rewrite IH by exact Hrest.
    apply String.eqb_neq in Hne. rewrite Hne. reflexivity.
  - apply IH. exact Hrest.
Qed.

(** X10: whatever the configuration holds, the snapshot written to storage
    carries no setting outside the fourteen persisted keys, and no member
    besides the four of the payload. *)
Theorem snapshot_stores_only_persisted (st : Studio) (storage : Storage) :
  exists parsed,
    persist true st storage = Some (Some parsed) /\
    (forall k, ~ In k persistedKeys ->
       field (field parsed "settings") k = JUndefined) /\
    (forall k, ~ In k ["settings"; "generatedImages"; "videoPreview"; "stepCompleted"] ->
       field parsed k = JUndefined).
Proof.
  unfold persist.
  exists (JObj (cloneFields
      [ ("settings", settingsPayload (contentSettings st));
        ("generatedImages", JArr (generatedImages st));
        ("videoPreview", videoPreview st);
        ("stepCompleted", JArr (stepCompleted st)) ])).
  split; [reflexivity |]. split.
  - intros k Hk.
    assert (Hset : field (JObj (cloneFields
        [ ("settings", settingsPayload (contentSettings st));
          ("generatedImages", JArr (generatedImages st));
          ("videoPreview", videoPreview st);
          ("stepCompleted", JArr (stepCompleted st)) ])) "settings" =
        JObj (cloneFields (List.map (fun k => (k, prop (contentSettings st) k))
                                    persistedKeys))).
    { cbn [cloneFields]. unfold settingsPayload. rewrite jsonClone_obj.
      cbn [jsonClone].
      destruct (jsonClone (videoPreview st)); reflexivity. }
    rewrite Hset. unfold field.
    rewrite assoc_last_cloned_absent by exact Hk. reflexivity.
  - intros k Hk. unfold field.
    rewrite assoc_last_cloneFields_absent by exact Hk. reflexivity.
Qed.

Lemma snapshot_stores_only_persisted_witness :
  exists parsed,
    persist true savedStudio None = Some (Some parsed) /\
    field (field parsed "settings") "topic" = JUndefined /\
    field parsed "currentStep" = JUndefined.
Proof.
  destruct (snapshot_stores_only_persisted savedStudio None)
    as (parsed & Hrun & Hkeys & Hmembers).
  exists parsed. split; [exact Hrun |]. split.
  - apply Hkeys. cbn. intros H.
    repeat (destruct H as [H | H]; [discriminate H |]). exact H.
  - apply Hmembers. cbn. intros H.
    repeat (destruct H as [H | H]; [discriminate H |]). exact H.
Defined.

Lemma booleans_jsonExact (flags : list JsValue) :
  Forall (fun v => exists b, v = JBool b) flags -> jsonExact (JArr flags).
Proof.
  intros Hall. unfold jsonExact. cbn [jsonClone]. f_equal. f_equal.
  induction Hall as [| v flags [b ->] _ IH]; [reflexivity |].
  cbn. rewrite IH. reflexivity.
Qed.

(** X11: a reload resumes the wizard: after a snapshot of a well-formed
    wizard is written and read back in a fresh session, the flags are those
    of the saved session, the session starts on the fresh session's stage,
    and the tab of any stage that was accessible when saved leads to it. *)
Theorem reload_resumes (saved fresh : Studio) (storage : Storage) (M : Z) :
  wizardWellFormed saved ->
  isStepAccessible M saved = true ->
  stepCompleted (rehydrate (persist true saved storage) fresh) = stepCompleted saved /\
  currentStep (rehydrate (persist true saved storage) fresh) = currentStep fresh /\
  currentStep (stepTabClick M (rehydrate (persist true saved storage) fresh)) = M.
Proof.
  intros (_ & _ & Hbool) Hacc. unfold persist, rehydrate.
  destruct (snapshot_members saved) as (parsed & Hclone & Hobj & _ & _ & _ & Hflags).
  rewrite Hclone.
  destruct (applySnapshot_members parsed fresh Hobj) as (_ & _ & _ & Hsc & Hstep).
  rewrite Hflags in Hsc.
  rewrite (jsonExact_array _ (booleans_jsonExact _ Hbool)) in Hsc.
  split; [exact Hsc |]. split; [exact Hstep |].
  assert (Hacc' : isStepAccessible M (applySnapshot parsed fresh) = true).
  { unfold isStepAccessible in *. rewrite Hsc. exact Hacc. }
  unfold stepTabClick. rewrite Hacc'. unfold goToStep.
  unfold isStepAccessible in Hacc'. rewrite Hacc'. reflexivity.
Qed.

Lemma reload_resumes_witness :
  stepCompleted (rehydrate (persist true savedStudio None) freshStudio)
    = stepCompleted savedStudio /\
  currentStep (rehydrate (persist true savedStudio None) freshStudio)
    = currentStep freshStudio /\
  currentStep (stepTabClick 3 (rehydrate (persist true savedStudio None) freshStudio)) = 3.
Proof.
  apply (reload_resumes savedStudio freshStudio None 3).
  - unfold wizardWellFormed. cbn. repeat split; [lia | lia |]. repeat econstructor.
  - reflexivity.
Defined.

(** X12: a store that holds no snapshot object (no item, a text that does
    not parse, [null], a boolean or a number) leaves the session exactly as
    it was; so does a write that the storage refuses, for the store. *)
Theorem rehydrate_ignores_non_objects (stored : Storage) (st : Studio) :
  stored = None \/ stored = Some None \/ stored = Some (Some JNull) \/
  (exists b, stored = Some (Some (JBool b))) \/
  (exists n, stored = Some (Some (JNum n))) ->
  rehydrate stored st = st /\
  (forall other, persist false other stored = stored).
Proof.
  intros Hcase. split; [| reflexivity].
  assert (Hid : onSettingsChange (spread JUndefined ∪ contentSettings st) st = st).
  { cbn [spread]. rewrite (left_id_L ∅ (∪)). destruct st. reflexivity. }
  destruct Hcase as [-> | [-> | [-> | [[b ->] | [n ->]]]]]; try reflexivity;
    cbn [rehydrate applySnapshot field]; exact Hid.
Qed.

Lemma rehydrate_ignores_non_objects_witness :
  rehydrate (Some (Some (JNum 7))) savedStudio = savedStudio /\
  rehydrate None savedStudio = savedStudio.
Proof.
  split.
  - apply (rehydrate_ignores_non_objects (Some (Some (JNum 7))) savedStudio).
    right. right. right. right. exists 7. reflexivity.
  - apply (rehydrate_ignores_non_objects None savedStudio). left. reflexivity.
Defined.

(** ** Script text for speech *)

Lemma rev_app_append (s acc : string) :
  String.rev_app s acc = String.rev_app s "" +:+ acc.
Proof.
  revert acc. induction s as [| c s IH]; intros acc; [reflexivity |].
  cbn [String.rev_app]. rewrite (IH (String c acc)), (IH (String c "")).
  rewrite append_assoc. reflexivity.
Qed.

Lemma rev_cons (c : ascii) (s : string) :
  String.rev (String c s) = String.rev s +:+ String c "".
Proof. unfold String.rev. cbn [String.rev_app]. apply rev_app_append. Qed.

Lemma rev_snoc (s : string) (c : ascii) :
  String.rev (s +:+ String c "") = String c (String.rev s).
Proof.
  induction s as [| d s IH]; [reflexivity |].
  change (String d s +:+ String c "") with (String d (s +:+ String c "")).
  rewrite !rev_cons, IH. reflexivity.
Qed.

Lemma trimStart_snoc (s : string) (c : ascii) :
  trimStart (s +:+ String c "") =
  match trimStart s with
  | EmptyString => if isWhiteSpace c then "" else String c ""
  | _ => trimStart s +:+ String c ""
  end.
Proof.
  induction s as [| d s IH]; [reflexivity |].
  change (String d s +:+ String c "") with (String d (s +:+ String c "")).
  cbn [trimStart]. destruct (isWhiteSpace d); [exact IH | reflexivity].
Qed.

(** [trimEnd], by recursion on the text. *)
Lemma trimEnd_cons (c : ascii) (s : string) :
  trimEnd (String c s) =
  match trimEnd s with
  | EmptyString => if isWhiteSpace c then "" else String c ""
  | _ => String c (trimEnd s)
  end.
Proof.
  unfold trimEnd. rewrite rev_cons, trimStart_snoc.
  destruct (trimStart (String.rev s)) as [| d t] eqn:Ht.
  - destruct (isWhiteSpace c); reflexivity.
  - rewrite rev_snoc.
    destruct (String.rev (String d t)) as [| e u] eqn:Hr; [| reflexivity].
    rewrite rev_cons in Hr. destruct (String.rev t); discriminate Hr.
Qed.

Lemma startsWith_char (c d : ascii) (s : string) :
  startsWith (String c s) (String d "") = Ascii.eqb c d.
Proof.
  unfold startsWith. cbn [String.prefix].
  destruct (ascii_dec d c) as [-> | Hne].
  - rewrite Ascii.eqb_refl. destruct s; reflexivity.
  - symmetry. apply Ascii.eqb_neq. congruence.
Qed.

Lemma trimEnd_empty : trimEnd "" = "".
Proof. reflexivity. Qed.

Lemma trimEnd_shape (s : string) :
  endsWithSpace (trimEnd s) = false /\
  (startsWithSpace s = false -> startsWithSpace (trimEnd s) = false) /\
  (spacesTidy s = true -> spacesTidy (trimEnd s) = true) /\
  (tagFree s = true -> tagFree (trimEnd s) = true) /\
  (hasChar "]" (trimEnd s) = true -> hasChar "]" s = true) /\
  (startsWith s "]" = true -> startsWith (trimEnd s) "]" = true) /\
  (endsWithSpace s = false -> trimEnd s = s).
Proof.
  induction s as [| c s (IHe & IHs & IHt & IHg & IHh & IHb & IHi)].
  - repeat split; auto.
  - rewrite trimEnd_cons.
    destruct (trimEnd s) as [| d t] eqn:Ht.
    + destruct (isWhiteSpace c) eqn:Hc.
      * repeat split; auto; try discriminate.
        -- intros Hb. rewrite startsWith_char in Hb.
           apply Ascii.eqb_eq in Hb. subst c. vm_compute in Hc. discriminate Hc.
        -- intros He. destruct s as [| e s']; [cbn in He; congruence |].
           cbn [endsWithSpace] in He. specialize (IHi He). discriminate IHi.
      * split; [cbn; exact Hc |].
        split; [intros _; cbn; exact Hc |].
        split; [intros _; cbn; rewrite Hc; reflexivity |].
        split.
        { intros Hg. cbn [tagFree] in *. destruct (Ascii.eqb c "["); reflexivity. }
        split.
        { intros Hh. cbn [hasChar] in *. rewrite orb_false_r in Hh.
          rewrite Hh. reflexivity. }
        split.
        { intros Hb. rewrite startsWith_char in *. exact Hb. }
        intros He. destruct s as [| e s']; [reflexivity |].
        cbn [endsWithSpace] in He. specialize (IHi He). discriminate IHi.
    + split; [exact IHe |].
      split; [intros H; exact H |].
      split.
      { intros Htidy. cbn [spacesTidy] in *.
        apply andb_true_iff in Htidy as [Hhead Hrest].
        rewrite (IHt Hrest), andb_true_r.
        destruct (isWhiteSpace c); [| reflexivity].
        apply andb_true_iff in Hhead as [Heq Hnext]. rewrite Heq. cbn [andb].
        apply negb_true_iff in Hnext. rewrite (IHs Hnext). reflexivity. }
      split.
      { intros Hg. cbn [tagFree] in *.
        apply andb_true_iff in Hg as [Hhead Hrest].
        rewrite (IHg Hrest), andb_true_r.
        destruct (Ascii.eqb c "["); [| reflexivity].
        apply orb_true_iff in Hhead as [Hb | Hn].
        - rewrite (IHb Hb). reflexivity.
        - apply orb_true_iff. right. apply negb_true_iff.
          apply negb_true_iff in Hn.
          destruct (hasChar "]" (String d t)) eqn:Hh; [| reflexivity].
          rewrite (IHh eq_refl) in Hn. discriminate Hn. }
      split.
      { intros Hh. cbn [hasChar] in *. apply orb_true_iff in Hh as [Hh | Hh].
        - rewrite Hh. reflexivity.
        - rewrite (IHh Hh). apply orb_true_r. }
      split.
      { intros Hb. rewrite startsWith_char in *. exact Hb. }
      intros He. destruct s as [| e s']; [discriminate Ht |].
      cbn [endsWithSpace] in He. rewrite (IHi He). reflexivity.
Qed.

Lemma whitespace_not_bracket (c : ascii) :
  isWhiteSpace c = true -> Ascii.eqb c "]" = false /\ Ascii.eqb c "[" = false.
Proof.
  intros Hc. split.
  - destruct (Ascii.eqb_spec c "]") as [-> |]; [vm_compute in Hc; discriminate Hc | reflexivity].
  - destruct (Ascii.eqb_spec c "[") as [-> |]; [vm_compute in Hc; discriminate Hc | reflexivity].
Qed.

Lemma tagFree_tail (c : ascii) (s : string) :
  tagFree (String c s) = true -> tagFree s = true.
Proof. cbn [tagFree]. intros H. apply andb_true_iff in H. apply H. Qed.

Lemma spacesTidy_tail (c : ascii) (s : string) :
  spacesTidy (String c s) = true -> spacesTidy s = true.
Proof. cbn [spacesTidy]. intros H. apply andb_true_iff in H. apply H. Qed.

Lemma trimStart_shape (s : string) :
  startsWithSpace (trimStart s) = false /\
  (spacesTidy s = true -> spacesTidy (trimStart s) = true) /\
  (tagFree s = true -> tagFree (trimStart s) = true) /\
  (startsWithSpace s = false -> trimStart s = s).
Proof.
  induction s as [| c s (IH1 & IH2 & IH3 & IH4)]; [repeat split; auto |].
  cbn [trimStart]. destruct (isWhiteSpace c) eqn:Hc.
  - split; [exact IH1 |].
    split; [intros H; apply IH2; eapply spacesTidy_tail; exact H |].
    split; [intros H; apply IH3; eapply tagFree_tail; exact H |].
    cbn [startsWithSpace]. congruence.
  - split; [cbn; exact Hc |]. repeat split; auto.
Qed.

Lemma collapse_shape (s : string) :
  forall b,
    spacesTidy (collapseFrom b s) = true /\
    startsWithSpace (collapseFrom true s) = false /\
    hasChar "]" (collapseFrom b s) = hasChar "]" s /\
    (startsWith s "]" = true -> startsWith (collapseFrom b s) "]" = true) /\
    (tagFree s = true -> tagFree (collapseFrom b s) = true).
Proof.
  induction s as [| c s IH]; intros b; [repeat split; auto |].
  destruct (IH true) as (T1 & T2 & T3 & T4 & T5).
  destruct (IH false) as (F1 & _ & F3 & F4 & F5).
  cbn [collapseFrom]. destruct (isWhiteSpace c) eqn:Hc.
  - destruct (whitespace_not_bracket c Hc) as [Hclose Hopen].
    assert (Hhas : hasChar "]" (String c s) = hasChar "]" s)
      by (cbn [hasChar]; rewrite Hclose; reflexivity).
    assert (Hnot : startsWith (String c s) "]" = false)
      by (rewrite startsWith_char; exact Hclose).
    assert (Hfree : tagFree (String c s) = tagFree s)
      by (cbn [tagFree]; rewrite Hopen; reflexivity).
    split.
    { destruct b; [exact T1 |].
      cbn [spacesTidy]. rewrite T1, T2. reflexivity. }
    split; [exact T2 |].
    split.
    { rewrite Hhas. destruct b; [exact T3 |]. cbn [hasChar]. exact T3. }
    split; [rewrite Hnot; discriminate |].
    rewrite Hfree. intros Hg. destruct b; [exact (T5 Hg) |].
    cbn [tagFree]. exact (T5 Hg).
  - split; [cbn [spacesTidy]; rewrite Hc; exact F1 |].
    split; [cbn; exact Hc |].
    split; [cbn [hasChar]; rewrite F3; reflexivity |].
    split; [rewrite !startsWith_char; auto |].
    intros Hg. cbn [tagFree] in *.
    apply andb_true_iff in Hg as [Hhead Hrest].
    rewrite (F5 Hrest), andb_true_r.
    destruct (Ascii.eqb c "["); [| reflexivity].
    rewrite F3. apply orb_true_iff in Hhead as [Hb | Hn].
    + rewrite (F4 Hb). reflexivity.
    + rewrite Hn. apply orb_true_r.
Qed.

Lemma collapse_fixed (s : string) :
  spacesTidy s = true ->
  collapseFrom false s = s /\
  (startsWithSpace s = false -> collapseFrom true s = s).
Proof.
  induction s as [| c s IH]; intros Htidy; [split; auto |].
  cbn [spacesTidy] in Htidy. apply andb_true_iff in Htidy as [Hhead Hrest].
  destruct (IH Hrest) as [Hfalse Htrue].
  cbn [collapseFrom startsWithSpace]. destruct (isWhiteSpace c) eqn:Hc.
  - apply andb_true_iff in Hhead as [Heq Hnext].
    apply Ascii.eqb_eq in Heq. subst c. apply negb_true_iff in Hnext.
    split; [rewrite (Htrue Hnext); reflexivity | discriminate].
  - rewrite Hfalse. split; reflexivity.
Qed.

Lemma hasChar_snoc (c d : ascii) (s : string) :
  hasChar c (s +:+ String d "") = hasChar c s || Ascii.eqb d c.
Proof.
  induction s as [| e s IH]; [cbn; apply orb_false_r |].
  change (String e s +:+ String d "") with (String e (s +:+ String d "")).
  cbn [hasChar]. rewrite IH. apply orb_assoc.
Qed.

Lemma tagFree_without_closing (s : string) :
  hasChar "]" s = false -> tagFree s = true.
Proof.
  induction s as [| c s IH]; [reflexivity |].
  cbn [hasChar tagFree]. intros H. apply orb_false_iff in H as [_ Hs].
  rewrite (IH Hs), Hs. destruct (Ascii.eqb c "["); [| reflexivity].
  rewrite orb_true_r. reflexivity.
Qed.

(** What the scan leaves holds no tag. *)
Lemma stripTagsFrom_tagFree (s : string) :
  forall b,
    hasChar "]" b = false ->
    tagFree (stripTagsFrom (Some b) s) = true /\
    tagFree (stripTagsFrom None s) = true.
Proof.
  induction s as [| c s IH]; intros b Hb.
  - split; [| reflexivity]. cbn [stripTagsFrom tagFree].
    rewrite Hb, (tagFree_without_closing b Hb). cbn [negb].
    rewrite orb_true_r. reflexivity.
  - destruct (IH "" eq_refl) as [Iopen Inone].
    split.
    + cbn [stripTagsFrom]. destruct (Ascii.eqb c "]") eqn:Hc.
      * destruct b; [| exact Inone].
        cbn [tagFree]. rewrite startsWith_char. cbn. exact Inone.
      * apply IH. rewrite hasChar_snoc, Hb, Hc. reflexivity.
    + cbn [stripTagsFrom]. destruct (Ascii.eqb c "[") eqn:Hc; [exact Iopen |].
      cbn [tagFree]. rewrite Hc. exact Inone.
Qed.

Lemma stripTagsFrom_unclosed (s : string) :
  forall b,
    hasChar "]" s = false ->
    stripTagsFrom (Some b) s = String "[" (b +:+ s).
Proof.
  induction s as [| c s IH]; intros b Hs.
  - cbn. rewrite append_empty_r. reflexivity.
  - cbn [hasChar] in Hs. apply orb_false_iff in Hs as [Hc Hs].
    cbn [stripTagsFrom]. rewrite Hc, IH by exact Hs.
    rewrite append_assoc. reflexivity.
Qed.

(** A text without a tag is left as it is. *)
Lemma stripTags_fixed (s : string) : tagFree s = true -> stripTags s = s.
Proof.
  unfold stripTags. induction s as [| c s IH]; intros Hg; [reflexivity |].
  pose proof (tagFree_tail c s Hg) as Hrest. specialize (IH Hrest).
  cbn [stripTagsFrom]. destruct (Ascii.eqb c "[") eqn:Hc.
  - apply Ascii.eqb_eq in Hc. subst c.
    cbn [tagFree] in Hg. rewrite Ascii.eqb_refl in Hg.
    apply andb_true_iff in Hg as [Hhead _].
    apply orb_true_iff in Hhead as [Hb | Hn].
    + destruct s as [| d r]; [discriminate Hb |].
      rewrite startsWith_char in Hb. apply Ascii.eqb_eq in Hb. subst d.
      cbn [stripTagsFrom] in *. rewrite Ascii.eqb_refl.
      change (Ascii.eqb "]" "[") with false in IH. cbv iota in IH.
      injection IH as IH. rewrite IH. reflexivity.
    + apply negb_true_iff in Hn. rewrite stripTagsFrom_unclosed by exact Hn.
      reflexivity.
  - rewrite IH. reflexivity.
Qed.

Lemma stripTagsFrom_tag (tag : string) :
  forall b s,
    hasChar "]" tag = false ->
    b +:+ tag <> "" ->
    stripTagsFrom (Some b) (tag +:+ String "]" s) = stripTagsFrom None s.
Proof.
  induction tag as [| c tag IH]; intros b s Hno Hne.
  - rewrite append_empty_r in Hne. change ("" +:+ String "]" s) with (String "]" s).
    cbn [stripTagsFrom]. rewrite Ascii.eqb_refl. destruct b; [contradiction | reflexivity].
  - cbn [hasChar] in Hno. apply orb_false_iff in Hno as [Hc Hno].
    change (String c tag +:+ String "]" s) with (String c (tag +:+ String "]" s)).
    cbn [stripTagsFrom]. rewrite Hc. apply IH; [exact Hno |].
    rewrite append_assoc. destruct b; discriminate.
Qed.

Lemma stripTagsFrom_plain_prefix (a s : string) :
  hasChar "[" a = false ->
  stripTagsFrom None (a +:+ s) = a +:+ stripTagsFrom None s.
Proof.
  induction a as [| c a IH]; intros Ha; [reflexivity |].
  cbn [hasChar] in Ha. apply orb_false_iff in Ha as [Hc Ha].
  change (String c a +:+ s) with (String c (a +:+ s)).
  cbn [stripTagsFrom]. rewrite Hc, IH by exact Ha. reflexivity.
Qed.

Lemma cleanScript_shape (script : string) :
  startsWithSpace (cleanScriptForTTS script) = false /\
  endsWithSpace (cleanScriptForTTS script) = false /\
  spacesTidy (cleanScriptForTTS script) = true /\
  tagFree (cleanScriptForTTS script) = true.
Proof.
  unfold cleanScriptForTTS, trim, collapseSpaces, stripTags.
  set (t := collapseFrom false (stripTagsFrom None script)).
  assert (Tt : spacesTidy t = true) by apply collapse_shape.
  assert (Gt : tagFree t = true).
  { apply collapse_shape. apply (stripTagsFrom_tagFree script "" eq_refl). }
  destruct (trimStart_shape t) as (S1 & S2 & S3 & _).
  destruct (trimEnd_shape (trimStart t)) as (E1 & E2 & E3 & E4 & _).
  repeat split; auto.
Qed.

Lemma cleanScript_fixed (s : string) :
  startsWithSpace s = false -> endsWithSpace s = false ->
  spacesTidy s = true -> tagFree s = true ->
  cleanScriptForTTS s = s.
Proof.
  intros Hs He Ht Hg. unfold cleanScriptForTTS, trim, collapseSpaces.
  rewrite stripTags_fixed by exact Hg.
  destruct (collapse_fixed s Ht) as [-> _].
  destruct (trimStart_shape s) as (_ & _ & _ & ->); [| exact Hs].
  apply trimEnd_shape. exact He.
Qed.

(** X13: the text handed to speech synthesis is tidy: it neither starts
    nor ends with white space, its only white space is single plain spaces
    between other characters, and no bracket tag is left in it. *)
Theorem cleanScriptForTTS_tidy (script : string) :
  startsWithSpace (cleanScriptForTTS script) = false /\
  endsWithSpace (cleanScriptForTTS script) = false /\
  spacesTidy (cleanScriptForTTS script) = true /\
  tagFree (cleanScriptForTTS script) = true.
Proof. apply cleanScript_shape. Qed.

(** X14: cleaning a cleaned script changes nothing. *)
Theorem cleanScriptForTTS_idempotent (script : string) :
  cleanScriptForTTS (cleanScriptForTTS script) = cleanScriptForTTS script.
Proof.
  destruct (cleanScript_shape script) as (Hs & He & Ht & Hg).
  apply cleanScript_fixed; assumption.
Qed.

(** X15: a direction tag (an opening bracket, a non-empty content without
    closing bracket, a closing bracket) is dropped from the text: the
    script with the tag and the script without it are cleaned to the same
    text. *)
Theorem cleanScriptForTTS_drops_tag (before tag after : string) :
  hasChar "[" before = false ->
  tag <> "" ->
  hasChar "]" tag = false ->
  cleanScriptForTTS (before +:+ String "[" (tag +:+ String "]" after)) =
  cleanScriptForTTS (before +:+ after).
Proof.
  intros Hb Hne Hno. unfold cleanScriptForTTS, stripTags.
  rewrite !stripTagsFrom_plain_prefix by exact Hb.
  cbn [stripTagsFrom]. change (Ascii.eqb "[" "[") with true. cbv iota.
  rewrite stripTagsFrom_tag; [reflexivity | exact Hno | exact Hne].
Qed.

Lemma cleanScriptForTTS_drops_tag_witness :
  cleanScriptForTTS ("Ola " +:+ String "[" ("GANCHO" +:+ String "]" " mundo")) =
  cleanScriptForTTS ("Ola " +:+ " mundo").
Proof.
  apply (cleanScriptForTTS_drops_tag "Ola " "GANCHO" " mundo");
    [reflexivity | discriminate | reflexivity].
Defined.

Example cleanScriptForTTS_example :
  cleanScriptForTTS "[GANCHO]  Voce sabia?  [EXPLICACAO CONTEXTO] Tudo comecou   em 1990. "
  = "Voce sabia? Tudo comecou em 1990.".
Proof. vm_compute. reflexivity. Qed.

Lemma lastIndexOf_range (c : ascii) (s : string) :
  -1 <= lastIndexOf c s < Z.of_nat (String.length s).
Proof.
  induction s as [| d s IH]; [cbn; lia |].
  cbn [lastIndexOf String.length].
  destruct (0 <=? lastIndexOf c s) eqn:H.
  - apply Z.leb_le in H. lia.
  - destruct (Ascii.eqb d c); lia.
Qed.

Lemma length_substring_prefix (n : nat) (s : string) :
  String.length (String.substring 0 n s) = Nat.min n (String.length s).
Proof.
  revert s. induction n as [| n IH]; intros s.
  - destruct s; reflexivity.
  - destruct s as [| c s]; [reflexivity |]. cbn. rewrite IH. reflexivity.
Qed.

Lemma substring_prefix_all (n : nat) (s : string) :
  (String.length s <= n)%nat -> String.substring 0 n s = s.
Proof.
  revert s. induction n as [| n IH]; intros s Hlen.
  - destruct s; [reflexivity | cbn in Hlen; lia].
  - destruct s as [| c s]; [reflexivity |]. cbn in *. rewrite IH by lia. reflexivity.
Qed.

Lemma substring_prefix_nonempty (n : nat) (s : string) :
  (0 < n)%nat -> s <> "" -> String.substring 0 n s <> "".
Proof.
  intros Hn Hs. destruct n; [lia |]. destruct s; [contradiction | discriminate].
Qed.

(** X16: the preview text handed to speech synthesis is never longer than
    72 characters, is not empty unless the cleaned script is, and is the
    whole cleaned script when that has at most 21 characters. *)
Theorem getPreviewText_bounds (full : string) :
  (String.length (getPreviewText full) <= 72)%nat /\
  (cleanScriptForTTS full <> "" -> getPreviewText full <> "") /\
  ((String.length (cleanScriptForTTS full) <= 21)%nat ->
     getPreviewText full = cleanScriptForTTS full).
Proof.
  unfold getPreviewText. cbv zeta.
  set (clean := cleanScriptForTTS full).
  set (text := String.substring 0 70 clean).
  assert (Hlen : String.length text = Nat.min 70 (String.length clean))
    by apply length_substring_prefix.
  pose proof (lastIndexOf_range "." text) as Hdot.
  pose proof (lastIndexOf_range "!" text) as Hbang.
  pose proof (lastIndexOf_range "?" text) as Hques.
  pose proof (lastIndexOf_range " " text) as Hspace.
  set (lastEnd := Z.max (Z.max (lastIndexOf "." text) (lastIndexOf "!" text))
                        (lastIndexOf "?" text)) in *.
  assert (Hend : lastEnd < Z.of_nat (String.length text)) by (subst lastEnd; lia).
  destruct (20 <? lastEnd) eqn:H1.
  - apply Z.ltb_lt in H1.
    assert (Hcut : String.length (String.substring 0 (Z.to_nat (lastEnd + 1)) text)
                   = Z.to_nat (lastEnd + 1)).
    { rewrite length_substring_prefix. lia. }
    split; [lia |]. split.
    + intros _ Hempty. rewrite Hempty in Hcut. cbn in Hcut. lia.
    + intros Hshort. lia.
  - apply Z.ltb_ge in H1.
    destruct (20 <? lastIndexOf " " text) eqn:H2.
    + apply Z.ltb_lt in H2.
      split.
      { rewrite length_append, length_substring_prefix. cbn [String.length]. lia. }
      split.
      { intros _ Hempty.
        apply (f_equal String.length) in Hempty.
        rewrite length_append in Hempty. cbn in Hempty. lia. }
      intros Hshort. lia.
    + split; [lia |]. split.
      * intros Hne. apply substring_prefix_nonempty; [lia | exact Hne].
      * intros Hshort. apply substring_prefix_all. lia.
Qed.

Lemma getPreviewText_bounds_witness :
  (String.length (getPreviewText longScript) <= 72)%nat /\
  getPreviewText longScript <> "" /\
  getPreviewText "Era uma vez." = cleanScriptForTTS "Era uma vez.".
Proof.
  destruct (getPreviewText_bounds longScript) as (Hlen & Hne & _).
  destruct (getPreviewText_bounds "Era uma vez.") as (_ & _ & Hshort).
  split; [exact Hlen |]. split.
  - apply Hne. vm_compute. discriminate.
  - apply Hshort. vm_compute. lia.
Defined.

(** ** Media URLs *)

Lemma dropLeadingSlashes_no_slash (s : string) :
  startsWith (dropLeadingSlashes s) "/" = false.
Proof.
  induction s as [| c s IH]; [reflexivity |].
  cbn [dropLeadingSlashes]. destruct (Ascii.eqb c "/") eqn:Hc; [exact IH |].
  rewrite startsWith_char. exact Hc.
Qed.

Lemma dropLeadingSlashes_fixed (s : string) :
  startsWith s "/" = false -> dropLeadingSlashes s = s.
Proof.
  destruct s as [| c s]; [reflexivity |].
  rewrite startsWith_char. intros Hc. cbn [dropLeadingSlashes]. rewrite Hc. reflexivity.
Qed.

Lemma cleanMediaPath_plain (path : string) :
  startsWith path "/" = false -> prefixCI "media/" path = false ->
  cleanMediaPath path = path.
Proof.
  intros Hslash Hmedia. unfold cleanMediaPath.
  rewrite (dropLeadingSlashes_fixed path Hslash).
  unfold dropMediaPrefix. rewrite Hmedia.
  unfold dropSlashedMediaPrefix. rewrite Hslash. cbn [andb].
  apply dropLeadingSlashes_fixed. exact Hslash.
Qed.

Lemma substring_drop_prefix (a p : string) :
  String.substring (String.length a) (String.length (a +:+ p) - String.length a)
                   (a +:+ p) = p.
Proof.
  rewrite length_append.
  replace (String.length a + String.length p - String.length a)%nat
    with (String.length p) by lia.
  replace (String.length a) with (String.length a + 0)%nat at 1 by lia.
  rewrite substring_append_skip. apply substring_all.
Qed.

Lemma cleanMediaPath_media (path : string) :
  startsWith path "/" = false -> prefixCI "media/" path = false ->
  cleanMediaPath ("media/" +:+ path) = path /\
  cleanMediaPath ("/media/" +:+ path) = path /\
  cleanMediaPath ("/" +:+ path) = path.
Proof.
  intros Hslash Hmedia.
  assert (Hdrop : dropMediaPrefix ("media/" +:+ path) = path).
  { unfold dropMediaPrefix.
    change (prefixCI "media/" ("media/" +:+ path)) with true. cbv iota.
    apply (substring_drop_prefix "media/" path). }
  assert (Hrest : dropLeadingSlashes (dropSlashedMediaPrefix path) = path).
  { unfold dropSlashedMediaPrefix. rewrite Hslash. cbn [andb].
    apply dropLeadingSlashes_fixed. exact Hslash. }
  unfold cleanMediaPath. split; [| split].
  - change (dropLeadingSlashes ("media/" +:+ path)) with ("media/" +:+ path).
    rewrite Hdrop. exact Hrest.
  - change (dropLeadingSlashes ("/media/" +:+ path)) with ("media/" +:+ path).
    rewrite Hdrop. exact Hrest.
  - change (dropLeadingSlashes ("/" +:+ path)) with (dropLeadingSlashes path).
    rewrite (dropLeadingSlashes_fixed path Hslash).
    unfold dropMediaPrefix. rewrite Hmedia. exact Hrest.
Qed.

(** X17: a relative media path gives the same URL however it is written:
    bare, with a leading slash, with the [media/] prefix or with both; the
    URL is the media root followed by the bare path. *)
Theorem buildMediaUrl_spellings (API_BASE_URL path : string) :
  path <> "" ->
  startsWith path "/" = false ->
  prefixCI "media/" path = false ->
  isAbsoluteUrl path = false ->
  buildMediaUrl API_BASE_URL path = mediaRoot API_BASE_URL +:+ path /\
  buildMediaUrl API_BASE_URL ("/" +:+ path) = mediaRoot API_BASE_URL +:+ path /\
  buildMediaUrl API_BASE_URL ("media/" +:+ path) = mediaRoot API_BASE_URL +:+ path /\
  buildMediaUrl API_BASE_URL ("/media/" +:+ path) = mediaRoot API_BASE_URL +:+ path.
Proof.
  intros Hne Hslash Hmedia Habs.
  destruct (cleanMediaPath_media path Hslash Hmedia) as (C1 & C2 & C3).
  pose proof (cleanMediaPath_plain path Hslash Hmedia) as C0.
  assert (Hroot : forall clean,
            (if includes API_BASE_URL "/api"
             then "https://topatudoeletrofacil.com.br/media/" +:+ clean
             else API_BASE_URL +:+ "/media/" +:+ clean)
            = mediaRoot API_BASE_URL +:+ clean).
  { intros clean. unfold mediaRoot, PRODUCTION_MEDIA_ROOT.
    destruct (includes API_BASE_URL "/api"); [reflexivity |].
    rewrite append_assoc. reflexivity. }
  unfold buildMediaUrl. cbv zeta.
  split; [| split; [| split]].
  - apply String.eqb_neq in Hne. rewrite Hne, Habs, C0. apply Hroot.
  - change (String.eqb ("/" +:+ path) "") with false.
    change (isAbsoluteUrl ("/" +:+ path)) with false.
    cbv iota. rewrite C3. apply Hroot.
  - change (String.eqb ("media/" +:+ path) "") with false.
    change (isAbsoluteUrl ("media/" +:+ path)) with false.
    cbv iota. rewrite C1. apply Hroot.
  - change (String.eqb ("/media/" +:+ path) "") with false.
    change (isAbsoluteUrl ("/media/" +:+ path)) with false.
    cbv iota. rewrite C2. apply Hroot.
Qed.

Lemma buildMediaUrl_spellings_witness :
  buildMediaUrl DEFAULT_API_BASE_URL "audio/a.mp3"
    = mediaRoot DEFAULT_API_BASE_URL +:+ "audio/a.mp3" /\
  buildMediaUrl DEFAULT_API_BASE_URL ("/" +:+ "audio/a.mp3")
    = mediaRoot DEFAULT_API_BASE_URL +:+ "audio/a.mp3" /\
  buildMediaUrl DEFAULT_API_BASE_URL ("media/" +:+ "audio/a.mp3")
    = mediaRoot DEFAULT_API_BASE_URL +:+ "audio/a.mp3" /\
  buildMediaUrl DEFAULT_API_BASE_URL ("/media/" +:+ "audio/a.mp3")
    = mediaRoot DEFAULT_API_BASE_URL +:+ "audio/a.mp3".
Proof.
  apply (buildMediaUrl_spellings DEFAULT_API_BASE_URL "audio/a.mp3");
    [discriminate | reflexivity | reflexivity | reflexivity].
Defined.

(** X18: an empty path gives the empty string and an absolute URL
    ([http://] or [https://], in any case) is handed back untouched;
    in every other case the path appended to the media root does not start
    with a slash, so the URL never has a doubled slash at that place. *)
Theorem buildMediaUrl_edges (API_BASE_URL mediaPath : string) :
  buildMediaUrl API_BASE_URL "" = "" /\
  (isAbsoluteUrl mediaPath = true -> buildMediaUrl API_BASE_URL mediaPath = mediaPath) /\
  (mediaPath <> "" -> isAbsoluteUrl mediaPath = false ->
     buildMediaUrl API_BASE_URL mediaPath
       = mediaRoot API_BASE_URL +:+ cleanMediaPath mediaPath /\
     startsWith (cleanMediaPath mediaPath) "/" = false).
Proof.
  split; [reflexivity |]. split.
  - intros Habs. unfold buildMediaUrl. rewrite Habs.
    destruct (String.eqb_spec mediaPath "") as [-> |]; reflexivity.
  - intros Hne Habs. split.
    + unfold buildMediaUrl. apply String.eqb_neq in Hne. rewrite Hne, Habs.
      cbv zeta. unfold mediaRoot, PRODUCTION_MEDIA_ROOT.
      destruct (includes API_BASE_URL "/api"); [reflexivity |].
      rewrite append_assoc. reflexivity.
    + apply dropLeadingSlashes_no_slash.
Qed.

Lemma buildMediaUrl_edges_witness :
  buildMediaUrl "http://localhost:5000" "HTTPS://cdn.x.com/v.mp4" = "HTTPS://cdn.x.com/v.mp4" /\
  buildMediaUrl "http://localhost:5000" "//media//v.mp4"
    = mediaRoot "http://localhost:5000" +:+ cleanMediaPath "//media//v.mp4" /\
  startsWith (cleanMediaPath "//media//v.mp4") "/" = false.
Proof.
  destruct (buildMediaUrl_edges "http://localhost:5000" "HTTPS://cdn.x.com/v.mp4")
    as (_ & Habs & _).
  destruct (buildMediaUrl_edges "http://localhost:5000" "//media//v.mp4")
    as (_ & _ & Hrel).
  split; [apply Habs; reflexivity |].
  apply Hrel; [discriminate | reflexivity].
Defined.

(** ** API service requests *)

(** X19: [ApiService.request] issues exactly one fetch and never waits or
    retries, whatever comes back: a rejection is passed on as it is; an
    [ok] response gives its parsed body; a response that is not [ok]
    (a 503 included) is thrown as an error whose message is the [error]
    text of the body when there is one, the fixed network text when the
    body is not JSON, and the status otherwise. *)
Theorem request_single_fetch (env : Env) (svc : ApiService) (endpoint : string)
    (w : World) :
  fetches (snd (request env svc endpoint w)) = S (fetches w) /\
  sleeps (snd (request env svc endpoint w)) = sleeps w /\
  studio (snd (request env svc endpoint w)) = studio w /\
  (forall e, net env (fetches w) (requestUrl svc endpoint) = Rejected e ->
     fst (request env svc endpoint w) = Throws e) /\
  (forall r, net env (fetches w) (requestUrl svc endpoint) = Resolved r ->
     (ok r = true -> forall data, body r = Some data ->
        fst (request env svc endpoint w) = Returns data) /\
     (ok r = false -> exists e, fst (request env svc endpoint w) = Throws e) /\
     (ok r = false -> body r = None ->
        fst (request env svc endpoint w)
          = Throws (ThrownError "Error" "Erro de rede ou JSON inválido")) /\
     (ok r = false -> forall fs msg,
        body r = Some (JObj fs) -> field (JObj fs) "error" = JStr msg -> msg <> "" ->
        fst (request env svc endpoint w) = Throws (ThrownError "Error" msg)) /\
     (ok r = false -> forall fs,
        body r = Some (JObj fs) -> truthy (field (JObj fs) "error") = false ->
        fst (request env svc endpoint w)
          = Throws (ThrownError "Error" ("Erro " +:+ pretty (status r))))).
Proof.
  unfold request, bind, plainFetch.
  destruct (net env (fetches w) (requestUrl svc endpoint)) as [r | e] eqn:Hnet.
  - assert (Hworld : forall o : Outcome JsValue,
              snd (ret o (afterFetch (latency env (fetches w)) w))
              = afterFetch (latency env (fetches w)) w) by reflexivity.
    assert (Hsnd :
      snd ((if negb (ok r)
            then
              match default networkFallbackBody (body r) with
              | JNull | JUndefined => ret (Throws nullAccessError)
              | _ =>
                  ret (Throws (ThrownError "Error"
                         (if truthy (field (default networkFallbackBody (body r)) "error")
                          then jsMessage env (field (default networkFallbackBody (body r)) "error")
                          else "Erro " +:+ pretty (status r))))
              end
            else
              match body r with
              | None => ret (Throws syntaxError)
              | Some data => ret (Returns data)
              end) (afterFetch (latency env (fetches w)) w))
      = afterFetch (latency env (fetches w)) w).
    { destruct (negb (ok r)).
      - destruct (default networkFallbackBody (body r)); reflexivity.
      - destruct (body r); reflexivity. }
    rewrite Hsnd. split; [reflexivity |]. split; [reflexivity |]. split; [reflexivity |].
    split; [intros e He; discriminate He |].
    intros r' Hr'. injection Hr' as <-.
    split.
    { intros Hok data Hbody. rewrite Hok, Hbody. reflexivity. }
    split.
    { intros Hok. rewrite Hok. cbn [negb].
      destruct (default networkFallbackBody (body r)); eexists; reflexivity. }
    split.
    { intros Hok Hbody. rewrite Hok, Hbody. reflexivity. }
    split.
    { intros Hok fs msg Hbody Herr Hne. rewrite Hok, Hbody. cbn [negb default from_option id].
      rewrite Herr. cbn [truthy jsMessage fst ret].
      apply String.eqb_neq in Hne. rewrite Hne. reflexivity. }
    intros Hok fs Hbody Herr. rewrite Hok, Hbody. cbn [negb default from_option id].
    rewrite Herr. reflexivity.
  - split; [reflexivity |]. split; [reflexivity |]. split; [reflexivity |].
    split; [intros e' He'; injection He' as <-; reflexivity |].
    intros r Hr. discriminate Hr.
Qed.

Lemma request_single_fetch_witness :
  fst (request env503 (newApiService "https://x.com/api/") "videos" world0)
    = Throws (ThrownError "Error" "Erro de rede ou JSON inválido") /\
  fetches (snd (request env503 (newApiService "https://x.com/api/") "videos" world0))
    = S (fetches world0) /\
  fst (request env200 (newApiService "https://x.com/api/") "videos" world0)
    = Returns (JObj [("success", JBool true)]) /\
  fst (request envOffline (newApiService "https://x.com/api/") "videos" world0)
    = Throws (ThrownError "TypeError" "Failed to fetch").
Proof.
  destruct (request_single_fetch env503 (newApiService "https://x.com/api/") "videos" world0)
    as (Hf & _ & _ & _ & H503).
  destruct (request_single_fetch env200 (newApiService "https://x.com/api/") "videos" world0)
    as (_ & _ & _ & _ & H200).
  destruct (request_single_fetch envOffline (newApiService "https://x.com/api/") "videos" world0)
    as (_ & _ & _ & Hoff & _).
  destruct (H503 (mkResponse 503 None) eq_refl) as (_ & _ & Hnet & _).
  destruct (H200 (mkResponse 200 (Some (JObj [("success", JBool true)]))) eq_refl)
    as (Hok & _).
  split; [apply Hnet; reflexivity |].
  split; [exact Hf |].
  split; [apply Hok; reflexivity |].
  apply Hoff. reflexivity.
Defined.

(** ** Script category *)

Lemma prefix_append (p rest : string) : String.prefix p (p +:+ rest) = true.
Proof.
  induction p as [| c p IH]; [destruct rest; reflexivity |].
  change (String c p +:+ rest) with (String c (p +:+ rest)).
  cbn [String.prefix]. rewrite IH.
  destruct (ascii_dec c c); [reflexivity | congruence].
Qed.

Lemma prefix_split (p s : string) :
  String.prefix p s = true -> exists rest, s = p +:+ rest.
Proof.
  revert s. induction p as [| c p IH]; intros s H.
  - exists s. reflexivity.
  - destruct s as [| d s]; [discriminate H |].
    cbn [String.prefix] in H.
    destruct (ascii_dec c d) as [<- |]; [| discriminate H].
    destruct (IH s H) as (rest & ->). exists rest. reflexivity.
Qed.

Lemma includes_append (before p rest : string) :
  includes (before +:+ p +:+ rest) p = true.
Proof.
  induction before as [| c before IH].
  - change ("" +:+ p +:+ rest) with (p +:+ rest).
    destruct (p +:+ rest) eqn:E.
    + destruct p; [reflexivity | discriminate E].
    + cbn [includes]. rewrite <- E, prefix_append. reflexivity.
  - change (String c before +:+ p +:+ rest) with (String c (before +:+ p +:+ rest)).
    cbn [includes]. rewrite IH. apply orb_true_r.
Qed.

Lemma includes_split (s p : string) :
  includes s p = true -> exists before rest, s = before +:+ p +:+ rest.
Proof.
  induction s as [| c s IH]; intros H.
  - cbn [includes] in H. apply prefix_split in H. destruct H as (rest & ->).
    exists "", rest. reflexivity.
  - cbn [includes] in H. apply orb_true_iff in H. destruct H as [H | H].
    + apply prefix_split in H. destruct H as (rest & ->). exists "", rest. reflexivity.
    + destruct (IH H) as (before & rest & ->).
      exists (String c before), rest. reflexivity.
Qed.

(** A text that contains a word contains every part of the word. *)
Lemma includes_part (s a p b : string) :
  includes s (a +:+ p +:+ b) = true -> includes s p = true.
Proof.
  intros H. apply includes_split in H. destruct H as (before & rest & ->).
  replace (before +:+ (a +:+ p +:+ b) +:+ rest)
    with ((before +:+ a) +:+ p +:+ (b +:+ rest)).
  - apply includes_append.
  - rewrite !append_assoc. reflexivity.
Qed.

(** X20: the label is always one of the six, and the keyword [ia] shadows
    every later keyword that contains it: a script whose lower-case form
    contains [historia], [tutorial] or [piada] is labelled [mystery-terror]
    or [technology], never [story], [tutorial] or [comedy].  So [story] is
    only given for a script with [era uma vez], and [comedy] only for one
    with [engraçad] or [humor]. *)
Theorem detectScriptCategory_shadowed (toLowerCase : string -> string)
    (script : string) :
  In (detectScriptCategory toLowerCase script) scriptCategories /\
  (forall kw, In kw ["historia"; "tutorial"; "piada"; "tecnologia"; "artificial"] ->
     includes (toLowerCase script) kw = true ->
     detectScriptCategory toLowerCase script = "mystery-terror" \/
     detectScriptCategory toLowerCase script = "technology") /\
  (detectScriptCategory toLowerCase script = "story" ->
     includes (toLowerCase script) "era uma vez" = true) /\
  (detectScriptCategory toLowerCase script = "comedy" ->
     includes (toLowerCase script) "engraçad" = true \/
     includes (toLowerCase script) "humor" = true).
Proof.
  assert (Hia : forall kw,
            In kw ["historia"; "tutorial"; "piada"; "tecnologia"; "artificial"] ->
            includes (toLowerCase script) kw = true ->
            includes (toLowerCase script) "ia" = true).
  { intros kw Hin H.
    destruct Hin as [<- | [<- | [<- | [<- | [<- | []]]]]].
    - apply (includes_part _ "histor" "ia" ""). exact H.
    - apply (includes_part _ "tutor" "ia" "l"). exact H.
    - apply (includes_part _ "p" "ia" "da"). exact H.
    - apply (includes_part _ "tecnolog" "ia" ""). exact H.
    - apply (includes_part _ "artific" "ia" "l"). exact H. }
  unfold detectScriptCategory, scriptCategories.
  set (l := toLowerCase script) in *.
  destruct (includes l "misterio" || includes l "terror" || includes l "assombr").
  { split; [cbn; tauto |]. split; [intros; left; reflexivity |].
    split; cbv iota; intros H; discriminate H. }
  destruct (includes l "ia") eqn:Eia.
  { rewrite orb_true_r. cbn [orb].
    split; [cbn; tauto |]. split; [intros; right; reflexivity |].
    split; cbv iota; intros H; discriminate H. }
  assert (Hno : forall kw,
            In kw ["historia"; "tutorial"; "piada"; "tecnologia"; "artificial"] ->
            includes l kw = false).
  { intros kw Hin. destruct (includes l kw) eqn:E; [| reflexivity].
    discriminate (Hia kw Hin E). }
  rewrite (Hno "tecnologia"), (Hno "artificial"), (Hno "historia"),
    (Hno "tutorial"), (Hno "piada") by (cbn; tauto).
  cbn [orb].
  split.
  { destruct (includes l "era uma vez"); [cbn; tauto |].
    destruct (includes l "como" || false || includes l "aprenda"); [cbn; tauto |].
    destruct (includes l "engraçad" || false || includes l "humor"); cbn; tauto. }
  split.
  { intros kw Hin H. rewrite (Hno kw Hin) in H. discriminate H. }
  split.
  { destruct (includes l "era uma vez"); [reflexivity |].
    destruct (includes l "como" || false || includes l "aprenda");
      [cbv iota; intros H; discriminate H |].
    destruct (includes l "engraçad" || false || includes l "humor");
      cbv iota; intros H; discriminate H. }
  destruct (includes l "era uma vez"); [cbv iota; intros H; discriminate H |].
  destruct (includes l "como" || false || includes l "aprenda");
    [cbv iota; intros H; discriminate H |].
  destruct (includes l "engraçad") eqn:E1; [left; reflexivity |].
  destruct (includes l "humor") eqn:E2; [right; reflexivity |].
  cbv iota; intros H; discriminate H.
Qed.

Lemma detectScriptCategory_shadowed_witness :
  detectScriptCategory lowerLatin "Uma Historia de amor" = "mystery-terror" \/
  detectScriptCategory lowerLatin "Uma Historia de amor" = "technology".
Proof.
  destruct (detectScriptCategory_shadowed lowerLatin "Uma Historia de amor")
    as (_ & H & _).
  apply (H "historia"); [cbn; tauto | reflexivity].
Defined.

Example detectScriptCategory_examples :
  detectScriptCategory lowerLatin "Uma Historia de amor" = "technology" /\
  detectScriptCategory lowerLatin "Era uma vez um rei" = "story" /\
  detectScriptCategory lowerLatin "Tutorial de bolo" = "technology" /\
  detectScriptCategory lowerLatin "Como fazer bolo" = "tutorial".
Proof. vm_compute. repeat split. Qed.

(** ** Audio step *)

(** X21: when the audio step reports an audio file, only the last of its
    settings writes reaches the configuration, because each write starts
    from the configuration of the same render: the configuration ends up
    as it was with one key changed, [last_audio_model] or
    [elevenlabs_voice], and the [audio_file] entry is as before, so the
    URL of the generated audio is not stored.  Stage 2 is marked complete
    and the wizard moves to stage 3 all the same. *)
Theorem onSelectComplete_keeps_last_write (result : JsValue) (st : Studio) :
  truthy (field result "audio_url") = true ->
  (exists key value,
     (key = "last_audio_model" \/ key = "elevenlabs_voice") /\
     contentSettings (onSelectComplete result st)
       = <[key := value]> (contentSettings st)) /\
  contentSettings (onSelectComplete result st) !! "audio_file"
    = contentSettings st !! "audio_file" /\
  currentStep (onSelectComplete result st) = 3 /\
  stepCompleted (onSelectComplete result st)
    = arraySet (stepCompleted st) 1 (JBool true).
Proof.
  intros Hurl. unfold onSelectComplete. rewrite Hurl.
  assert (Hcases :
    exists key value,
      (key = "last_audio_model" \/ key = "elevenlabs_voice") /\
      contentSettings
        (match field result "model" with
         | JStr m =>
             if String.eqb m "elevenlabs" && truthy (field result "voice_profile")
             then updateSettings st "elevenlabs_voice" (field result "voice_profile")
                    (updateSettings st "last_audio_model"
                       (if truthy (field result "model") then field result "model"
                        else JStr "google")
                       (updateSettings st "preview_audio_file" JUndefined
                          (updateSettings st "audio_file" (field result "audio_url") st)))
             else updateSettings st "last_audio_model"
                    (if truthy (field result "model") then field result "model"
                     else JStr "google")
                    (updateSettings st "preview_audio_file" JUndefined
                       (updateSettings st "audio_file" (field result "audio_url") st))
         | _ => updateSettings st "last_audio_model"
                  (if truthy (field result "model") then field result "model"
                   else JStr "google")
                  (updateSettings st "preview_audio_file" JUndefined
                     (updateSettings st "audio_file" (field result "audio_url") st))
         end) = <[key := value]> (contentSettings st)).
  { destruct (field result "model") as [| | b | n | m | a | o];
      try (eexists _, _; split; [left; reflexivity | reflexivity]).
    destruct (String.eqb m "elevenlabs" && truthy (field result "voice_profile")).
    - eexists _, _. split; [right; reflexivity | reflexivity].
    - eexists _, _. split; [left; reflexivity | reflexivity]. }
  destruct Hcases as (key & value & Hkey & Hcs).
  cbv zeta. cbn [contentSettings setCurrentStep setStepCompleted currentStep stepCompleted].
  split.
  { exists key, value. split; [exact Hkey |]. exact Hcs. }
  split.
  { rewrite Hcs. apply lookup_insert_ne.
    destruct Hkey as [-> | ->]; discriminate. }
  split; reflexivity.
Qed.

Lemma onSelectComplete_keeps_last_write_witness :
  contentSettings (onSelectComplete audioResult studioAtAudio) !! "audio_file"
    = contentSettings studioAtAudio !! "audio_file" /\
  currentStep (onSelectComplete audioResult studioAtAudio) = 3.
Proof.
  destruct (onSelectComplete_keeps_last_write audioResult studioAtAudio)
    as (_ & Hfile & Hstep & _); [reflexivity |].
  split; [exact Hfile | exact Hstep].
Defined.

(** ** The two URL builders *)

(** X22: the component's [buildApiUrl] and the service's [request] build
    the same address for every spelling both accept: with or without the
    API suffix on the base, with or without a leading separator on the
    endpoint; the service also accepts a base with a trailing separator.
    The address is the origin, [/api/] and the endpoint, with no doubled
    separator at the joins. *)
Theorem api_urls_agree (origin path suffix lead : string) :
  endsWith origin "/" = false ->
  endsWith origin "/api" = false ->
  startsWith path "/" = false ->
  In suffix [""; "/api"] ->
  In lead [""; "/"] ->
  buildApiUrl (origin +:+ suffix) (lead +:+ path) = origin +:+ "/api/" +:+ path /\
  requestUrl (newApiService (origin +:+ suffix)) (lead +:+ path)
    = buildApiUrl (origin +:+ suffix) (lead +:+ path) /\
  requestUrl (newApiService (origin +:+ suffix +:+ "/")) (lead +:+ path)
    = buildApiUrl (origin +:+ suffix) (lead +:+ path).
Proof.
  intros Hslash Hapi Hpath Hsuffix Hlead.
  rewrite (buildApiUrl_canonical origin path suffix lead Hapi Hpath Hsuffix Hlead).
  split; [reflexivity |].
  split.
  - apply requestUrl_canonical; try assumption.
    destruct Hsuffix as [<- | [<- | []]]; cbn; tauto.
  - destruct Hsuffix as [<- | [<- | []]].
    + change ("" +:+ "/") with "/".
      apply requestUrl_canonical; try assumption. cbn; tauto.
    + change ("/api" +:+ "/") with "/api/".
      apply requestUrl_canonical; try assumption. cbn; tauto.
Qed.

Lemma api_urls_agree_witness :
  buildApiUrl ("https://x.com" +:+ "/api") ("/" +:+ "videos")
    = "https://x.com" +:+ "/api/" +:+ "videos" /\
  requestUrl (newApiService ("https://x.com" +:+ "/api")) ("/" +:+ "videos")
    = buildApiUrl ("https://x.com" +:+ "/api") ("/" +:+ "videos") /\
  requestUrl (newApiService ("https://x.com" +:+ "/api" +:+ "/")) ("/" +:+ "videos")
    = buildApiUrl ("https://x.com" +:+ "/api") ("/" +:+ "videos").
Proof.
  apply (api_urls_agree "https://x.com" "videos" "/api" "/");
    [reflexivity | reflexivity | reflexivity | cbn; tauto | cbn; tauto].
Defined.
